(** * ifc2gltf: scene flattening and glTF / GLB serialisation

    A shallow embedding of [_test/LoadFileExample/src/ifc2gltf.cpp], the
    properties of its output that the specification states, and further
    properties of the code.

    Conventions of the embedding.
    - [size_t] values are [Z] reduced by [usize] (modulo 2^64) wherever the
      source does arithmetic on them; [uint32_t] values are [Z] reduced by
      [u32] (modulo 2^32), in particular at every [static_cast<uint32_t>].
    - An output stream is the sequence of characters or bytes streamed into
      it; a writer function is the text it appends.
    - [float], [double] and the carve matrix type are an interface
      ([Numerics]); [binary32] below instantiates it with IEEE-754 single
      precision arithmetic.
    - [LogInfo], [LogWarning], [LogError] and [LogDebug] only print; they
      are left out.  The operations that throw in the model are
      [std::stof] and [std::stoi] in [ParseCommandLine]; [main] catches
      what they throw.  The [try]/[catch] frames of the converter are left
      out. *)

From Stdlib Require Import ZArith Lia.
From Stdlib Require Import Strings.Byte Strings.Ascii.
From Stdlib Require Import Floats.SpecFloat.
From stdpp Require Import prelude strings gmap pretty sorting.

Local Open Scope Z_scope.
Set Warnings "-register-all".

(** ** Machine integers *)

Module Cpp.

Definition usize (n : Z) : Z := n mod 2 ^ 64.
Definition u32 (n : Z) : Z := n mod 2 ^ 32.

(** [std::string::npos], i.e. [static_cast<size_t>(-1)]. *)
Definition npos : Z := 2 ^ 64 - 1.

(** [v.size()] of a vector, as a [size_t]. *)
Definition vsize {A} (l : list A) : Z := Z.of_nat (length l).

(** [v.empty()] *)
Definition empty {A} (l : list A) : bool :=
  match l with [] => true | _ => false end.

(** One byte holding [z mod 256]. *)
Definition byte_of_Z (z : Z) : byte :=
  default x00 (Byte.of_N (Z.to_N (z mod 256))).

Definition Z_of_byte (b : byte) : Z := Z.of_N (Byte.to_N b).

(** [file.write(reinterpret_cast<const char*>(&w), 4)] for a [uint32_t] on
    the little-endian hosts the program is built for. *)
Definition le32 (w : Z) : list byte :=
  [byte_of_Z w; byte_of_Z (w ≫ 8); byte_of_Z (w ≫ 16); byte_of_Z (w ≫ 24)].

(** Reading a little-endian [uint32_t] back, as a glTF loader does. *)
Definition read_le32 (bs : list byte) : Z :=
  match bs with
  | [b0; b1; b2; b3] =>
      Z_of_byte b0 + Z_of_byte b1 ≪ 8 + Z_of_byte b2 ≪ 16 + Z_of_byte b3 ≪ 24
  | _ => 0
  end.

(** The characters of a [std::string] as the bytes [write] sends out. *)
Definition bytes_of_string (s : string) : list byte :=
  String.list_byte_of_string s.

(** [static_cast<uint32_t>((n + 3) & ~3)] with [n] a [size_t]: the [int]
    [~3] is converted to [size_t] before the conjunction. *)
Definition align4 (n : Z) : Z :=
  u32 (Z.land (usize (n + 3)) (usize (Z.lnot 3))).

End Cpp.
Import Cpp.

(** ** The GLB container: [WriteGlbHeader], [WriteGlbJsonChunk] and
    [WriteGlbBinaryChunk] *)

Module Glb.

Definition magic : Z := 0x46546C67.
Definition version : Z := 2.
Definition jsonType : Z := 0x4E4F534A.
Definition binaryType : Z := 0x004E4942.

Definition WriteGlbHeader (jsonString : string) (binaryData : list byte)
  : list byte :=
  let jsonLength := align4 (Z.of_nat (String.length jsonString)) in
  let binaryLength := align4 (vsize binaryData) in
  let totalLength :=
    u32 (12 + 8 + jsonLength +
         (if empty binaryData then 0 else u32 (8 + binaryLength))) in
  le32 magic ++ le32 version ++ le32 totalLength.

Definition WriteGlbJsonChunk (jsonString : string) : list byte :=
  let len := Z.of_nat (String.length jsonString) in
  let jsonLength := align4 len in
  le32 jsonLength ++ le32 jsonType ++ bytes_of_string jsonString
    ++ replicate (Z.to_nat (jsonLength - len)) x20.

Definition WriteGlbBinaryChunk (binaryData : list byte) : list byte :=
  let binaryLength := align4 (vsize binaryData) in
  le32 binaryLength ++ le32 binaryType ++ binaryData
    ++ replicate (Z.to_nat (binaryLength - vsize binaryData)) x00.

End Glb.

(** ** Numbers and the geometry kernel

    The arithmetic of [float] and [double], the conversion between them,
    the text and byte images of a [float], and the matrix type of the
    geometry kernel with its product on points
    ([carve::math::Matrix], [operator*]). *)

Class Numerics := {
  float : Type;
  double : Type;
  Matrix : Type;
  (** [static_cast<float>(d)] *)
  static_cast_float : double -> float;
  (** [a * b], [a < b], [a <= b] and [a == b] on [float] *)
  float_mul : float -> float -> float;
  float_lt : float -> float -> bool;
  float_le : float -> float -> bool;
  float_eq : float -> float -> bool;
  (** the literals [0.0f], [1.0f], [0.8f] and [0.9f] *)
  lit_0_0f : float;
  lit_1_0f : float;
  lit_0_8f : float;
  lit_0_9f : float;
  (** [localTransform * v] on the three coordinates of a point *)
  matrix_apply : Matrix -> double * double * double -> double * double * double;
  (** the four bytes of a [float] in memory *)
  float_bytes : float -> list byte;
  float_bytes_length : forall f, length (float_bytes f) = 4%nat;
  (** [stream << f] *)
  stream_float : float -> string;
}.

Section Model.
Context `{Numerics}.

(** *** Input: what the geometry converter hands over *)

(** [carve::geom::vector<3>] *)
Record vector3 := Vector3 { x : double; y : double; z : double }.

Definition transform (m : Matrix) (v : vector3) : vector3 :=
  let '(a, b, c) := matrix_apply m (x v, y v, z v) in Vector3 a b c.

(** Modelled from the spec: the carve face, mesh and mesh-set types, which
    the program only reads.  A face is its ordered vertex loop and its
    plane normal; [n_edges] is the number of edges of the loop, and walking
    [face->edge], [edge->next] once around yields the loop's vertices in
    order.  Pointers that the program tests for null are options. *)
Record Face := { loop : list vector3; plane_N : vector3 }.

Definition n_edges (face : Face) : Z := vsize (loop face).

Record Mesh := { faces : list (option Face) }.

Record MeshSet := { meshes : list (option Mesh) }.

(** Modelled from the spec: an appearance carries its colour as a list of
    components ([m_color_rgba]). *)
Record AppearanceData := { m_color_rgba : list double }.

(** Modelled from the spec: a geometric item owns closed and open mesh
    sets, appearances and nested child items. *)
Inductive ItemShapeData := Build_ItemShapeData {
  m_meshsets : list (option MeshSet);
  m_meshsets_open : list (option MeshSet);
  m_vec_item_appearances : list (option AppearanceData);
  m_child_items : list ItemShapeData
}.

(** Modelled from the spec: the domain object behind a shape.  [m_Name]
    and [m_GlobalId] are absent when the attribute pointer is null;
    [as_IfcRoot] is absent when the dynamic cast fails; [typeid_name] is
    the implementation's [typeid] name of the object. *)
Record IfcRoot := { m_Name : option string; m_GlobalId : option string }.

Record IfcObjectDefinition := {
  as_IfcRoot : option IfcRoot;
  typeid_name : string
}.

(** Modelled from the spec: one shape-data object with the transform
    [getTransform()] returns, its geometric items and its child elements.
    [m_ifc_object_definition] is [None] when the weak pointer has
    expired. *)
Inductive ProductShapeData := Build_ProductShapeData {
  m_ifc_object_definition : option IfcObjectDefinition;
  getTransform : Matrix;
  getGeometricItems : list ItemShapeData;
  getChildElements : list ProductShapeData
}.

(** *** The converter's own data *)

Record CommandLineArgs := {
  inputFile : string;
  outputFile : string;
  scale : float;
  logLevel : Z;
  outputGlb : bool
}.

Record GeometryData := {
  vertices : list float;
  normals : list float;
  texCoords : list float;
  indices : list Z;
  materialId : string;
  minBounds : float * float * float;
  maxBounds : float * float * float
}.

(** A default-constructed [GeometryData]. *)
Definition GeometryData_new : GeometryData :=
  {| vertices := []; normals := []; texCoords := []; indices := [];
     materialId := EmptyString;
     minBounds := (lit_0_0f, lit_0_0f, lit_0_0f);
     maxBounds := (lit_0_0f, lit_0_0f, lit_0_0f) |}.

Record MaterialData := {
  material_name : string;
  baseColorFactor : float * float * float * float;
  metallicFactor : float;
  roughnessFactor : float
}.

Inductive GltfNode := Build_GltfNode {
  name : string;
  type : string;
  children : list GltfNode;
  geometries : list GeometryData
}.

(** [std::make_shared<GltfNode>()] followed by the two assignments. *)
Definition GltfNode_new (n t : string) : GltfNode :=
  {| name := n; type := t; children := []; geometries := [] |}.

(** [std::min] and [std::max] on [float]. *)
Definition std_min (a b : float) : float := if float_lt b a then b else a.
Definition std_max (a b : float) : float := if float_lt a b then b else a.

(** The loop of [CalculateBounds] from [i = 3] on, three coordinates at a
    time. *)
Fixpoint CalculateBounds_loop (vs : list float)
    (mn mx : float * float * float) {struct vs}
  : (float * float * float) * (float * float * float) :=
  match vs with
  | v0 :: v1 :: v2 :: rest =>
      let '(mn0, mn1, mn2) := mn in
      let '(mx0, mx1, mx2) := mx in
      CalculateBounds_loop rest
        (std_min mn0 v0, std_min mn1 v1, std_min mn2 v2)
        (std_max mx0 v0, std_max mx1 v1, std_max mx2 v2)
  | _ => (mn, mx)
  end.

(** [GeometryData::CalculateBounds].  The source reads [vertices[i + j]]
    without a bound check; on a vector whose size is not a multiple of
    three that read is outside the vector, and the model stops there. *)
Definition CalculateBounds (g : GeometryData) : GeometryData :=
  match vertices g with
  | v0 :: v1 :: v2 :: rest =>
      let '(mn, mx) := CalculateBounds_loop rest (v0, v1, v2) (v0, v1, v2) in
      {| vertices := vertices g; normals := normals g;
         texCoords := texCoords g; indices := indices g;
         materialId := materialId g; minBounds := mn; maxBounds := mx |}
  | _ => g
  end.

(** [ApplyScale] *)
Definition ApplyScale (geomData : GeometryData) (scale : float)
  : GeometryData :=
  if negb (float_eq scale lit_1_0f) then
    {| vertices := (fun v => float_mul v scale) <$> vertices geomData;
       normals := normals geomData; texCoords := texCoords geomData;
       indices := indices geomData; materialId := materialId geomData;
       minBounds := minBounds geomData; maxBounds := maxBounds geomData |}
  else geomData.

(** The body of the triangulation loop of [ExtractMeshSet]: one triangle
    appended to the four vectors.  The two inner [j] loops are unrolled. *)
Definition push_triangle (localTransform : Matrix) (normal : vector3)
    (v0 v1 v2 : vector3) (geomData : GeometryData) : GeometryData :=
  let p0 := transform localTransform v0 in
  let p1 := transform localTransform v1 in
  let p2 := transform localTransform v2 in
  let baseIndex := u32 (vsize (vertices geomData) / 3) in
  let n := [static_cast_float (x normal); static_cast_float (y normal);
            static_cast_float (z normal)] in
  let uv := [lit_0_0f; lit_0_0f] in
  {| vertices := vertices geomData ++
       [static_cast_float (x p0); static_cast_float (y p0);
        static_cast_float (z p0);
        static_cast_float (x p1); static_cast_float (y p1);
        static_cast_float (z p1);
        static_cast_float (x p2); static_cast_float (y p2);
        static_cast_float (z p2)];
     normals := normals geomData ++ n ++ n ++ n;
     texCoords := texCoords geomData ++ uv ++ uv ++ uv;
     indices := indices geomData ++
       [baseIndex; u32 (baseIndex + 1); u32 (baseIndex + 2)];
     materialId := materialId geomData;
     minBounds := minBounds geomData; maxBounds := maxBounds geomData |}.

(** The loop [for (size_t i = 1; i < faceVertices.size() - 1; ++i)]. *)
Definition triangulate (localTransform : Matrix) (face : Face)
    (geomData : GeometryData) : GeometryData :=
  let faceVertices := loop face in
  foldl (fun g i =>
           match faceVertices !! 0%nat, faceVertices !! i,
                 faceVertices !! S i with
           | Some v0, Some v1, Some v2 =>
               push_triangle localTransform (plane_N face) v0 v1 v2 g
           | _, _, _ => g
           end)
        geomData
        (seq 1 (Z.to_nat (usize (vsize faceVertices - 1)) - 1)).

Definition ExtractFace (localTransform : Matrix) (face : option Face)
    (geomData : GeometryData) : GeometryData :=
  match face with
  | None => geomData
  | Some f =>
      if bool_decide (n_edges f < 3) then geomData
      else triangulate localTransform f geomData
  end.

(** [ExtractMeshSet] *)
Definition ExtractMeshSet (meshset : option MeshSet)
    (localTransform : Matrix) (geomData : GeometryData) : GeometryData :=
  match meshset with
  | None => geomData
  | Some ms =>
      foldl (fun g mesh =>
               match mesh with
               | None => g
               | Some m =>
                   foldl (fun g face => ExtractFace localTransform face g)
                         g (faces m)
               end)
            geomData (meshes ms)
  end.

(** [CreateDefaultMaterial] *)
Definition CreateDefaultMaterial (m_materials : gmap string MaterialData)
  : gmap string MaterialData :=
  let defaultMaterial :=
    {| material_name := "Default";
       baseColorFactor := (lit_0_8f, lit_0_8f, lit_0_8f, lit_1_0f);
       metallicFactor := lit_0_0f; roughnessFactor := lit_0_9f |} in
  <["default" := defaultMaterial]> m_materials.

(** The loop of [ExtractMaterialFromItem] over the item's appearances: it
    returns from the function at the first appearance that is present and
    has at least four colour components. *)
Fixpoint first_appearance (appearances : list (option AppearanceData))
    (m_materials : gmap string MaterialData)
  : option (string * gmap string MaterialData) :=
  match appearances with
  | [] => None
  | appearance :: rest =>
      match appearance with
      | Some a =>
          match m_color_rgba a with
          | c0 :: c1 :: c2 :: c3 :: _ =>
              let material :=
                {| material_name :=
                     "Material_" +:+
                       pretty (Z.of_nat (stdpp.base.size m_materials) + 1);
                   baseColorFactor :=
                     (static_cast_float c0, static_cast_float c1,
                      static_cast_float c2, static_cast_float c3);
                   metallicFactor := lit_0_0f;
                   roughnessFactor := lit_0_9f |} in
              let materialId := material_name material in
              Some (materialId, <[materialId := material]> m_materials)
          | _ => first_appearance rest m_materials
          end
      | None => first_appearance rest m_materials
      end
  end.

(** [ExtractMaterialFromItem]: the material id and the registry after the
    call. *)
Definition ExtractMaterialFromItem (item : ItemShapeData)
    (m_materials : gmap string MaterialData)
  : string * gmap string MaterialData :=
  match first_appearance (m_vec_item_appearances item) m_materials with
  | Some r => r
  | None =>
      ("default",
       match m_materials !! "default" with
       | None => CreateDefaultMaterial m_materials
       | Some _ => m_materials
       end)
  end.

(** What the extraction functions change: the node under construction and
    the converter's material registry. *)
Record Extraction := {
  node : GltfNode;
  m_materials : gmap string MaterialData
}.

Definition push_geometry (n : GltfNode) (g : GeometryData) : GltfNode :=
  {| name := name n; type := type n; children := children n;
     geometries := geometries n ++ [g] |}.

(** [ExtractGeometricItems]; [scale] is [m_args.scale]. *)
Fixpoint ExtractGeometricItems (scale : float)
    (geometricItem : ItemShapeData) (localTransform : Matrix)
    (st : Extraction) {struct geometricItem} : Extraction :=
  let '(id, materials) :=
    ExtractMaterialFromItem geometricItem (m_materials st) in
  let geomData :=
    {| vertices := []; normals := []; texCoords := []; indices := [];
       materialId := id;
       minBounds := minBounds GeometryData_new;
       maxBounds := maxBounds GeometryData_new |} in
  let geomData :=
    foldl (fun g meshset => ExtractMeshSet meshset localTransform g)
          geomData (m_meshsets geometricItem) in
  let geomData :=
    foldl (fun g meshset => ExtractMeshSet meshset localTransform g)
          geomData (m_meshsets_open geometricItem) in
  let n :=
    if empty (vertices geomData) then node st
    else push_geometry (node st)
           (CalculateBounds (ApplyScale geomData scale)) in
  foldl (fun st childItem =>
           ExtractGeometricItems scale childItem localTransform st)
        {| node := n; m_materials := materials |}
        (m_child_items geometricItem).

(** [ExtractShapeData] *)
Fixpoint ExtractShapeData (scale : float) (shapeData : ProductShapeData)
    (st : Extraction) {struct shapeData} : Extraction :=
  let localTransform := getTransform shapeData in
  let st :=
    foldl (fun st geometricItem =>
             ExtractGeometricItems scale geometricItem localTransform st)
          st (getGeometricItems shapeData) in
  foldl (fun st child_object => ExtractShapeData scale child_object st)
        st (getChildElements shapeData).

(** [GetEntityName] *)
Definition GetEntityName (entity : option IfcObjectDefinition) : string :=
  match entity with
  | None => "Unknown"
  | Some e =>
      match as_IfcRoot e with
      | None => "Unnamed"
      | Some root =>
          match m_Name root, m_GlobalId root with
          | Some (String c s), _ => String c s
          | _, Some (String c s) => String c s
          | _, _ => "Unnamed"
          end
      end
  end.

(** [GetEntityType] *)
Definition GetEntityType (entity : option IfcObjectDefinition) : string :=
  match entity with
  | None => "Unknown"
  | Some e =>
      let typeName := typeid_name e in
      match String.index 0 "Ifc" typeName with
      | Some pos =>
          String.substring pos (String.length typeName - pos) typeName
      | None => "IfcProduct"
      end
  end.

(** The converter: [m_rootNode] and [m_materials]; the constructor names
    the root node. *)
Record Converter := {
  m_rootNode : GltfNode;
  registry : gmap string MaterialData
}.

Definition Converter_new : Converter :=
  {| m_rootNode := GltfNode_new "Scene" "Scene"; registry := ∅ |}.

(** The body of the loop of [ExtractGeometryData] for one map entry. *)
Definition ExtractEntity (scale : float)
    (entry : string * option ProductShapeData) (c : Converter)
  : Converter :=
  match entry.2 with
  | None => c
  | Some shapeData =>
      match m_ifc_object_definition shapeData with
      | None => c
      | Some ifcObject =>
          let n :=
            GltfNode_new (GetEntityName (Some ifcObject))
                         (GetEntityType (Some ifcObject)) in
          let st :=
            ExtractShapeData scale shapeData
              {| node := n; m_materials := registry c |} in
          let root := m_rootNode c in
          {| m_rootNode :=
               if empty (geometries (node st)) then root
               else {| name := name root; type := type root;
                       children := children root ++ [node st];
                       geometries := geometries root |};
             registry := m_materials st |}
      end
  end.

(** [ExtractGeometryData] on the entries of [getShapeInputData()], in the
    order the map iterates over them. *)
Definition ExtractGeometryData (scale : float)
    (map_entities : list (string * option ProductShapeData))
    (c : Converter) : Converter :=
  foldl (fun c entry => ExtractEntity scale entry c) c map_entities.

(** *** Text output *)

(** The newline and the quote character of the source's literals. *)
Definition nl : string := String (Ascii.ascii_of_byte x0a) EmptyString.
Definition dq : string := String (Ascii.ascii_of_byte x22) EmptyString.

(** [stream << a << b << ...] *)
Definition cat (parts : list string) : string :=
  foldr String.append EmptyString parts.

(** A string streamed between two quote characters: the characters of [s]
    go out as they are. *)
Definition key (s : string) : string := cat [dq; s; dq].

(** [stream << n] for a [size_t]. *)
Definition stream_size_t (n : Z) : string := pretty n.

(** The [if (!first) stream << sep] and [if (i > 0) stream << sep] idiom:
    [sep] between consecutive items. *)
Definition separated (sep : string) (items : list string) : string :=
  String.concat sep items.

(** The same idiom as the loop the source writes, with its [first] flag:
    [separated_first_flag] below shows that it streams the same text. *)
Definition first_flag_loop (sep : string) (items : list string) : string :=
  (foldl (fun st item =>
            (false,
             st.2 +:+ (if st.1 : bool then EmptyString else sep) +:+ item))
         (true, EmptyString) items).2.

(** The geometry records in the order of the nested loops
    [for (auto node : m_rootNode->children) for (auto& geom :
    node->geometries)]. *)
Definition scene_geometries (root : GltfNode) : list GeometryData :=
  mjoin (geometries <$> children root).

(** [WriteNodes] and [WriteNodesForGlb] (the same text). *)
Definition WriteNodes (root : GltfNode) : string :=
  cat [
    "  "; key "nodes"; ": ["; nl;
    separated ("," +:+ nl)
      (imap (fun i node =>
               cat [
                 "    {"; nl;
                 "      "; key "name"; ": "; key (name node);
                 (if empty (geometries node) then EmptyString
                  else cat [","; nl; "      "; key "mesh"; ": ";
                            stream_size_t (Z.of_nat i)]);
                 nl; "    }" ])
            (children root));
    nl; "  ],"; nl ].

(** One entry of [primitives]. *)
Definition stream_primitive (accessorIndex : Z) : string :=
  cat [
    "        {"; nl;
    "          "; key "attributes"; ": {"; nl;
    "            "; key "POSITION"; ": ";
      stream_size_t (usize (accessorIndex * 3)); ","; nl;
    "            "; key "NORMAL"; ": ";
      stream_size_t (usize (accessorIndex * 3 + 1)); nl;
    "          },"; nl;
    "          "; key "indices"; ": ";
      stream_size_t (usize (accessorIndex * 3 + 2)); ","; nl;
    "          "; key "material"; ": 0"; nl;
    "        }" ].

(** The node loop of [WriteMeshes]: one text per node that has geometry;
    [accessorIndex] advances by one per geometry record. *)
Fixpoint WriteMeshes_loop (accessorIndex : Z) (nodes : list GltfNode)
  : list string :=
  match nodes with
  | [] => []
  | node :: rest =>
      if empty (geometries node) then WriteMeshes_loop accessorIndex rest
      else
        let n := vsize (geometries node) in
        cat [
          "    {"; nl;
          "      "; key "name"; ": "; key (name node +:+ "_Mesh"); ","; nl;
          "      "; key "primitives"; ": ["; nl;
          separated ("," +:+ nl)
            ((fun i => stream_primitive (usize (accessorIndex + i)))
               <$> seqZ 0 n);
          nl; "      ]"; nl;
          "    }" ]
        :: WriteMeshes_loop (usize (accessorIndex + n)) rest
  end.

(** [WriteMeshes] and [WriteMeshesForGlb] (the same text). *)
Definition WriteMeshes (root : GltfNode) : string :=
  cat [
    "  "; key "meshes"; ": ["; nl;
    separated ("," +:+ nl) (WriteMeshes_loop 0 (children root));
    nl; "  ],"; nl ].

(** One object of the [accessors] array. *)
Record Accessor := {
  bufferView : Z;
  componentType : Z;
  count : Z;
  accessor_type : string;
  min_max : option ((float * float * float) * (float * float * float))
}.

(** The three accessors written for one geometry record. *)
Definition geometry_accessors (bufferViewIndex : Z) (geom : GeometryData)
  : list Accessor :=
  let vertexCount := vsize (vertices geom) / 3 in
  [ {| bufferView := bufferViewIndex; componentType := 5126;
       count := vertexCount; accessor_type := "VEC3";
       min_max := Some (minBounds geom, maxBounds geom) |};
    {| bufferView := usize (bufferViewIndex + 1); componentType := 5126;
       count := vertexCount; accessor_type := "VEC3";
       min_max := None |};
    {| bufferView := usize (bufferViewIndex + 2); componentType := 5125;
       count := vsize (indices geom); accessor_type := "SCALAR";
       min_max := None |} ].

(** The loop of [WriteAccessors] with its running [bufferViewIndex]. *)
Fixpoint accessors_loop (bufferViewIndex : Z) (geoms : list GeometryData)
  : list Accessor :=
  match geoms with
  | [] => []
  | geom :: rest =>
      geometry_accessors bufferViewIndex geom
        ++ accessors_loop (usize (bufferViewIndex + 3)) rest
  end.

(** The objects of the emitted [accessors] array, in order. *)
Definition accessors (root : GltfNode) : list Accessor :=
  accessors_loop 0 (scene_geometries root).

Definition stream_vec3 (v : float * float * float) : string :=
  cat ["["; stream_float v.1.1; ", "; stream_float v.1.2; ", ";
       stream_float v.2; "]"].

Definition stream_accessor (a : Accessor) : string :=
  cat [
    "    {"; nl;
    "      "; key "bufferView"; ": "; stream_size_t (bufferView a); ","; nl;
    "      "; key "componentType"; ": "; stream_size_t (componentType a);
      ","; nl;
    "      "; key "count"; ": "; stream_size_t (count a); ","; nl;
    "      "; key "type"; ": "; key (accessor_type a);
    match min_max a with
    | Some (mn, mx) =>
        cat [","; nl;
             "      "; key "min"; ": "; stream_vec3 mn; ","; nl;
             "      "; key "max"; ": "; stream_vec3 mx; nl]
    | None => nl
    end;
    "    }" ].

(** [WriteAccessors] and [WriteAccessorsForGlb] (the same text). *)
Definition WriteAccessors (root : GltfNode) : string :=
  cat [
    "  "; key "accessors"; ": ["; nl;
    separated ("," +:+ nl) (stream_accessor <$> accessors root);
    nl; "  ],"; nl ].

(** One object of the [bufferViews] array. *)
Record BufferView := {
  buffer : Z;
  byteOffset : Z;
  byteLength : Z;
  target : Z
}.

(** [sizeof(float)] and [sizeof(uint32_t)] *)
Definition sizeof_float : Z := 4.
Definition sizeof_uint32_t : Z := 4.

(** The three buffer views written for one geometry record. *)
Definition geometry_bufferViews (byteOffset0 : Z) (geom : GeometryData)
  : list BufferView :=
  let vertexBytes := usize (vsize (vertices geom) * sizeof_float) in
  let normalBytes := usize (vsize (normals geom) * sizeof_float) in
  let indexBytes := usize (vsize (indices geom) * sizeof_uint32_t) in
  let byteOffset1 := usize (byteOffset0 + vertexBytes) in
  let byteOffset2 := usize (byteOffset1 + normalBytes) in
  [ {| buffer := 0; byteOffset := byteOffset0; byteLength := vertexBytes;
       target := 34962 |};
    {| buffer := 0; byteOffset := byteOffset1; byteLength := normalBytes;
       target := 34962 |};
    {| buffer := 0; byteOffset := byteOffset2; byteLength := indexBytes;
       target := 34963 |} ].

(** [byteOffset] after the three [+=] of one iteration. *)
Definition next_byteOffset (byteOffset0 : Z) (geom : GeometryData) : Z :=
  let vertexBytes := usize (vsize (vertices geom) * sizeof_float) in
  let normalBytes := usize (vsize (normals geom) * sizeof_float) in
  let indexBytes := usize (vsize (indices geom) * sizeof_uint32_t) in
  usize (usize (usize (byteOffset0 + vertexBytes) + normalBytes)
         + indexBytes).

(** The loop of [WriteBufferViews] with its running [byteOffset]. *)
Fixpoint bufferViews_loop (byteOffset0 : Z) (geoms : list GeometryData)
  : list BufferView :=
  match geoms with
  | [] => []
  | geom :: rest =>
      geometry_bufferViews byteOffset0 geom
        ++ bufferViews_loop (next_byteOffset byteOffset0 geom) rest
  end.

(** The objects of the emitted [bufferViews] array, in order. *)
Definition bufferViews (root : GltfNode) : list BufferView :=
  bufferViews_loop 0 (scene_geometries root).

Definition stream_bufferView (v : BufferView) : string :=
  cat [
    "    {"; nl;
    "      "; key "buffer"; ": "; stream_size_t (buffer v); ","; nl;
    "      "; key "byteOffset"; ": "; stream_size_t (byteOffset v); ","; nl;
    "      "; key "byteLength"; ": "; stream_size_t (byteLength v); ","; nl;
    "      "; key "target"; ": "; stream_size_t (target v); nl;
    "    }" ].

(** [WriteBufferViews] and [WriteBufferViewsForGlb] (the same text). *)
Definition WriteBufferViews (root : GltfNode) : string :=
  cat [
    "  "; key "bufferViews"; ": ["; nl;
    separated ("," +:+ nl) (stream_bufferView <$> bufferViews root);
    nl; "  ],"; nl ].

(** The [totalBytes] loop of [WriteBuffers] and [WriteBuffersForGlb]. *)
Definition totalBytes (root : GltfNode) : Z :=
  foldl (fun total geom => next_byteOffset total geom) 0
        (scene_geometries root).

(** [s.find_last_of(c)]: the index of the last [c] in [s], or [npos]. *)
Fixpoint find_last_of_from (i : Z) (s : string) (c : Ascii.ascii) (found : Z)
  : Z :=
  match s with
  | EmptyString => found
  | String a rest =>
      find_last_of_from (i + 1) rest c (if Ascii.eqb a c then i else found)
  end.

Definition find_last_of (s : string) (c : Ascii.ascii) : Z :=
  find_last_of_from 0 s c npos.

Fixpoint string_drop (n : nat) (s : string) : string :=
  match n, s with
  | S n', String _ rest => string_drop n' rest
  | _, _ => s
  end.

Fixpoint string_take (n : nat) (s : string) : string :=
  match n, s with
  | S n', String a rest => String a (string_take n' rest)
  | _, _ => EmptyString
  end.

(** [s.substr(pos, count)]: the characters from [pos] on, at most [count]
    of them.  For [pos > s.size()] the source throws [std::out_of_range];
    both call sites below pass a position that is at most the size, and
    the model returns the empty string there. *)
Definition substr (s : string) (pos count : Z) : string :=
  let len := Z.of_nat (String.length s) in
  if bool_decide (len < pos) then EmptyString
  else string_take (Z.to_nat (Z.min count (len - pos)))
                   (string_drop (Z.to_nat pos) s).

(** The [uri] that [WriteBuffers] writes. *)
Definition buffer_uri (outputFile : string) : string :=
  let binFileName :=
    substr outputFile 0 (find_last_of outputFile "."%char) +:+ ".bin" in
  let binFileNameOnly :=
    substr binFileName (usize (find_last_of binFileName "/"%char + 1)) npos in
  if bool_decide (binFileNameOnly = binFileName) then
    substr binFileName (usize (find_last_of binFileName "\"%char + 1)) npos
  else binFileNameOnly.

(** [WriteBuffers] *)
Definition WriteBuffers (args : CommandLineArgs) (root : GltfNode)
  : string :=
  cat [
    "  "; key "buffers"; ": ["; nl;
    "    {"; nl;
    "      "; key "uri"; ": "; key (buffer_uri (outputFile args)); ","; nl;
    "      "; key "byteLength"; ": "; stream_size_t (totalBytes root); nl;
    "    }"; nl;
    "  ],"; nl ].

(** [WriteBuffersForGlb] *)
Definition WriteBuffersForGlb (root : GltfNode) : string :=
  cat [
    "  "; key "buffers"; ": ["; nl;
    "    {"; nl;
    "      "; key "byteLength"; ": "; stream_size_t (totalBytes root); nl;
    "    }"; nl;
    "  ],"; nl ].

(** [WriteMaterials] and [WriteMaterialsForGlb] (the same text). *)
Definition WriteMaterials : string :=
  cat [
    "  "; key "materials"; ": ["; nl;
    "    {"; nl;
    "      "; key "name"; ": "; key "Default"; ","; nl;
    "      "; key "pbrMetallicRoughness"; ": {"; nl;
    "        "; key "baseColorFactor"; ": [0.8, 0.8, 0.8, 1.0],"; nl;
    "        "; key "metallicFactor"; ": 0.0,"; nl;
    "        "; key "roughnessFactor"; ": 0.9"; nl;
    "      }"; nl;
    "    }"; nl;
    "  ]"; nl ].

(** The part of the document that both JSON writers start with, up to the
    [nodes] array; [generator] is the only text they differ in. *)
Definition stream_preamble (generator : string) (root : GltfNode)
  : string :=
  cat [
    "{"; nl;
    "  "; key "asset"; ": {"; nl;
    "    "; key "version"; ": "; key "2.0"; ","; nl;
    "    "; key "generator"; ": "; key generator; nl;
    "  },"; nl;
    "  "; key "scene"; ": 0,"; nl;
    "  "; key "scenes"; ": ["; nl;
    "    {"; nl;
    "      "; key "name"; ": "; key (name root); ","; nl;
    "      "; key "nodes"; ": [";
      separated ", " (stream_size_t <$> seqZ 0 (vsize (children root)));
      "]"; nl;
    "    }"; nl;
    "  ],"; nl ].

(** [WriteGltfJson] *)
Definition WriteGltfJson (args : CommandLineArgs) (root : GltfNode)
  : string :=
  cat [
    stream_preamble "Simple IFC2GLTF Converter v1.0 (Fixed)" root;
    WriteNodes root;
    WriteMeshes root;
    WriteAccessors root;
    WriteBufferViews root;
    WriteBuffers args root;
    WriteMaterials;
    "}"; nl ].

(** [WriteGltfJsonForGlb] *)
Definition WriteGltfJsonForGlb (root : GltfNode) : string :=
  cat [
    stream_preamble "Simple IFC2GLTF Converter v1.0 (GLB)" root;
    WriteNodes root;
    WriteMeshes root;
    WriteAccessors root;
    WriteBufferViews root;
    WriteBuffersForGlb root;
    WriteMaterials;
    "}" ].

(** *** Binary output *)

(** The bytes of one geometry record: its vertex array, its normal array
    and its index array as they lie in memory. *)
Definition geometry_bytes (geom : GeometryData) : list byte :=
  mjoin (float_bytes <$> vertices geom)
    ++ mjoin (float_bytes <$> normals geom)
    ++ mjoin (le32 <$> indices geom).

(** [CollectBinaryData] *)
Definition CollectBinaryData (root : GltfNode) : list byte :=
  mjoin (geometry_bytes <$> scene_geometries root).

(** *** Files *)

(** Which paths an [std::ofstream] can be opened on. *)
Record FileSystem := { can_open : string -> bool }.

(** A file written: its path and the characters or bytes streamed into
    it (for the text-mode [.gltf] stream, before any translation of line
    ends by the platform). *)
Definition File : Type := string * list byte.

(** [WriteBinaryData]: the sidecar file, if it could be opened. *)
Definition WriteBinaryData (fs : FileSystem) (args : CommandLineArgs)
    (root : GltfNode) : list File :=
  let binFile :=
    substr (outputFile args) 0 (find_last_of (outputFile args) "."%char)
      +:+ ".bin" in
  if negb (can_open fs binFile) then []
  else [(binFile, mjoin (geometry_bytes <$> scene_geometries root))].

(** [WriteGltfFile]: the result and the files written. *)
Definition WriteGltfFile (fs : FileSystem) (args : CommandLineArgs)
    (root : GltfNode) : bool * list File :=
  if negb (can_open fs (outputFile args)) then (false, [])
  else
    (true,
     (outputFile args, bytes_of_string (WriteGltfJson args root))
       :: WriteBinaryData fs args root).

(** [WriteGlbFile] *)
Definition WriteGlbFile (fs : FileSystem) (args : CommandLineArgs)
    (root : GltfNode) : bool * list File :=
  if negb (can_open fs (outputFile args)) then (false, [])
  else
    let jsonString := WriteGltfJsonForGlb root in
    let binaryData := CollectBinaryData root in
    (true,
     [(outputFile args,
       Glb.WriteGlbHeader jsonString binaryData
         ++ Glb.WriteGlbJsonChunk jsonString
         ++ (if empty binaryData then []
             else Glb.WriteGlbBinaryChunk binaryData))]).

(** [WriteOutputFile] *)
Definition WriteOutputFile (fs : FileSystem) (args : CommandLineArgs)
    (root : GltfNode) : bool * list File :=
  if outputGlb args then WriteGlbFile fs args root
  else WriteGltfFile fs args root.

(** What the two collaborators deliver for an input path: whether
    [LoadIFCFile] succeeds, and the shape data [ConvertGeometry] leaves
    behind ([None] when it fails). *)
Record Collaborators := {
  LoadIFCFile : string -> bool;
  ConvertGeometry : string -> option (list (string * option ProductShapeData))
}.

(** [Convert] *)
Definition Convert (fs : FileSystem) (ifc : Collaborators)
    (args : CommandLineArgs) : bool * list File :=
  if negb (LoadIFCFile ifc (inputFile args)) then (false, [])
  else
    match ConvertGeometry ifc (inputFile args) with
    | None => (false, [])
    | Some map_entities =>
        let c := ExtractGeometryData (scale args) map_entities Converter_new in
        WriteOutputFile fs args (m_rootNode c)
    end.

(** [ValidateArgs] *)
Definition ValidateArgs (args : CommandLineArgs) : bool :=
  if String.eqb (inputFile args) EmptyString then false
  else if String.eqb (outputFile args) EmptyString then false
  else if float_le (scale args) lit_0_0f then false
  else if bool_decide (logLevel args < 0 ∨ logLevel args > 2) then false
  else true.

(** [main] after [ParseCommandLine]: the exit status and the files
    written. *)
Definition main (fs : FileSystem) (ifc : Collaborators)
    (parsed : CommandLineArgs) : Z * list File :=
  let args :=
    if String.eqb (inputFile parsed) EmptyString then
      {| inputFile := "example.ifc"; outputFile := "output_fixed.gltf";
         scale := lit_1_0f; logLevel := 2;
         outputGlb := outputGlb parsed |}
    else parsed in
  if negb (ValidateArgs args) then (1, [])
  else
    let '(success, files) := Convert fs ifc args in
    (if success then 0 else 1, files).

End Model.

(** ** Vocabulary of the properties *)

Section Vocabulary.
Context `{Numerics}.

(** The record [ExtractGeometricItems] fills for one item before it looks
    at the record's size: the closed mesh sets, then the open ones. *)
Definition raw_geometry (id : string) (localTransform : Matrix)
    (item : ItemShapeData) : GeometryData :=
  foldl (fun g meshset => ExtractMeshSet meshset localTransform g)
    (foldl (fun g meshset => ExtractMeshSet meshset localTransform g)
       {| vertices := []; normals := []; texCoords := []; indices := [];
          materialId := id;
          minBounds := minBounds GeometryData_new;
          maxBounds := maxBounds GeometryData_new |}
       (m_meshsets item))
    (m_meshsets_open item).

(** What [ExtractGeometricItems] does for the item itself, before the loop
    over its child items. *)
Definition ExtractOwnGeometry (scale : float) (item : ItemShapeData)
    (localTransform : Matrix) (st : Extraction) : Extraction :=
  let '(id, materials) := ExtractMaterialFromItem item (m_materials st) in
  let geomData := raw_geometry id localTransform item in
  {| node :=
       if empty (vertices geomData) then node st
       else push_geometry (node st)
              (CalculateBounds (ApplyScale geomData scale));
     m_materials := materials |}.

(** An item followed by its nested child items, in the order
    [ExtractGeometricItems] visits them. *)
Fixpoint items_preorder (item : ItemShapeData) : list ItemShapeData :=
  item :: (m_child_items item ≫= items_preorder).

(** The items of a shape-data object and of its descendants, each with the
    transform of the shape-data object that owns it, in the order
    [ExtractShapeData] visits them. *)
Fixpoint placed_items (shapeData : ProductShapeData)
  : list (Matrix * ItemShapeData) :=
  ((fun item => (getTransform shapeData, item))
     <$> (getGeometricItems shapeData ≫= items_preorder))
    ++ (getChildElements shapeData ≫= placed_items).

(** The same items, all with one given transform. *)
Definition items_under (localTransform : Matrix)
    (shapeData : ProductShapeData) : list (Matrix * ItemShapeData) :=
  (fun p => (localTransform, p.2)) <$> placed_items shapeData.

Definition extract_placed (scale : float) (st : Extraction)
    (items : list (Matrix * ItemShapeData)) : Extraction :=
  foldl (fun st p => ExtractOwnGeometry scale p.2 p.1 st) st items.

(** The fan of a vertex loop: the triangles [(v0, vi, vi+1)]. *)
Definition fan {A} (vs : list A) : list (A * A * A) :=
  match vs with
  | v0 :: rest => (fun p => (v0, p.1, p.2)) <$> zip rest (tail rest)
  | [] => []
  end.

Definition coordinates (p : vector3) : list float :=
  [static_cast_float (x p); static_cast_float (y p);
   static_cast_float (z p)].

(** The nine coordinates of a triangle after the transform. *)
Definition triangle_coordinates (localTransform : Matrix)
    (t : vector3 * vector3 * vector3) : list float :=
  coordinates (transform localTransform t.1.1)
    ++ coordinates (transform localTransform t.1.2)
    ++ coordinates (transform localTransform t.2).

(** The three indices of the triangle whose first corner is vertex number
    [first], as [uint32_t] values. *)
Definition triangle_indices (first : Z) : list Z :=
  [u32 first; u32 (u32 first + 1); u32 (u32 first + 2)].

(** The indices of [n] consecutive triangles, the first of which starts
    at vertex number [first]. *)
Fixpoint fan_indices (first : Z) (n : nat) : list Z :=
  match n with
  | O => []
  | S n' => triangle_indices first ++ fan_indices (first + 3) n'
  end.

(** One [push_triangle] per triangle of a list. *)
Definition push_triangles (localTransform : Matrix) (normal : vector3)
    (ts : list (vector3 * vector3 * vector3)) (g : GeometryData)
  : GeometryData :=
  foldl (fun g t => push_triangle localTransform normal t.1.1 t.1.2 t.2 g)
        g ts.

(** The invariant of a geometry record. *)
Definition well_formed (g : GeometryData) : Prop :=
  vsize (indices g) mod 3 = 0
  ∧ Forall (fun i => 0 <= i < vsize (vertices g) / 3) (indices g)
  ∧ vsize (vertices g) = vsize (normals g).

(** A record that holds whole triangles. *)
Definition whole (g : GeometryData) : Prop :=
  vsize (vertices g) mod 9 = 0
  ∧ 2 * vsize (vertices g) = 3 * vsize (texCoords g).

(** A record that holds whole triangles, and at least one. *)
Definition triangles (g : GeometryData) : Prop :=
  0 < vsize (vertices g) ∧ vsize (vertices g) mod 9 = 0
  ∧ 2 * vsize (vertices g) = 3 * vsize (texCoords g).

(** What [ExtractGeometricItems] does to a filled record before it pushes
    it to the node. *)
Definition finish (scale : float) (raw : GeometryData) : GeometryData :=
  CalculateBounds (ApplyScale raw scale).

(** Two records that come from the same item, one finished with scale
    [s1] and one with scale [s2]. *)
Definition same_item (s1 s2 : float) (g1 g2 : GeometryData) : Prop :=
  exists id localTransform item,
    empty (vertices (raw_geometry id localTransform item)) = false
    ∧ g1 = finish s1 (raw_geometry id localTransform item)
    ∧ g2 = finish s2 (raw_geometry id localTransform item).

(** Two nodes with the same name whose records come from the same items,
    in the same order. *)
Definition same_node (s1 s2 : float) (n1 n2 : GltfNode) : Prop :=
  name n1 = name n2 ∧ type n1 = type n2 ∧ children n1 = children n2
  ∧ Forall2 (same_item s1 s2) (geometries n1) (geometries n2).

Definition same_state (s1 s2 : float) (st1 st2 : Extraction) : Prop :=
  m_materials st1 = m_materials st2
  ∧ same_node s1 s2 (node st1) (node st2).

Definition same_scene (s1 s2 : float) (root1 root2 : GltfNode) : Prop :=
  name root1 = name root2
  ∧ geometries root1 = [] ∧ geometries root2 = []
  ∧ Forall2 (same_node s1 s2) (children root1) (children root2)
  ∧ Forall (fun n => empty (geometries n) = false) (children root1).

(** The scene a conversion writes out. *)
Definition extracted_scene (scale : float)
    (map_entities : list (string * option ProductShapeData)) : GltfNode :=
  m_rootNode (ExtractGeometryData scale map_entities Converter_new).

(** The geometry records of the scene that are not empty. *)
Definition non_empty_records (root : GltfNode) : list GeometryData :=
  List.filter (fun g => negb (empty (vertices g))) (scene_geometries root).

(** What an accessor says about the data: component type, count and
    element type. *)
Definition accessor_layout (a : Accessor) : Z * Z * string :=
  (componentType a, count a, accessor_type a).

(** The position, normal and index layout of one geometry record. *)
Definition geometry_layout (g : GeometryData) : list (Z * Z * string) :=
  [ (5126, vsize (vertices g) / 3, "VEC3");
    (5126, vsize (vertices g) / 3, "VEC3");
    (5125, vsize (indices g), "SCALAR") ].

(** The size in bytes of a component and the number of components of an
    element, by the accessor's [componentType] and [type]. *)
Definition componentSize (componentType : Z) : Z :=
  if bool_decide (componentType = 5126) then sizeof_float
  else if bool_decide (componentType = 5125) then sizeof_uint32_t
  else 0.

Definition componentsPerElement (accessor_type : string) : Z :=
  if String.eqb accessor_type "VEC3" then 3
  else if String.eqb accessor_type "SCALAR" then 1
  else 0.

(** The byte length [v] declares is the one accessor [a] needs. *)
Definition paired (a : Accessor) (v : BufferView) : Prop :=
  byteLength v =
  count a * componentSize (componentType a)
    * componentsPerElement (accessor_type a).

(** [0, l0, l0 + l1, ...]: the sum of all preceding lengths. *)
Fixpoint running_sum (start : Z) (lengths : list Z) : list Z :=
  match lengths with
  | [] => []
  | l :: rest => start :: running_sum (start + l) rest
  end.

(** The number of bytes of the geometry of a scene. *)
Definition geometry_size (g : GeometryData) : Z :=
  4 * vsize (vertices g) + 4 * vsize (normals g) + 4 * vsize (indices g).

Definition scene_size (root : GltfNode) : Z :=
  foldr (fun g total => geometry_size g + total) 0 (scene_geometries root).

(** [n] rounded up to the next multiple of four. *)
Definition round_up4 (n : Z) : Z := 4 * ((n + 3) / 4).

(** The bytes [WriteGlbFile] streams into the output file. *)
Definition glb_bytes (root : GltfNode) : list byte :=
  let jsonString := WriteGltfJsonForGlb root in
  let binaryData := CollectBinaryData root in
  Glb.WriteGlbHeader jsonString binaryData
    ++ Glb.WriteGlbJsonChunk jsonString
    ++ (if empty binaryData then []
        else Glb.WriteGlbBinaryChunk binaryData).

(** The length the GLB header has to announce. *)
Definition glb_length (root : GltfNode) : Z :=
  let alignedJsonLength :=
    round_up4 (Z.of_nat (String.length (WriteGltfJsonForGlb root))) in
  let binaryData := CollectBinaryData root in
  12 + 8 + alignedJsonLength
    + (if empty binaryData then 0 else 8 + round_up4 (vsize binaryData)).

(** The third [uint32] of a file. *)
Definition third_uint32 (file : list byte) : Z :=
  read_le32 (take 4 (drop 8 file)).

(** [t] occurs in [s]. *)
Definition occurs_in (t s : string) : Prop :=
  exists before after, s = before +:+ t +:+ after.


(** The key [name] followed by a string between quotes. *)
Definition name_entry (s : string) : string :=
  cat [key "name"; ": "; key s].

(** The path of the sidecar file, as [WriteBinaryData] computes it. *)
Definition sidecar_path (outputFile : string) : string :=
  substr outputFile 0 (find_last_of outputFile "."%char) +:+ ".bin".

(** The arguments [main] works with. *)
Definition effective_args (parsed : CommandLineArgs) : CommandLineArgs :=
  if String.eqb (inputFile parsed) EmptyString then
    {| inputFile := "example.ifc"; outputFile := "output_fixed.gltf";
       scale := lit_1_0f; logLevel := 2;
       outputGlb := outputGlb parsed |}
  else parsed.



End Vocabulary.

(** ** The command line and the material index

    [ParseCommandLine], [main] on the arguments of the process, and
    [GetMaterialIndex]. *)

Section CommandLine.
Context `{Numerics}.

(** [std::stof] and [std::stoi] on an argument: the number, or [None]
    where they throw ([std::invalid_argument], [std::out_of_range]). *)
Record Parsers := {
  stof : string -> option float;
  stoi : string -> option Z
}.

(** How [ParseCommandLine] ends: it returns the arguments, it prints the
    usage text and calls [exit(0)], or an exception leaves it. *)
Inductive ParseResult :=
  | Parsed (args : CommandLineArgs)
  | Help
  | Throws.

(** A default-constructed [CommandLineArgs]. *)
Definition CommandLineArgs_new : CommandLineArgs :=
  {| inputFile := EmptyString; outputFile := EmptyString;
     scale := lit_1_0f; logLevel := 1; outputGlb := false |}.

(** The loop of [ParseCommandLine] on the arguments from [argv[i]] on.
    An option that takes a value consumes the next argument ([argv[++i]]);
    as the last argument it is passed over. *)
Fixpoint ParseCommandLine_loop (lib : Parsers) (rest : list string)
    (args : CommandLineArgs) {struct rest} : ParseResult :=
  match rest with
  | [] => Parsed args
  | arg :: rest =>
      if String.eqb arg "-i" || String.eqb arg "--input" then
        match rest with
        | value :: rest =>
            ParseCommandLine_loop lib rest
              {| inputFile := value; outputFile := outputFile args;
                 scale := scale args; logLevel := logLevel args;
                 outputGlb := outputGlb args |}
        | [] => Parsed args
        end
      else if String.eqb arg "-o" || String.eqb arg "--output" then
        match rest with
        | value :: rest =>
            ParseCommandLine_loop lib rest
              {| inputFile := inputFile args; outputFile := value;
                 scale := scale args; logLevel := logLevel args;
                 outputGlb := outputGlb args |}
        | [] => Parsed args
        end
      else if String.eqb arg "-s" || String.eqb arg "--scale" then
        match rest with
        | value :: rest =>
            match stof lib value with
            | Some s =>
                ParseCommandLine_loop lib rest
                  {| inputFile := inputFile args;
                     outputFile := outputFile args;
                     scale := s; logLevel := logLevel args;
                     outputGlb := outputGlb args |}
            | None => Throws
            end
        | [] => Parsed args
        end
      else if String.eqb arg "-l" || String.eqb arg "--log" then
        match rest with
        | value :: rest =>
            match stoi lib value with
            | Some l =>
                ParseCommandLine_loop lib rest
                  {| inputFile := inputFile args;
                     outputFile := outputFile args;
                     scale := scale args; logLevel := l;
                     outputGlb := outputGlb args |}
            | None => Throws
            end
        | [] => Parsed args
        end
      else if String.eqb arg "--glb" then
        ParseCommandLine_loop lib rest
          {| inputFile := inputFile args; outputFile := outputFile args;
             scale := scale args; logLevel := logLevel args;
             outputGlb := true |}
      else if String.eqb arg "-h" || String.eqb arg "--help" then Help
      else ParseCommandLine_loop lib rest args
  end.

(** [ParseCommandLine]: [argv[0]] is not looked at. *)
Definition ParseCommandLine (lib : Parsers) (argv : list string)
  : ParseResult :=
  ParseCommandLine_loop lib (tail argv) CommandLineArgs_new.

(** [main] on the command line: the exit status and the files written.
    An exception that leaves [ParseCommandLine] is caught in [main]. *)
Definition main_argv (lib : Parsers) (fs : FileSystem) (ifc : Collaborators)
    (argv : list string) : Z * list File :=
  match ParseCommandLine lib argv with
  | Parsed parsed => main fs ifc parsed
  | Help => (0, [])
  | Throws => (1, [])
  end.

(** The keys of [m_materials] in the order a [std::map] iterates over
    them: ascending by [operator<] on [std::string]. *)
Definition registry_keys (m : gmap string MaterialData) : list string :=
  merge_sort String.le (map_to_list m).*1.

(** The loop of [GetMaterialIndex] with its running [index]. *)
Fixpoint GetMaterialIndex_loop (index : Z) (keys : list string)
    (materialId : string) : Z :=
  match keys with
  | [] => 0
  | key :: rest =>
      if String.eqb key materialId then index
      else GetMaterialIndex_loop (index + 1) rest materialId
  end.

(** [GetMaterialIndex] *)
Definition GetMaterialIndex (m : gmap string MaterialData)
    (materialId : string) : Z :=
  GetMaterialIndex_loop 0 (registry_keys m) materialId.

End CommandLine.

(** ** What the program reports, and what reaches the files *)

Section Reporting.
Context `{Numerics}.












End Reporting.

(** ** Vocabulary of the further properties *)

Section Inventory.
Context `{Numerics}.

(** *** Materials *)

(** An appearance the loop of [ExtractMaterialFromItem] stops at. *)
Definition usable (appearance : option AppearanceData) : bool :=
  match appearance with
  | Some a => bool_decide (4 <= length (m_color_rgba a))%nat
  | None => false
  end.

(** The name [ExtractMaterialFromItem] gives to a new material when the
    registry has [n] entries. *)
Definition material_key (n : nat) : string :=
  "Material_" +:+ pretty (Z.of_nat n + 1).

(** Every key of the registry is [default] or the name given to a new
    material at an earlier, smaller size of the registry. *)
Definition numbered (m : gmap string MaterialData) : Prop :=
  forall key, is_Some (m !! key) ->
    key = "default"
    ∨ exists n, (n < stdpp.base.size m)%nat ∧ key = material_key n.

(** The material of record [g] is an entry of registry [m]. *)
Definition registered (m : gmap string MaterialData) (g : GeometryData)
  : Prop :=
  is_Some (m !! materialId g).

(** The registry and the scene of a converter fit together. *)
Definition registry_covers (c : Converter) : Prop :=
  numbered (registry c)
  ∧ Forall (fun n => Forall (registered (registry c)) (geometries n))
           (children (m_rootNode c)).

(** The items [ExtractGeometryData] visits, in order: those of the
    entries that have shape data and a live object definition. *)
Definition converted_items
    (map_entities : list (string * option ProductShapeData))
  : list ItemShapeData :=
  map_entities ≫= (fun entry =>
    match entry.2 with
    | Some shapeData =>
        match m_ifc_object_definition shapeData with
        | Some _ => (placed_items shapeData).*2
        | None => []
        end
    | None => []
    end).

(** The registry after [ExtractMaterialFromItem] has been called on each
    of [items] in turn, starting from the empty registry of a new
    converter. *)
Definition registry_of (items : list ItemShapeData)
  : gmap string MaterialData :=
  foldl (fun m item => (ExtractMaterialFromItem item m).2) ∅ items.

(** *** Geometry records *)

(** The index array of a record numbers its vertices one after the other:
    three coordinates and one index per vertex. *)
Definition sequential (g : GeometryData) : Prop :=
  vsize (vertices g) = 3 * vsize (indices g)
  ∧ indices g = u32 <$> seqZ 0 (vsize (indices g)).

(** The faces [ExtractMeshSet] visits, in order: null mesh sets, meshes and
    faces are passed over. *)
Definition faces_of_meshset (meshset : option MeshSet) : list Face :=
  match meshset with
  | None => []
  | Some ms =>
      meshes ms ≫= (fun mesh =>
        match mesh with
        | None => []
        | Some m => faces m ≫= option_list
        end)
  end.

(** The faces of an item: those of its closed mesh sets, then those of its
    open ones. *)
Definition faces_of_item (item : ItemShapeData) : list Face :=
  (m_meshsets item ++ m_meshsets_open item) ≫= faces_of_meshset.

(** The coordinates and the normals a face contributes: its fan, and its
    plane normal once per corner. *)
Definition face_coordinates (localTransform : Matrix) (f : Face)
  : list float :=
  mjoin (triangle_coordinates localTransform <$> fan (loop f)).

Definition face_normals (f : Face) : list float :=
  fan (loop f) ≫= (fun _ => coordinates (plane_N f) ++ coordinates (plane_N f)
                              ++ coordinates (plane_N f)).

(** *** The outline of a scene *)

(** The item gives a record: [ExtractGeometricItems] finds vertices in
    what it has filled from the item's mesh sets. *)
Definition yields_record (p : Matrix * ItemShapeData) : bool :=
  negb (empty (vertices (raw_geometry EmptyString p.1 p.2))).

(** The name and the type of a node and the number of its records. *)
Definition node_outline (n : GltfNode) : string * string * nat :=
  (name n, type n, length (geometries n)).

(** The node an entry of the shape-data map gives, if it gives one. *)
Definition entity_outline (entry : string * option ProductShapeData)
  : option (string * string * nat) :=
  match entry.2 with
  | Some shapeData =>
      match m_ifc_object_definition shapeData with
      | Some ifcObject =>
          match length (List.filter yields_record (placed_items shapeData))
          with
          | O => None
          | S k =>
              Some (GetEntityName (Some ifcObject),
                    GetEntityType (Some ifcObject), S k)
          end
      | None => None
      end
  | None => None
  end.

(** *** Bounding boxes *)

(** [<] is irreflexive and transitive on the coordinates in [vs], as it
    is on numbers. *)
Definition strict_order (vs : list float) : bool :=
  forallb (fun a =>
    negb (float_lt a a)
    && forallb (fun b => forallb (fun c =>
         implb (float_lt a b && float_lt b c) (float_lt a c)) vs) vs) vs.

(** The points of a vertex array: its coordinates three at a time. *)
Fixpoint points (vs : list float) : list (float * float * float) :=
  match vs with
  | v0 :: v1 :: v2 :: rest => (v0, v1, v2) :: points rest
  | _ => []
  end.

(** No coordinate of [p] is less than that of [mn] or greater than that
    of [mx]. *)
Definition encloses (mn mx p : float * float * float) : Prop :=
  (float_lt p.1.1 mn.1.1 = false ∧ float_lt mx.1.1 p.1.1 = false)
  ∧ (float_lt p.1.2 mn.1.2 = false ∧ float_lt mx.1.2 p.1.2 = false)
  ∧ (float_lt p.2 mn.2 = false ∧ float_lt mx.2 p.2 = false).



(** Multiplying by [s] keeps the order of any two coordinates of [vs], or
    gives the same [float] for both. *)
Definition keeps_order (s : float) (vs : list float) : Prop :=
  Forall (fun a => Forall (fun b =>
    float_lt (float_mul a s) (float_mul b s) = float_lt a b
    ∨ float_mul a s = float_mul b s) vs) vs.


(** *** The emitted arrays *)

(** The placed items [ExtractGeometryData] visits for an entry of the
    shape-data map, and for the whole map, in order. *)
Definition entity_placed (entry : string * option ProductShapeData)
  : list (Matrix * ItemShapeData) :=
  match entry.2 with
  | Some shapeData =>
      match m_ifc_object_definition shapeData with
      | Some _ => placed_items shapeData
      | None => []
      end
  | None => []
  end.

Definition converted_placed
    (map_entities : list (string * option ProductShapeData))
  : list (Matrix * ItemShapeData) :=
  map_entities ≫= entity_placed.

(** The text of an array of the document: its key and its entries, one
    after the other with a comma and a newline between them. *)
Definition array_text (k : string) (entries : list string) : string :=
  cat [ "  "; key k; ": ["; nl;
        separated ("," +:+ nl) entries;
        nl; "  ],"; nl ].

(** A number of the document under its key. *)
Definition number_entry (k : string) (n : Z) : string :=
  cat [key k; ": "; stream_size_t n].

(** How often the character [c] occurs in [s].  Every entry of the two
    arrays is one object, without objects inside: the opening braces of
    an array count its entries. *)
Fixpoint count_char (c : Ascii.ascii) (s : string) : nat :=
  match s with
  | EmptyString => 0
  | String a rest => (if Ascii.eqb a c then 1 else 0) + count_char c rest
  end.

(** The opening braces in the text of the box of a record. *)
Definition box_braces (g : GeometryData) : nat :=
  count_char "{" (stream_vec3 (minBounds g))
  + count_char "{" (stream_vec3 (maxBounds g)).

(** *** File names *)






(** *** The binary blob *)



(** *** Nodes and meshes *)


(** The accessors a primitive names: [POSITION], [NORMAL] and
    [indices]. *)
Definition primitive_accessors (accessorIndex : Z) : list Z :=
  [usize (accessorIndex * 3); usize (accessorIndex * 3 + 1);
   usize (accessorIndex * 3 + 2)].



(** The mesh each object of the [nodes] array refers to, if it has one;
    [WriteNodes_entries] below shows that [WriteNodes] writes these. *)
Definition node_meshes (root : GltfNode) : list (option Z) :=
  imap (fun i node =>
          if empty (geometries node) then None else Some (Z.of_nat i))
       (children root).

Definition stream_node (n : string) (mesh : option Z) : string :=
  cat [
    "    {"; nl;
    "      "; key "name"; ": "; key n;
    match mesh with
    | None => EmptyString
    | Some i => cat [","; nl; "      "; key "mesh"; ": "; stream_size_t i]
    end;
    nl; "    }" ].

(** *** What the writers read *)

(** What the writers read of a geometry record, of a node and of a
    scene. *)
Definition written_part (g : GeometryData)
  : list float * list float * list Z
    * (float * float * float) * (float * float * float) :=
  (vertices g, normals g, indices g, minBounds g, maxBounds g).

Definition written_node (n : GltfNode) :=
  (name n, written_part <$> geometries n).

Definition written_scene (root : GltfNode) :=
  (name root, written_node <$> children root).

(** *** The command line *)

(** Every field of [args] has its default value or comes from one of the
    arguments [all]. *)
Definition from_arguments (lib : Parsers) (all : list string)
    (args : CommandLineArgs) : Prop :=
  (inputFile args = EmptyString ∨ inputFile args ∈ all)
  ∧ (outputFile args = EmptyString ∨ outputFile args ∈ all)
  ∧ (scale args = lit_1_0f
     ∨ exists value, value ∈ all ∧ stof lib value = Some (scale args))
  ∧ (logLevel args = 1
     ∨ exists value, value ∈ all ∧ stoi lib value = Some (logLevel args))
  ∧ (outputGlb args = true -> "--glb" ∈ all).

(** What a result of [ParseCommandLine] says about the arguments. *)
Definition explained (lib : Parsers) (all : list string) (r : ParseResult)
  : Prop :=
  match r with
  | Parsed args => from_arguments lib all args
  | Help => "-h" ∈ all ∨ "--help" ∈ all
  | Throws =>
      exists value,
        value ∈ all ∧ (stof lib value = None ∨ stoi lib value = None)
  end.

End Inventory.

(** ** IEEE-754 arithmetic as an instance of the interface

    [float] is binary32 and [double] is binary64, both as [spec_float]
    values with round-to-nearest-even operations; a matrix is an affine
    map given by three rows of four [double] coefficients. *)

Module Binary32.

Definition prec : Z := 24.
Definition emax : Z := 128.
Definition dprec : Z := 53.
Definition demax : Z := 1024.

Definition of_double (d : spec_float) : spec_float :=
  match d with
  | S754_finite s m e =>
      binary_normalize prec emax (cond_Zopp s (Zpos m)) e s
  | _ => d
  end.

(** The [float] and the [double] nearest to the quotient [p / q] of two
    small integers: the value of a decimal literal. *)
Definition float_lit (p q : Z) : spec_float :=
  SFdiv prec emax (binary_normalize prec emax p 0 false)
                  (binary_normalize prec emax q 0 false).

Definition double_lit (p q : Z) : spec_float :=
  SFdiv dprec demax (binary_normalize dprec demax p 0 false)
                    (binary_normalize dprec demax q 0 false).

(** The bit pattern of a binary32 value. *)
Definition bits (f : spec_float) : Z :=
  let sign (s : bool) : Z := if s then 2 ^ 31 else 0 in
  match f with
  | S754_zero s => sign s
  | S754_infinity s => sign s + 0x7F800000
  | S754_nan => 0x7FC00000
  | S754_finite s m e =>
      sign s +
      (if Zpos m <? 2 ^ 23 then Zpos m
       else (e + 150) * 2 ^ 23 + (Zpos m - 2 ^ 23))
  end.

Definition Row : Type := spec_float * spec_float * spec_float * spec_float.

Definition dot (r : Row) (v : spec_float * spec_float * spec_float)
  : spec_float :=
  let '(a, b, c, t) := r in
  let '(x, y, z) := v in
  let mul := SFmul dprec demax in
  let add := SFadd dprec demax in
  add (add (add (mul a x) (mul b y)) (mul c z)) t.

Definition apply (m : Row * Row * Row)
    (v : spec_float * spec_float * spec_float)
  : spec_float * spec_float * spec_float :=
  let '(r1, r2, r3) := m in (dot r1 v, dot r2 v, dot r3 v).

(** *** Text of a [float] in the stream's default format: six significant
    digits, fixed or scientific notation, trailing zeros removed. *)

(** The decimal exponent [X] of the positive rational [num / den]:
    [10^X <= num / den < 10^(X+1)], searched upwards from [-60]. *)
Definition decimal_exponent (num den : Z) : Z :=
  foldl (fun found X =>
           if (if 0 <=? X then den * 10 ^ X <=? num
               else den <=? num * 10 ^ (- X))
           then X else found)
        (-60) (seqZ (-60) 110).

(** [num / den * 10^p] rounded to the nearest integer, ties to even. *)
Definition round_scaled (num den p : Z) : Z :=
  let n := if 0 <=? p then num * 10 ^ p else num in
  let d := if 0 <=? p then den else den * 10 ^ (- p) in
  let q := n / d in
  let r := n mod d in
  if 2 * r <? d then q
  else if d <? 2 * r then q + 1
  else if Z.even q then q else q + 1.

Fixpoint strip_zeros_rev (s : list Ascii.ascii) : list Ascii.ascii :=
  match s with
  | a :: rest => if Ascii.eqb a "0" then strip_zeros_rev rest else s
  | [] => []
  end.

(** Trailing zeros of a digit string removed. *)
Definition strip_zeros (s : string) : string :=
  String.string_of_list_ascii
    (reverse (strip_zeros_rev (reverse (String.list_ascii_of_string s)))).

(** [n] written with at least [w] digits. *)
Definition pad (w : nat) (n : Z) : string :=
  let s := pretty n in
  String.string_of_list_ascii (replicate (w - String.length s) "0"%char) +:+ s.

Definition with_fraction (int frac : string) : string :=
  match strip_zeros frac with
  | EmptyString => int
  | f => int +:+ "." +:+ f
  end.

Definition stream_positive (num den : Z) : string :=
  let X0 := decimal_exponent num den in
  let d0 := round_scaled num den (5 - X0) in
  let X := if d0 <? 10 ^ 6 then X0 else X0 + 1 in
  let d := if d0 <? 10 ^ 6 then d0 else 10 ^ 5 in
  if bool_decide (X < -4 ∨ 6 <= X) then
    with_fraction (pretty (d / 10 ^ 5)) (pad 5 (d mod 10 ^ 5))
      +:+ "e" +:+ (if X <? 0 then "-" else "+") +:+ pad 2 (Z.abs X)
  else
    let p := 5 - X in
    with_fraction (pretty (d / 10 ^ p)) (pad (Z.to_nat p) (d mod 10 ^ p)).

(** [spec_float] has one NaN, without a sign: the text of a NaN is the one
    the stream prints for a NaN whose sign bit is clear; for one whose
    sign bit is set it prints [-nan].  No property below rests on the
    text of a NaN. *)
Definition stream (f : spec_float) : string :=
  match f with
  | S754_zero s => if s then "-0" else "0"
  | S754_infinity s => if s then "-inf" else "inf"
  | S754_nan => "nan"
  | S754_finite s m e =>
      (if s then "-" else EmptyString) +:+
      (if 0 <=? e then stream_positive (Zpos m * 2 ^ e) 1
       else stream_positive (Zpos m) (2 ^ (- e)))
  end.

End Binary32.

#[export] Instance binary32 : Numerics := {|
  float := spec_float;
  double := spec_float;
  Matrix := Binary32.Row * Binary32.Row * Binary32.Row;
  static_cast_float := Binary32.of_double;
  float_mul := SFmul Binary32.prec Binary32.emax;
  float_lt := SFltb;
  float_le := SFleb;
  float_eq := SFeqb;
  lit_0_0f := S754_zero false;
  lit_1_0f := Binary32.float_lit 1 1;
  lit_0_8f := Binary32.float_lit 8 10;
  lit_0_9f := Binary32.float_lit 9 10;
  matrix_apply := Binary32.apply;
  float_bytes := fun f => le32 (Binary32.bits f);
  float_bytes_length := fun f => eq_refl;
  stream_float := Binary32.stream
|}.

(** ** Example scenes *)

Module Examples.

Definition d (p q : Z) : spec_float := Binary32.double_lit p q.

Definition point (a b c : Z) : vector3 := Vector3 (d a 1) (d b 1) (d c 1).

Definition identity : Matrix :=
  ((d 1 1, d 0 1, d 0 1, d 0 1),
   (d 0 1, d 1 1, d 0 1, d 0 1),
   (d 0 1, d 0 1, d 1 1, d 0 1)).

(** The translation by [(t, 0, 0)]. *)
Definition shift_x (t : Z) : Matrix :=
  ((d 1 1, d 0 1, d 0 1, d t 1),
   (d 0 1, d 1 1, d 0 1, d 0 1),
   (d 0 1, d 0 1, d 1 1, d 0 1)).

(** A closed mesh with the single face [(0,0,0), (1,0,0), (0,1,0)] and
    normal [(0,0,1)]. *)
Definition triangle_face : Face :=
  {| loop := [point 0 0 0; point 1 0 0; point 0 1 0];
     plane_N := point 0 0 1 |}.

Definition item_of_faces (fs : list Face) : ItemShapeData :=
  {| m_meshsets := [Some {| meshes := [Some {| faces := Some <$> fs |}] |}];
     m_meshsets_open := [];
     m_vec_item_appearances := [];
     m_child_items := [] |}.

Definition named (n : string) : option IfcObjectDefinition :=
  Some {| as_IfcRoot := Some {| m_Name := Some n; m_GlobalId := None |};
          typeid_name := "class IFC4X3::IfcWall" |}.

Definition triangle_shape : ProductShapeData :=
  {| m_ifc_object_definition := named "Wall";
     getTransform := identity;
     getGeometricItems := [item_of_faces [triangle_face]];
     getChildElements := [] |}.

Definition triangle_scene (scale : float) : GltfNode :=
  extracted_scene scale [("1", Some triangle_shape)].

(** The scale factor [0.001]. *)
Definition millimetre : float := Binary32.float_lit 1 1000.

(** The square [(0,0,0), (1,0,0), (1,1,0), (0,1,0)]. *)
Definition quad_face : Face :=
  {| loop := [point 0 0 0; point 1 0 0; point 1 1 0; point 0 1 0];
     plane_N := point 0 0 1 |}.

(** A name with a quote and a backslash in it. *)
Definition quoted_name : string := "a" +:+ dq +:+ "b\c".

Definition quoted_scene : GltfNode :=
  extracted_scene lit_1_0f
    [("1",
      Some {| m_ifc_object_definition := named quoted_name;
              getTransform := identity;
              getGeometricItems := [item_of_faces [triangle_face]];
              getChildElements := [] |})].

Definition quoted_node : GltfNode :=
  default (GltfNode_new "none" "none") (head (children quoted_scene)).

(** A shape-data object without items of its own, placed by the identity,
    whose only child element is placed by a translation and owns the
    triangle. *)
Definition nested_shape : ProductShapeData :=
  {| m_ifc_object_definition := named "Storey";
     getTransform := identity;
     getGeometricItems := [];
     getChildElements :=
       [ {| m_ifc_object_definition := named "Wall";
            getTransform := shift_x 5;
            getGeometricItems := [item_of_faces [triangle_face]];
            getChildElements := [] |} ] |}.

Definition start (n : string) : Extraction :=
  {| node := GltfNode_new n "IfcWall"; m_materials := ∅ |}.




Definition gltf_args (output : string) (s : float) : CommandLineArgs :=
  {| inputFile := "in.ifc"; outputFile := output; scale := s;
     logLevel := 1; outputGlb := false |}.

(** A shape whose single closed mesh has [k] copies of the triangle. *)
Definition triangles_item (k : nat) : ItemShapeData :=
  {| m_meshsets :=
       [Some {| meshes :=
                  [Some {| faces := replicate k (Some triangle_face) |}] |}];
     m_meshsets_open := [];
     m_vec_item_appearances := [];
     m_child_items := [] |}.

Definition triangles_shape (k : nat) : ProductShapeData :=
  {| m_ifc_object_definition := named "Terrain";
     getTransform := identity;
     getGeometricItems := [triangles_item k];
     getChildElements := [] |}.

(** The scene of [51130564] triangles, whose geometry takes [84] bytes per
    triangle. *)
Definition large_scene : GltfNode :=
  extracted_scene lit_1_0f
    [("1", Some (triangles_shape (Z.to_nat 51130564)))].

End Examples.

(** ** Further example inputs *)

Module MoreExamples.
Import Examples.

(** The triangle item with an opaque red appearance. *)
Definition coloured_item : ItemShapeData :=
  {| m_meshsets :=
       [Some {| meshes := [Some {| faces := [Some triangle_face] |}] |}];
     m_meshsets_open := [];
     m_vec_item_appearances :=
       [None; Some {| m_color_rgba := [d 1 1; d 0 1; d 0 1; d 1 1] |}];
     m_child_items := [] |}.

Definition coloured_shape : ProductShapeData :=
  {| m_ifc_object_definition := named "Wall";
     getTransform := identity;
     getGeometricItems := [coloured_item];
     getChildElements := [] |}.

(** The triangle scene converted from the coloured item. *)
Definition coloured_scene : GltfNode :=
  extracted_scene lit_1_0f [("1", Some coloured_shape)].

(** An item with a closed mesh of one square, a null mesh set, and an open
    mesh of one triangle and one null face. *)
Definition mixed_item : ItemShapeData :=
  {| m_meshsets :=
       [None;
        Some {| meshes := [None; Some {| faces := [Some quad_face] |}] |}];
     m_meshsets_open :=
       [Some {| meshes := [Some {| faces := [None; Some triangle_face] |}] |}];
     m_vec_item_appearances := [];
     m_child_items := [] |}.

(** The record [ExtractMeshSet] fills from the square. *)
Definition quad_record : GeometryData :=
  ExtractFace identity (Some quad_face) GeometryData_new.

(** The scale factor [0.25]. *)
Definition quarter : float := Binary32.float_lit 1 4.

(** A triangle whose first two corners lie [2^-149], the smallest positive
    [float], to the right and to the left of the origin. *)
Definition tiny_face : Face :=
  {| loop := [Vector3 (d 1 (2 ^ 149)) (d 0 1) (d 0 1);
              Vector3 (d (-1) (2 ^ 149)) (d 1 1) (d 0 1);
              Vector3 (d 0 1) (d 0 1) (d 1 1)];
     plane_N := point 0 0 1 |}.


(** A mesh set with a null mesh and a mesh of a null face, a face of two
    vertices and the square. *)
Definition quad_meshset : option MeshSet :=
  Some {| meshes :=
            [None;
             Some {| faces :=
                       [None;
                        Some {| loop := [point 0 0 0; point 1 0 0];
                                plane_N := point 0 0 1 |};
                        Some quad_face] |}] |}.




End MoreExamples.

(** ** Facts about the machine integers *)

(** [lia] with the two word sizes written out. *)
Ltac word_lia :=
  change (2 ^ 64) with 18446744073709551616 in *;
  change (2 ^ 32) with 4294967296 in *; lia.

Section CppFacts.

Lemma u32_range n : 0 <= u32 n < 2 ^ 32.
Proof. unfold u32. apply Z.mod_pos_bound. lia. Qed.

Lemma usize_range n : 0 <= usize n < 2 ^ 64.
Proof. unfold usize. apply Z.mod_pos_bound. lia. Qed.

Lemma u32_small n : 0 <= n < 2 ^ 32 -> u32 n = n.
Proof. intros. unfold u32. apply Z.mod_small. lia. Qed.

Lemma usize_small n : 0 <= n < 2 ^ 64 -> usize n = n.
Proof. intros. unfold usize. apply Z.mod_small. lia. Qed.

Lemma u32_le n : 0 <= n -> u32 n <= n.
Proof. intros. unfold u32. apply Z.mod_le; lia. Qed.

Lemma land_lnot3 n : Z.land n (Z.lnot 3) = 4 * (n / 4).
Proof.
  replace (Z.lnot 3) with (Z.lnot (Z.ones 2)) by reflexivity.
  rewrite <- Z.ldiff_land, Z.ldiff_ones_r by lia.
  rewrite Z.shiftl_mul_pow2, Z.shiftr_div_pow2 by lia.
  change (2 ^ 2) with 4. lia.
Qed.

Lemma land_usize_lnot3 n : 0 <= n < 2 ^ 64 ->
  Z.land n (usize (Z.lnot 3)) = 4 * (n / 4).
Proof.
  intros Hn. rewrite <- land_lnot3.
  unfold usize. rewrite <- (Z.land_ones (Z.lnot 3) 64) by lia.
  rewrite (Z.land_comm (Z.lnot 3)), Z.land_assoc, Z.land_ones by lia.
  rewrite Z.mod_small by lia. reflexivity.
Qed.

Lemma align4_spec n : 0 <= n -> n + 3 < 2 ^ 32 ->
  align4 n = 4 * ((n + 3) / 4).
Proof.
  intros H0 H1. unfold align4.
  rewrite (usize_small (n + 3)) by word_lia.
  rewrite land_usize_lnot3 by word_lia.
  pose proof (Z.div_pos (n + 3) 4). pose proof (Z.mul_div_le (n + 3) 4).
  apply u32_small. word_lia.
Qed.

Lemma align4_mod4 n : align4 n mod 4 = 0.
Proof.
  unfold align4, u32.
  rewrite land_usize_lnot3 by apply usize_range.
  set (k := usize (n + 3) / 4).
  replace (2 ^ 32) with (4 * 2 ^ 30) by reflexivity.
  rewrite Z.mul_mod_distr_l by lia.
  rewrite Z.mul_comm. apply Z.mod_mul. lia.
Qed.

Lemma Z_of_byte_of_Z z : Z_of_byte (byte_of_Z z) = z mod 256.
Proof.
  unfold Z_of_byte, byte_of_Z.
  assert (Hr : 0 <= z mod 256 < 256) by (apply Z.mod_pos_bound; lia).
  destruct (Byte.of_N (Z.to_N (z mod 256))) as [b|] eqn:E.
  - apply Byte.to_of_N in E. simpl. rewrite E. lia.
  - apply Byte.of_N_None_iff in E. lia.
Qed.

Lemma read_le32_le32 w : read_le32 (le32 w) = u32 w.
Proof.
  unfold read_le32, le32, u32. rewrite !Z_of_byte_of_Z.
  rewrite !Z.shiftl_mul_pow2, !Z.shiftr_div_pow2 by lia.
  change (2 ^ 8) with 256. change (2 ^ 16) with (256 * 256).
  change (2 ^ 24) with (256 * 256 * 256).
  change (2 ^ 32) with 4294967296.
  rewrite <- !Z.div_div by lia.
  pose proof (Z.div_mod w 256 ltac:(lia)) as E0.
  pose proof (Z.mod_pos_bound w 256 ltac:(lia)).
  set (q1 := w / 256) in *.
  pose proof (Z.div_mod q1 256 ltac:(lia)) as E1.
  pose proof (Z.mod_pos_bound q1 256 ltac:(lia)).
  set (q2 := q1 / 256) in *.
  pose proof (Z.div_mod q2 256 ltac:(lia)) as E2.
  pose proof (Z.mod_pos_bound q2 256 ltac:(lia)).
  set (q3 := q2 / 256) in *.
  pose proof (Z.div_mod q3 256 ltac:(lia)) as E3.
  pose proof (Z.mod_pos_bound q3 256 ltac:(lia)).
  apply (Z.mod_unique_pos _ _ (q3 / 256)); lia.
Qed.

Lemma le32_length w : length (le32 w) = 4%nat.
Proof. reflexivity. Qed.

Lemma bytes_of_string_length s :
  length (bytes_of_string s) = String.length s.
Proof.
  unfold bytes_of_string, String.list_byte_of_string.
  rewrite List.length_map.
  induction s as [|a s IH]; simpl; congruence.
Qed.

End CppFacts.

(** ** The extraction visits the placed items in order *)

Section Flattening.
Context `{Numerics}.

Lemma ItemShapeData_nested_ind (P : ItemShapeData -> Prop) :
  (forall closed open appearances items,
     Forall P items ->
     P (Build_ItemShapeData closed open appearances items)) ->
  forall item, P item.
Proof.
  intros step. fix IH 1. intros [closed open appearances items].
  apply step. induction items as [|i items IHitems]; constructor.
  - apply IH.
  - apply IHitems.
Qed.

Lemma ProductShapeData_nested_ind (P : ProductShapeData -> Prop) :
  (forall object m items elements,
     Forall P elements ->
     P (Build_ProductShapeData object m items elements)) ->
  forall shapeData, P shapeData.
Proof.
  intros step. fix IH 1. intros [object m items elements].
  apply step. induction elements as [|e elements IHelements]; constructor.
  - apply IH.
  - apply IHelements.
Qed.

Lemma foldl_bind {A B C} (f : C -> A -> C) (g : C -> B -> C)
    (k : A -> list B) (l : list A) :
  Forall (fun a => forall c, f c a = foldl g c (k a)) l ->
  forall c, foldl f c l = foldl g c (l ≫= k).
Proof.
  induction 1 as [|a l Ha _ IH]; intros c; [done|].
  rewrite bind_cons, foldl_app. simpl. rewrite Ha. apply IH.
Qed.

Lemma ExtractGeometricItems_own scale item localTransform st :
  ExtractGeometricItems scale item localTransform st =
  foldl (fun st childItem =>
           ExtractGeometricItems scale childItem localTransform st)
        (ExtractOwnGeometry scale item localTransform st)
        (m_child_items item).
Proof.
  destruct item as [closed open appearances items].
  unfold ExtractOwnGeometry, raw_geometry. simpl.
  destruct (ExtractMaterialFromItem _ _) as [id materials]. reflexivity.
Qed.

Lemma ExtractGeometricItems_preorder scale localTransform item :
  forall st,
    ExtractGeometricItems scale item localTransform st =
    foldl (fun st i => ExtractOwnGeometry scale i localTransform st) st
          (items_preorder item).
Proof.
  induction item as [closed open appearances items IH]
    using ItemShapeData_nested_ind.
  intros st. rewrite ExtractGeometricItems_own.
  change (items_preorder (Build_ItemShapeData closed open appearances items))
    with (Build_ItemShapeData closed open appearances items
            :: (items ≫= items_preorder)).
  simpl. apply foldl_bind. exact IH.
Qed.

Lemma ExtractShapeData_placed scale shapeData :
  forall st,
    ExtractShapeData scale shapeData st =
    extract_placed scale st (placed_items shapeData).
Proof.
  induction shapeData as [object m items elements IH]
    using ProductShapeData_nested_ind.
  intros st. unfold extract_placed. simpl.
  rewrite foldl_app, foldl_fmap. simpl.
  rewrite <- (foldl_bind
    (fun st i => ExtractGeometricItems scale i m st)
    (fun st i => ExtractOwnGeometry scale i m st) items_preorder).
  - apply foldl_bind. exact IH.
  - apply Forall_forall. intros i _ c.
    apply ExtractGeometricItems_preorder.
Qed.

End Flattening.

(** ** Triangulation *)

Section Triangulation.
Context `{Numerics}.

Lemma foldl_preserves {A B} (P : A -> Prop) (f : A -> B -> A) l :
  (forall a b, P a -> P (f a b)) -> forall a, P a -> P (foldl f a l).
Proof.
  intros Hf. induction l as [|b l IH]; intros a Ha; simpl; auto.
Qed.

Lemma vsize_app {A} (l k : list A) : vsize (l ++ k) = vsize l + vsize k.
Proof. unfold vsize. rewrite length_app. lia. Qed.

Lemma vsize_nonneg {A} (l : list A) : 0 <= vsize l.
Proof. unfold vsize. lia. Qed.

Lemma empty_false_vsize {A} (l : list A) : empty l = false -> 0 < vsize l.
Proof. destruct l; [done|]. unfold vsize. simpl. lia. Qed.

(** The loop of [triangulate] runs over the fan of the loop. *)
Lemma fan_loop_shifted (f : GeometryData -> vector3 -> vector3
                            -> GeometryData) rest :
  forall g,
    foldl (fun g i =>
             match rest !! i, rest !! S i with
             | Some a, Some b => f g a b
             | _, _ => g
             end)
          g (seq 0 (length rest - 1))
    = foldl (fun g p => f g p.1 p.2) g (zip rest (tail rest)).
Proof.
  induction rest as [|a rest IH]; intros g; [done|].
  destruct rest as [|b rest]; [done|].
  replace (length (a :: b :: rest) - 1)%nat with (S (length rest))
    by (simpl; lia).
  rewrite <- cons_seq. simpl foldl at 1.
  rewrite <- fmap_S_seq, foldl_fmap. simpl zip. simpl foldl at 2.
  rewrite <- IH.
  replace (length (b :: rest) - 1)%nat with (length rest) by (simpl; lia).
  reflexivity.
Qed.

Lemma triangulate_fan localTransform face g :
  vsize (loop face) < 2 ^ 64 ->
  triangulate localTransform face g =
  push_triangles localTransform (plane_N face) (fan (loop face)) g.
Proof.
  intros Hsize. unfold triangulate, push_triangles, fan.
  destruct (loop face) as [|v0 rest] eqn:E.
  - apply (foldl_preserves (fun r => r = g)); [|done].
    intros a b ->. reflexivity.
  - replace (Z.to_nat (usize (vsize (v0 :: rest) - 1)) - 1)%nat
      with (length rest - 1)%nat.
    + rewrite <- fmap_S_seq, !foldl_fmap. simpl.
      apply (fan_loop_shifted
        (fun g a b => push_triangle localTransform (plane_N face) v0 a b g)).
    + unfold vsize in *. simpl length in *.
      rewrite usize_small by lia. lia.
Qed.

Lemma ExtractFace_fan localTransform face g :
  vsize (loop face) < 2 ^ 64 -> (3 <= length (loop face))%nat ->
  ExtractFace localTransform (Some face) g =
  push_triangles localTransform (plane_N face) (fan (loop face)) g.
Proof.
  intros Hsize Hn. unfold ExtractFace, n_edges.
  rewrite bool_decide_eq_false_2 by (unfold vsize; lia).
  by apply triangulate_fan.
Qed.

Lemma vertices_push_triangles localTransform normal ts : forall g,
  vertices (push_triangles localTransform normal ts g) =
  vertices g ++ mjoin (triangle_coordinates localTransform <$> ts).
Proof.
  unfold push_triangles.
  induction ts as [|t ts IH]; intros g; simpl.
  - by rewrite app_nil_r.
  - rewrite IH. simpl. by rewrite <- app_assoc.
Qed.

Lemma normals_push_triangles localTransform normal ts : forall g,
  normals (push_triangles localTransform normal ts g) =
  normals g ++ mjoin (replicate (3 * length ts) (coordinates normal)).
Proof.
  unfold push_triangles.
  induction ts as [|t ts IH]; intros g; simpl.
  - by rewrite app_nil_r.
  - rewrite IH. simpl. rewrite <- !app_assoc.
    replace (length ts + S (length ts + S (length ts + 0)))%nat
      with (S (S (3 * length ts))) by lia.
    reflexivity.
Qed.

Lemma texCoords_push_triangles localTransform normal ts : forall g,
  texCoords (push_triangles localTransform normal ts g) =
  texCoords g ++ replicate (6 * length ts) lit_0_0f.
Proof.
  unfold push_triangles.
  induction ts as [|t ts IH]; intros g; simpl.
  - by rewrite app_nil_r.
  - rewrite IH. simpl. rewrite <- !app_assoc.
    replace (length ts + S (length ts + S (length ts + S (length ts +
               S (length ts + S (length ts + 0))))))%nat
      with (S (S (S (S (S (6 * length ts)))))) by lia.
    reflexivity.
Qed.

Lemma indices_push_triangles localTransform normal ts : forall g,
  indices (push_triangles localTransform normal ts g) =
  indices g ++ fan_indices (vsize (vertices g) / 3) (length ts).
Proof.
  unfold push_triangles.
  induction ts as [|t ts IH]; intros g; simpl.
  - by rewrite app_nil_r.
  - rewrite IH. simpl. rewrite <- !app_assoc. simpl.
    rewrite vsize_app.
    change (vsize [_; _; _; _; _; _; _; _; _]) with (3 * 3).
    rewrite Z.div_add by lia. reflexivity.
Qed.

Lemma fan_length {A} (vs : list A) : length (fan vs) = (length vs - 2)%nat.
Proof.
  destruct vs as [|v0 rest]; [done|]. unfold fan.
  rewrite length_fmap, length_zip.
  destruct rest as [|a rest]; [done|].
  change (tail (a :: rest)) with rest. cbn [length]. lia.
Qed.

Lemma fan_lookup {A} (vs : list A) i v0 vi vj :
  vs !! 0%nat = Some v0 -> vs !! S i = Some vi -> vs !! S (S i) = Some vj ->
  fan vs !! i = Some (v0, vi, vj).
Proof.
  destruct vs as [|v rest]; [done|]. simpl. intros [= ->] Hi Hj.
  rewrite list_lookup_fmap.
  assert (zip rest (tail rest) !! i = Some (vi, vj)) as ->; [|done].
  clear v0. revert i Hi Hj.
  induction rest as [|a rest IH]; intros i Hi Hj; [done|].
  destruct rest as [|b rest]; [by destruct i|].
  destruct i as [|i]; simpl in *.
  - congruence.
  - apply IH; assumption.
Qed.

End Triangulation.

(** ** Geometry records *)

Section Records.
Context `{Numerics}.

Lemma well_formed_push_triangle localTransform normal v0 v1 v2 g :
  well_formed g ->
  well_formed (push_triangle localTransform normal v0 v1 v2 g).
Proof.
  intros (Hmod & Hidx & Hlen). unfold well_formed. simpl.
  rewrite !vsize_app.
  replace (vsize (vertices g) + _) with (vsize (vertices g) + 3 * 3)
    by reflexivity.
  replace (vsize (indices g) + _) with (vsize (indices g) + 1 * 3)
    by reflexivity.
  replace (vsize (normals g) + _) with (vsize (normals g) + 3 * 3)
    by reflexivity.
  rewrite !Z.div_add by lia.
  pose proof (vsize_nonneg (vertices g)) as Hv.
  pose proof (Z.div_pos (vsize (vertices g)) 3 Hv ltac:(lia)) as Hq.
  pose proof (u32_range (vsize (vertices g) / 3)) as [Hb0 _].
  pose proof (u32_le (vsize (vertices g) / 3) Hq) as Hb1.
  set (b := u32 (vsize (vertices g) / 3)) in *.
  pose proof (u32_range (b + 1)) as [? _].
  pose proof (u32_le (b + 1) ltac:(lia)).
  pose proof (u32_range (b + 2)) as [? _].
  pose proof (u32_le (b + 2) ltac:(lia)).
  split_and!.
  - rewrite Z.mod_add by lia. exact Hmod.
  - apply Forall_app. split.
    + eapply Forall_impl; [exact Hidx|]. simpl. intros i ?. lia.
    + repeat constructor; lia.
  - lia.
Qed.

Lemma well_formed_ExtractFace localTransform face g :
  well_formed g -> well_formed (ExtractFace localTransform face g).
Proof.
  intros Hg. destruct face as [f|]; [|done]. simpl.
  case_bool_decide; [done|]. unfold triangulate.
  apply (foldl_preserves well_formed); [|done].
  intros a i Ha. repeat case_match; try done.
  by apply well_formed_push_triangle.
Qed.

Lemma preserved_ExtractMeshSet (P : GeometryData -> Prop) :
  (forall localTransform face g,
     P g -> P (ExtractFace localTransform face g)) ->
  forall meshset localTransform g,
    P g -> P (ExtractMeshSet meshset localTransform g).
Proof.
  intros HP meshset localTransform g Hg.
  destruct meshset as [ms|]; [|done]. simpl.
  apply (foldl_preserves P); [|done].
  intros a [m|] Ha; [|done].
  apply (foldl_preserves P); [|done]. intros; by apply HP.
Qed.

Lemma preserved_raw_geometry (P : GeometryData -> Prop) :
  (forall localTransform face g,
     P g -> P (ExtractFace localTransform face g)) ->
  forall id localTransform item,
    P {| vertices := []; normals := []; texCoords := []; indices := [];
         materialId := id;
         minBounds := minBounds GeometryData_new;
         maxBounds := maxBounds GeometryData_new |} ->
    P (raw_geometry id localTransform item).
Proof.
  intros HP id localTransform item H0. unfold raw_geometry.
  apply (foldl_preserves P).
  { intros. by apply preserved_ExtractMeshSet. }
  apply (foldl_preserves P); [|done].
  intros. by apply preserved_ExtractMeshSet.
Qed.

Lemma well_formed_ApplyScale g scale :
  well_formed g -> well_formed (ApplyScale g scale).
Proof.
  unfold ApplyScale, well_formed. destruct (negb _); [|done]. simpl.
  unfold vsize. by rewrite length_fmap.
Qed.

Lemma CalculateBounds_vectors g :
  vertices (CalculateBounds g) = vertices g
  ∧ normals (CalculateBounds g) = normals g
  ∧ texCoords (CalculateBounds g) = texCoords g
  ∧ indices (CalculateBounds g) = indices g
  ∧ materialId (CalculateBounds g) = materialId g.
Proof.
  unfold CalculateBounds.
  destruct (vertices g) as [|v0 [|v1 [|v2 rest]]] eqn:E; try done.
  destruct (CalculateBounds_loop _ _ _). done.
Qed.

Lemma well_formed_CalculateBounds g :
  well_formed g -> well_formed (CalculateBounds g).
Proof.
  unfold well_formed.
  destruct (CalculateBounds_vectors g) as (Ev & En & _ & Ei & _).
  by rewrite Ev, En, Ei.
Qed.

Lemma whole_ExtractFace localTransform face g :
  whole g -> whole (ExtractFace localTransform face g).
Proof.
  intros Hg. destruct face as [f|]; [|done]. simpl.
  case_bool_decide; [done|]. unfold triangulate.
  apply (foldl_preserves whole); [|done].
  intros a i [Ha1 Ha2]. repeat case_match; try done.
  unfold whole. simpl. rewrite !vsize_app.
  change (vsize [_; _; _; _; _; _; _; _; _]) with (1 * 9).
  change (vsize [_; _; _; _; _; _]) with 6.
  rewrite Z.mod_add by lia. lia.
Qed.

Lemma finish_triangles scale id localTransform item :
  empty (vertices (raw_geometry id localTransform item)) = false ->
  well_formed (finish scale (raw_geometry id localTransform item))
  ∧ triangles (finish scale (raw_geometry id localTransform item)).
Proof.
  intros Hne. split.
  - apply well_formed_CalculateBounds, well_formed_ApplyScale.
    apply (preserved_raw_geometry well_formed).
    + intros. by apply well_formed_ExtractFace.
    + unfold well_formed. simpl. split_and!; [done|constructor|done].
  - assert (whole (raw_geometry id localTransform item)) as [H9 Ht].
    { apply (preserved_raw_geometry whole).
      - intros. by apply whole_ExtractFace.
      - by unfold whole. }
    apply empty_false_vsize in Hne.
    unfold triangles, finish.
    destruct (CalculateBounds_vectors
                (ApplyScale (raw_geometry id localTransform item) scale))
      as (Ev & _ & Et & _ & _).
    rewrite Ev, Et.
    unfold ApplyScale. destruct (negb _); simpl; [|done].
    unfold vsize in *. rewrite length_fmap. done.
Qed.

End Records.

(** ** Two conversions of one input with different scale factors *)

Section Scenes.
Context `{Numerics}.

Lemma ExtractOwnGeometry_same s1 s2 item localTransform st1 st2 :
  same_state s1 s2 st1 st2 ->
  same_state s1 s2 (ExtractOwnGeometry s1 item localTransform st1)
                   (ExtractOwnGeometry s2 item localTransform st2).
Proof.
  intros (Hm & Hname & Htype & Hchildren & Hgeom).
  unfold ExtractOwnGeometry. rewrite Hm.
  destruct (ExtractMaterialFromItem item (m_materials st2))
    as [id materials].
  split; [done|]. simpl.
  destruct (empty (vertices (raw_geometry id localTransform item))) eqn:E.
  - done.
  - unfold same_node, push_geometry. simpl. split_and!; try done.
    apply Forall2_app; [done|]. constructor; [|constructor].
    exists id, localTransform, item. done.
Qed.

Lemma extract_placed_same s1 s2 items : forall st1 st2,
  same_state s1 s2 st1 st2 ->
  same_state s1 s2 (extract_placed s1 st1 items)
                   (extract_placed s2 st2 items).
Proof.
  unfold extract_placed.
  induction items as [|p items IH]; intros st1 st2 Hst; [done|].
  simpl. apply IH. by apply ExtractOwnGeometry_same.
Qed.

Lemma ExtractEntity_same s1 s2 entry c1 c2 :
  registry c1 = registry c2 ->
  same_scene s1 s2 (m_rootNode c1) (m_rootNode c2) ->
  registry (ExtractEntity s1 entry c1) = registry (ExtractEntity s2 entry c2)
  ∧ same_scene s1 s2 (m_rootNode (ExtractEntity s1 entry c1))
                     (m_rootNode (ExtractEntity s2 entry c2)).
Proof.
  intros Hreg Hroot. unfold ExtractEntity.
  destruct entry.2 as [shapeData|]; [|done].
  destruct (m_ifc_object_definition shapeData) as [ifcObject|]; [|done].
  rewrite !ExtractShapeData_placed. simpl.
  set (n := GltfNode_new _ _).
  destruct (extract_placed_same s1 s2 (placed_items shapeData)
              {| node := n; m_materials := registry c1 |}
              {| node := n; m_materials := registry c2 |})
    as (Hm & Hnode).
  { split; [done|]. unfold same_node. simpl. by split_and!. }
  split; [done|].
  destruct Hnode as (Hname & Htype & Hchildren & Hgeom).
  destruct Hroot as (Hrn & Hg1 & Hg2 & Hc & Hne).
  pose proof (Forall2_length _ _ _ Hgeom) as Hlen.
  destruct (geometries (node (extract_placed s1 _ _))) as [|g1 l1] eqn:E1;
    destruct (geometries (node (extract_placed s2 _ _))) as [|g2 l2] eqn:E2;
    try done; simpl.
  unfold same_scene. simpl. split_and!; try done.
  - apply Forall2_app; [done|]. constructor; [|constructor].
    unfold same_node. rewrite E1, E2. done.
  - apply Forall_app. split; [done|]. constructor; [|constructor].
    by rewrite E1.
Qed.

Lemma extracted_scene_same s1 s2 map_entities :
  same_scene s1 s2 (extracted_scene s1 map_entities)
                   (extracted_scene s2 map_entities).
Proof.
  unfold extracted_scene, ExtractGeometryData.
  assert (forall c1 c2,
    registry c1 = registry c2 ->
    same_scene s1 s2 (m_rootNode c1) (m_rootNode c2) ->
    same_scene s1 s2
      (m_rootNode (foldl (fun c entry => ExtractEntity s1 entry c) c1
                         map_entities))
      (m_rootNode (foldl (fun c entry => ExtractEntity s2 entry c) c2
                         map_entities))) as Hfold.
  { induction map_entities as [|entry l IH]; intros c1 c2 Hreg Hroot;
      [done|].
    simpl. destruct (ExtractEntity_same s1 s2 entry c1 c2 Hreg Hroot).
    by apply IH. }
  apply Hfold; [done|].
  unfold same_scene. simpl. by split_and!.
Qed.

Lemma same_scene_geometries s1 s2 root1 root2 :
  same_scene s1 s2 root1 root2 ->
  Forall2 (same_item s1 s2) (scene_geometries root1)
                            (scene_geometries root2).
Proof.
  intros (_ & _ & _ & Hc & _). unfold scene_geometries.
  induction Hc as [|n1 n2 l1 l2 Hn _ IH]; [constructor|].
  simpl. apply Forall2_app; [|exact IH].
  by destruct Hn as (_ & _ & _ & Hg).
Qed.

(** Every record of an extracted scene is the finished record of an item
    whose mesh sets gave at least one triangle. *)
Lemma extracted_scene_finished scale map_entities :
  Forall (fun g => exists id localTransform item,
            empty (vertices (raw_geometry id localTransform item)) = false
            ∧ g = finish scale (raw_geometry id localTransform item))
         (scene_geometries (extracted_scene scale map_entities)).
Proof.
  pose proof (same_scene_geometries scale scale _ _
                (extracted_scene_same scale scale map_entities)) as HF.
  eapply Forall2_Forall_l; [exact HF|].
  apply Forall_forall. intros g2 _ g1 (id & m & item & ? & ? & ?).
  by exists id, m, item.
Qed.

Lemma extracted_scene_well_formed scale map_entities :
  Forall (fun g => well_formed g ∧ triangles g)
         (scene_geometries (extracted_scene scale map_entities)).
Proof.
  eapply Forall_impl; [apply extracted_scene_finished|].
  intros g (id & m & item & Hne & ->). by apply finish_triangles.
Qed.

End Scenes.

(** ** The properties of the specification *)

Section Properties.
Context `{Numerics}.

(** C4 — Every geometry record that mesh extraction produces has a number
    of indices that is a multiple of three, has every index strictly below
    its number of vertices (a third of the length of [vertices]), and has
    [vertices] and [normals] of the same length.  A record without
    vertices, normals and indices is in this state, appending a triangle
    keeps it, a whole mesh set keeps it, and so do [ApplyScale] and
    [CalculateBounds]; hence every record of an extracted scene is in
    it. *)
Theorem geometry_record_invariant :
  (forall g, vertices g = [] -> normals g = [] -> indices g = [] ->
     well_formed g)
  ∧ (forall localTransform normal v0 v1 v2 g,
       well_formed g ->
       well_formed (push_triangle localTransform normal v0 v1 v2 g))
  ∧ (forall meshset localTransform g,
       well_formed g ->
       well_formed (ExtractMeshSet meshset localTransform g))
  ∧ (forall g scale, well_formed g -> well_formed (ApplyScale g scale))
  ∧ (forall g, well_formed g -> well_formed (CalculateBounds g))
  ∧ (forall scale map_entities,
       Forall well_formed
         (scene_geometries (extracted_scene scale map_entities))).
Proof.
  split_and!.
  - intros g Hv Hn Hi. unfold well_formed. rewrite Hv, Hn, Hi.
    split_and!; [done|constructor|done].
  - intros. by apply well_formed_push_triangle.
  - intros. apply (preserved_ExtractMeshSet well_formed); [|done].
    intros. by apply well_formed_ExtractFace.
  - intros. by apply well_formed_ApplyScale.
  - intros. by apply well_formed_CalculateBounds.
  - intros. eapply Forall_impl; [apply extracted_scene_well_formed|].
    by intros g [? _].
Qed.

Lemma accessors_loop_layout geoms : forall bufferViewIndex,
  accessor_layout <$> accessors_loop bufferViewIndex geoms =
  geoms ≫= geometry_layout.
Proof.
  induction geoms as [|g geoms IH]; intros b; [done|].
  simpl. by rewrite IH.
Qed.

Lemma accessors_loop_length geoms : forall bufferViewIndex,
  length (accessors_loop bufferViewIndex geoms) = (3 * length geoms)%nat.
Proof.
  induction geoms as [|g geoms IH]; intros b; [done|].
  simpl. rewrite IH. lia.
Qed.

Lemma bufferViews_loop_length geoms : forall byteOffset0,
  length (bufferViews_loop byteOffset0 geoms) = (3 * length geoms)%nat.
Proof.
  induction geoms as [|g geoms IH]; intros b; [done|].
  simpl. rewrite IH. lia.
Qed.

Lemma non_empty_records_extracted scale map_entities :
  non_empty_records (extracted_scene scale map_entities) =
  scene_geometries (extracted_scene scale map_entities).
Proof.
  unfold non_empty_records.
  pose proof (extracted_scene_well_formed scale map_entities) as HF.
  induction HF as [|g l [_ (Hpos & _)] _ IH]; [done|].
  simpl. rewrite IH.
  destruct (vertices g); [unfold vsize in Hpos; simpl in Hpos; lia|done].
Qed.

Lemma geometry_size_nonneg g : 0 <= geometry_size g.
Proof. unfold geometry_size, vsize. lia. Qed.

Lemma total_size_nonneg geoms :
  0 <= foldr (fun g total => geometry_size g + total) 0 geoms.
Proof.
  induction geoms as [|g geoms IH]; simpl; [done|].
  pose proof (geometry_size_nonneg g). lia.
Qed.

Lemma next_byteOffset_small byteOffset0 g :
  0 <= byteOffset0 -> byteOffset0 + geometry_size g < 2 ^ 64 ->
  next_byteOffset byteOffset0 g = byteOffset0 + geometry_size g.
Proof.
  intros H0 Hlt. unfold next_byteOffset, geometry_size in *.
  unfold sizeof_float, sizeof_uint32_t.
  pose proof (vsize_nonneg (vertices g)).
  pose proof (vsize_nonneg (normals g)).
  pose proof (vsize_nonneg (indices g)).
  rewrite (usize_small (vsize (vertices g) * 4)) by lia.
  rewrite (usize_small (vsize (normals g) * 4)) by lia.
  rewrite (usize_small (vsize (indices g) * 4)) by lia.
  rewrite (usize_small (byteOffset0 + _)) by lia.
  rewrite (usize_small (byteOffset0 + _ + _)) by lia.
  rewrite usize_small by lia. lia.
Qed.

Lemma loops_paired geoms : forall bufferViewIndex byteOffset0,
  Forall (fun g => vsize (vertices g) mod 3 = 0
                   ∧ vsize (normals g) = vsize (vertices g)) geoms ->
  0 <= bufferViewIndex -> 0 <= byteOffset0 ->
  bufferViewIndex + 3 * vsize geoms < 2 ^ 64 ->
  byteOffset0 + foldr (fun g total => geometry_size g + total) 0 geoms
    < 2 ^ 64 ->
  (forall k a,
     accessors_loop bufferViewIndex geoms !! k = Some a ->
     bufferView a = bufferViewIndex + Z.of_nat k
     ∧ exists v, bufferViews_loop byteOffset0 geoms !! k = Some v
                 ∧ paired a v)
  ∧ byteOffset <$> bufferViews_loop byteOffset0 geoms =
      running_sum byteOffset0
        (byteLength <$> bufferViews_loop byteOffset0 geoms).
Proof.
  induction geoms as [|g geoms IH];
    intros b off Hok Hb Hoff Hcount Hbytes; [done|].
  apply Forall_cons in Hok as [[Hmod Hnormals] Hok].
  simpl in Hbytes.
  pose proof (geometry_size_nonneg g) as Hg.
  pose proof (total_size_nonneg geoms) as Htotal.
  assert (vsize (g :: geoms) = 1 + vsize geoms) as Hsize
    by (unfold vsize; simpl; lia).
  rewrite Hsize in Hcount. pose proof (vsize_nonneg geoms).
  pose proof (vsize_nonneg (vertices g)) as Hv.
  pose proof (vsize_nonneg (indices g)) as Hi.
  assert (Hgs : geometry_size g =
                4 * vsize (vertices g) + 4 * vsize (vertices g)
                  + 4 * vsize (indices g))
    by (unfold geometry_size; lia).
  destruct (IH (usize (b + 3)) (next_byteOffset off g) Hok) as [IHa IHb].
  { rewrite usize_small; lia. }
  { rewrite next_byteOffset_small by lia. lia. }
  { rewrite usize_small by lia. lia. }
  { rewrite next_byteOffset_small by lia. lia. }
  assert (Evb : usize (vsize (vertices g) * sizeof_float)
                = vsize (vertices g) * 4)
    by (unfold sizeof_float; apply usize_small; lia).
  assert (Enb : usize (vsize (normals g) * sizeof_float)
                = vsize (vertices g) * 4)
    by (rewrite Hnormals; exact Evb).
  assert (Eib : usize (vsize (indices g) * sizeof_uint32_t)
                = vsize (indices g) * 4)
    by (unfold sizeof_uint32_t; apply usize_small; lia).
  assert (Ediv : vsize (vertices g) / 3 * 4 * 3 = vsize (vertices g) * 4).
  { pose proof (Z.div_mod (vsize (vertices g)) 3 ltac:(lia)). lia. }
  split.
  - intros k a Hk. simpl in Hk.
    destruct k as [|[|[|k]]]; simpl in Hk.
    + injection Hk as <-. simpl. split; [lia|].
      eexists. split; [done|]. unfold paired.
      cbn [byteLength count componentType accessor_type]. rewrite Evb.
      change (componentSize 5126) with 4.
      change (componentsPerElement "VEC3") with 3. lia.
    + injection Hk as <-. simpl. split; [rewrite usize_small; lia|].
      eexists. split; [done|]. unfold paired.
      cbn [byteLength count componentType accessor_type]. rewrite Enb.
      change (componentSize 5126) with 4.
      change (componentsPerElement "VEC3") with 3. lia.
    + injection Hk as <-. simpl. split; [rewrite usize_small; lia|].
      eexists. split; [done|]. unfold paired.
      cbn [byteLength count componentType accessor_type]. rewrite Eib.
      change (componentSize 5125) with 4.
      change (componentsPerElement "SCALAR") with 1. lia.
    + destruct (IHa k a Hk) as (Ebv & v & Hv' & Hp).
      split; [rewrite Ebv, usize_small; lia|].
      exists v. split; [|done]. exact Hv'.
  - cbn [bufferViews_loop]. rewrite !fmap_app, IHb.
    unfold geometry_bufferViews.
    cbn [fmap list_fmap app byteOffset byteLength running_sum].
    rewrite Evb, Enb, Eib.
    rewrite next_byteOffset_small by lia.
    rewrite (usize_small (off + _)) by lia.
    rewrite (usize_small (off + _ + _)) by lia.
    rewrite Hgs. do 4 f_equal. lia.
Qed.

Lemma records_fit geoms :
  Forall triangles geoms ->
  3 * vsize geoms <= foldr (fun g total => geometry_size g + total) 0 geoms.
Proof.
  induction 1 as [|g geoms (Hpos & _ & _) _ IH]; [done|].
  simpl. replace (vsize (g :: geoms)) with (1 + vsize geoms)
    by (unfold vsize; simpl; lia).
  unfold geometry_size at 1.
  pose proof (vsize_nonneg (normals g)).
  pose proof (vsize_nonneg (indices g)). lia.
Qed.

Lemma list_triples_ind {A} (P : list A -> Prop) :
  P [] -> (forall a, P [a]) -> (forall a b, P [a; b]) ->
  (forall a b c l, P l -> P (a :: b :: c :: l)) ->
  forall l, P l.
Proof.
  intros H0 H1 H2 H3. fix IH 1.
  intros [|a [|b [|c l]]];
    [exact H0 | apply H1 | apply H2 | apply H3, IH].
Qed.

Lemma std_min_elem a b (all : list float) :
  a ∈ all -> b ∈ all -> std_min a b ∈ all.
Proof. unfold std_min. by destruct (float_lt b a). Qed.

Lemma std_max_elem a b (all : list float) :
  a ∈ all -> b ∈ all -> std_max a b ∈ all.
Proof. unfold std_max. by destruct (float_lt a b). Qed.

Lemma same_transform_fmap (m : Matrix) (l : list (Matrix * ItemShapeData)) :
  Forall (fun p => p.1 = m) l -> (fun p => (m, p.2)) <$> l = l.
Proof.
  induction 1 as [|[m' item] l Hm _ IH]; [done|].
  rewrite fmap_cons, IH. simpl in Hm. by subst.
Qed.

(** C7 — The transform applied to a geometry item merged into a node is
    the transform of the shape-data object that owns the item: the node's
    own shape-data entry for its own items and their nested child items,
    and each descendant shape-data object's own transform for the items
    of that descendant.  Where all of them carry the transform of the
    node's entry, every merged item is under that single transform. *)
Theorem items_use_owner_transform scale shapeData st :
  ExtractShapeData scale shapeData st =
    extract_placed scale st (placed_items shapeData)
  ∧ (Forall (fun p => p.1 = getTransform shapeData)
            (placed_items shapeData) ->
     ExtractShapeData scale shapeData st =
       extract_placed scale st
         (items_under (getTransform shapeData) shapeData)).
Proof.
  split; [apply ExtractShapeData_placed|].
  intros Hsame. rewrite ExtractShapeData_placed. f_equal.
  unfold items_under. symmetry. by apply same_transform_fmap.
Qed.

(** [ValidateArgs] accepts only a scale factor that is not [<= 0.0f] and
    a log level from 0 to 2. *)
Lemma ValidateArgs_accepts args :
  ValidateArgs args = true ->
  inputFile args <> EmptyString ∧ outputFile args <> EmptyString
  ∧ float_le (scale args) lit_0_0f = false
  ∧ 0 <= logLevel args <= 2.
Proof.
  unfold ValidateArgs.
  destruct (String.eqb_spec (inputFile args) EmptyString); [done|].
  destruct (String.eqb_spec (outputFile args) EmptyString); [done|].
  destruct (float_le _ _); [done|].
  case_bool_decide; [done|]. intros _. split_and!; try done; lia.
Qed.

End Properties.

(** ** Text *)

Section Text.
Context `{Numerics}.

Lemma append_cons a s t : String a s +:+ t = String a (s +:+ t).
Proof. reflexivity. Qed.

Lemma append_nil_l s : EmptyString +:+ s = s.
Proof. reflexivity. Qed.

Lemma append_nil_r s : s +:+ EmptyString = s.
Proof.
  induction s as [|a s IH]; [done|]. by rewrite append_cons, IH.
Qed.

Lemma append_assoc s t u : (s +:+ t) +:+ u = s +:+ (t +:+ u).
Proof.
  induction s as [|a s IH]; [done|]. by rewrite !append_cons, IH.
Qed.


Lemma cat_cons s l : cat (s :: l) = s +:+ cat l.
Proof. reflexivity. Qed.

Lemma cat_app l k : cat (l ++ k) = cat l +:+ cat k.
Proof.
  induction l as [|s l IH]; [done|].
  by rewrite <- app_comm_cons, !cat_cons, IH, append_assoc.
Qed.

Lemma occurs_in_refl t : occurs_in t t.
Proof.
  exists EmptyString, EmptyString. by rewrite append_nil_l, append_nil_r.
Qed.

Lemma occurs_in_trans t s u : occurs_in t s -> occurs_in s u -> occurs_in t u.
Proof.
  intros (b1 & a1 & ->) (b2 & a2 & ->).
  exists (b2 +:+ b1), (a1 +:+ a2). by rewrite !append_assoc.
Qed.

Lemma occurs_in_append_l t s u : occurs_in t s -> occurs_in t (s +:+ u).
Proof.
  intros (b & a & ->). exists b, (a +:+ u). by rewrite !append_assoc.
Qed.

Lemma occurs_in_append_r t s u : occurs_in t s -> occurs_in t (u +:+ s).
Proof.
  intros (b & a & ->). exists (u +:+ b), a. by rewrite !append_assoc.
Qed.

Lemma occurs_in_cat t parts : In t parts -> occurs_in t (cat parts).
Proof.
  induction parts as [|s parts IH]; [done|]. intros [->|Hin].
  - apply occurs_in_append_l, occurs_in_refl.
  - apply (occurs_in_append_r _ (cat parts)). by apply IH.
Qed.

Lemma occurs_in_cat_middle before middle after :
  occurs_in (cat middle) (cat (before ++ middle ++ after)).
Proof.
  rewrite !cat_app. apply occurs_in_append_r, occurs_in_append_l,
    occurs_in_refl.
Qed.

Lemma occurs_in_separated sep t items :
  In t items -> occurs_in t (separated sep items).
Proof.
  unfold separated.
  induction items as [|s items IH]; [done|]. intros Hin. simpl.
  destruct items as [|s' items].
  - destruct Hin as [->|[]]. apply occurs_in_refl.
  - destruct Hin as [->|Hin].
    + apply occurs_in_append_l, occurs_in_refl.
    + apply occurs_in_append_r, occurs_in_append_r. by apply IH.
Qed.

Lemma first_flag_loop_from sep items : forall out,
  (foldl (fun st item =>
            (false,
             st.2 +:+ (if st.1 : bool then EmptyString else sep) +:+ item))
         (false, out) items).2
  = out +:+ cat ((fun item => sep +:+ item) <$> items).
Proof.
  induction items as [|item items IH]; intros out.
  - simpl. by rewrite append_nil_r.
  - cbn [foldl fst snd]. rewrite IH, fmap_cons, cat_cons.
    by rewrite !append_assoc.
Qed.

Lemma separated_cons sep item items :
  separated sep (item :: items)
  = item +:+ cat ((fun i => sep +:+ i) <$> items).
Proof.
  unfold separated. revert item.
  induction items as [|i items IH]; intros item.
  - simpl. by rewrite append_nil_r.
  - change (String.concat sep (item :: i :: items))
      with (item +:+ sep +:+ String.concat sep (i :: items)).
    by rewrite IH, fmap_cons, cat_cons, !append_assoc.
Qed.

(** The loop with the [first] flag streams the items separated by
    [sep]. *)
Lemma separated_first_flag sep items :
  first_flag_loop sep items = separated sep items.
Proof.
  unfold first_flag_loop. destruct items as [|item items]; [done|].
  cbn [foldl fst snd]. rewrite first_flag_loop_from, separated_cons.
  by rewrite !append_nil_l.
Qed.

Local Ltac in_list := simpl; repeat (first [left; reflexivity | right]).

Lemma name_in_WriteNodes root n :
  n ∈ children root -> occurs_in (name_entry (name n)) (WriteNodes root).
Proof.
  intros Hn. apply list_elem_of_lookup in Hn as [i Hi].
  unfold WriteNodes.
  eapply occurs_in_trans; [|apply occurs_in_cat;
    apply (in_elt _ [_; _; _; _] [_; _; _])].
  eapply occurs_in_trans; [|apply occurs_in_separated].
  2:{ apply list_elem_of_In. eapply elem_of_lookup_imap_2. exact Hi. }
  apply (occurs_in_cat_middle [_; _; _] [_; _; _] [_; _; _]).
Qed.

Lemma name_in_WriteMeshes_loop n nodes : forall accessorIndex,
  n ∈ nodes -> empty (geometries n) = false ->
  exists text, In text (WriteMeshes_loop accessorIndex nodes)
               ∧ occurs_in (name_entry (name n +:+ "_Mesh")) text.
Proof.
  induction nodes as [|node nodes IH]; intros a Hn Hne;
    [by apply elem_of_nil in Hn|].
  apply elem_of_cons in Hn as [<-|Hn].
  - cbn [WriteMeshes_loop]. rewrite Hne. eexists. split; [by left|].
    apply (occurs_in_cat_middle [_; _; _] [_; _; _] _).
  - cbn [WriteMeshes_loop]. destruct (empty (geometries node)).
    + by apply IH.
    + destruct (IH (usize (a + vsize (geometries node))) Hn Hne)
        as (text & Hin & Hocc).
      exists text. split; [by right|done].
Qed.

Lemma name_in_WriteMeshes root n :
  n ∈ children root -> empty (geometries n) = false ->
  occurs_in (name_entry (name n +:+ "_Mesh")) (WriteMeshes root).
Proof.
  intros Hn Hne.
  destruct (name_in_WriteMeshes_loop n (children root) 0 Hn Hne)
    as (text & Hin & Hocc).
  unfold WriteMeshes.
  eapply occurs_in_trans; [exact Hocc|].
  eapply occurs_in_trans; [by apply occurs_in_separated|].
  apply occurs_in_cat. in_list.
Qed.

Lemma name_in_preamble generator root :
  occurs_in (name_entry (name root)) (stream_preamble generator root).
Proof.
  unfold stream_preamble.
  set (ids := separated _ _).
  apply (occurs_in_cat_middle
    [_; _; _; _; _; _; _; _; _; _; _; _; _; _; _;
     _; _; _; _; _; _; _; _; _; _; _; _; _; _; _]
    [_; _; _] _).
Qed.

Lemma ExtractOwnGeometry_name scale item localTransform st :
  name (node (ExtractOwnGeometry scale item localTransform st))
  = name (node st).
Proof.
  unfold ExtractOwnGeometry.
  destruct (ExtractMaterialFromItem _ _) as [id materials]. simpl.
  by destruct (empty _).
Qed.

Lemma extract_placed_name scale items : forall st,
  name (node (extract_placed scale st items)) = name (node st).
Proof.
  unfold extract_placed.
  induction items as [|p items IH]; intros st; [done|].
  simpl. by rewrite IH, ExtractOwnGeometry_name.
Qed.

(** The nodes of an extracted scene carry the resolved names of entities
    of the input. *)
Lemma extracted_names scale map_entities n :
  n ∈ children (extracted_scene scale map_entities) ->
  exists entry shapeData ifcObject,
    entry ∈ map_entities ∧ entry.2 = Some shapeData
    ∧ m_ifc_object_definition shapeData = Some ifcObject
    ∧ name n = GetEntityName (Some ifcObject).
Proof.
  unfold extracted_scene, ExtractGeometryData.
  assert (forall c,
    n ∈ children (m_rootNode
           (foldl (fun c entry => ExtractEntity scale entry c) c
                  map_entities)) ->
    n ∈ children (m_rootNode c)
    ∨ exists entry shapeData ifcObject,
        entry ∈ map_entities ∧ entry.2 = Some shapeData
        ∧ m_ifc_object_definition shapeData = Some ifcObject
        ∧ name n = GetEntityName (Some ifcObject)) as Hfold.
  { induction map_entities as [|entry l IH]; intros c Hn; [by left|].
    simpl in Hn. destruct (IH _ Hn) as [Hc|(e & sd & o & He & ?)].
    - unfold ExtractEntity in Hc.
      destruct entry.2 as [shapeData|] eqn:E2; [|by left].
      destruct (m_ifc_object_definition shapeData) as [ifcObject|] eqn:Eo;
        [|by left].
      simpl in Hc. destruct (empty _); [by left|].
      simpl in Hc. apply elem_of_app in Hc as [Hc|Hc]; [by left|].
      apply list_elem_of_singleton in Hc as ->.
      right. exists entry, shapeData, ifcObject.
      split_and!; [left|done|done|].
      by rewrite ExtractShapeData_placed, extract_placed_name.
    - right. exists e, sd, o. split; [by right|done]. }
  intros Hn. destruct (Hfold _ Hn) as [Hc|?]; [|done].
  by apply elem_of_nil in Hc.
Qed.

(** C10 — The scene name, every node name and every mesh name is written
    into both JSON documents between two quote characters exactly as it
    is, whatever characters it holds: after the key [name] come a quote,
    the characters of the name (for a mesh, followed by [_Mesh]) and a
    quote.  The name of a node of an extracted scene is the resolved name
    of an entity, which is the entity's name attribute, character by
    character, whenever that attribute is present and not empty. *)
Theorem names_written_verbatim args root n :
  n ∈ children root ->
  (forall s, name_entry s =
             dq +:+ "name" +:+ dq +:+ ": " +:+ dq +:+ s +:+ dq)
  ∧ occurs_in (name_entry (name root)) (WriteGltfJson args root)
  ∧ occurs_in (name_entry (name root)) (WriteGltfJsonForGlb root)
  ∧ occurs_in (name_entry (name n)) (WriteGltfJson args root)
  ∧ occurs_in (name_entry (name n)) (WriteGltfJsonForGlb root)
  ∧ (empty (geometries n) = false ->
     occurs_in (name_entry (name n +:+ "_Mesh")) (WriteGltfJson args root)
     ∧ occurs_in (name_entry (name n +:+ "_Mesh"))
                 (WriteGltfJsonForGlb root))
  ∧ (forall scale map_entities,
       root = extracted_scene scale map_entities ->
       exists entry shapeData ifcObject,
         entry ∈ map_entities ∧ entry.2 = Some shapeData
         ∧ m_ifc_object_definition shapeData = Some ifcObject
         ∧ name n = GetEntityName (Some ifcObject))
  ∧ (forall entity ifcRoot s,
       as_IfcRoot entity = Some ifcRoot -> m_Name ifcRoot = Some s ->
       s <> EmptyString -> GetEntityName (Some entity) = s).
Proof.
  intros Hn. split_and!.
  - intros s. unfold name_entry, key, cat. simpl.
    by rewrite !append_nil_r, !append_assoc.
  - eapply occurs_in_trans; [apply name_in_preamble|].
    apply occurs_in_cat. in_list.
  - eapply occurs_in_trans; [apply name_in_preamble|].
    apply occurs_in_cat. in_list.
  - eapply occurs_in_trans; [by apply name_in_WriteNodes|].
    apply occurs_in_cat. in_list.
  - eapply occurs_in_trans; [by apply name_in_WriteNodes|].
    apply occurs_in_cat. in_list.
  - intros Hne. split.
    + eapply occurs_in_trans; [by apply name_in_WriteMeshes|].
      apply occurs_in_cat. in_list.
    + eapply occurs_in_trans; [by apply name_in_WriteMeshes|].
      apply occurs_in_cat. in_list.
  - intros scale map_entities ->. by apply (extracted_names scale).
  - intros entity ifcRoot s Hroot Hname Hs. unfold GetEntityName.
    rewrite Hroot, Hname. by destruct s.
Qed.

(** *** File names *)


Lemma string_take_drop n s : string_take n s +:+ string_drop n s = s.
Proof.
  revert s. induction n as [|n IH]; intros [|a s]; try done.
  simpl. by rewrite append_cons, IH.
Qed.

Lemma string_take_all n s :
  (String.length s <= n)%nat -> string_take n s = s.
Proof.
  revert s. induction n as [|n IH]; intros [|a s] Hn; simpl in *;
    try done; try lia.
  rewrite IH by lia. done.
Qed.

Lemma string_take_length pre post :
  string_take (String.length pre) (pre +:+ post) = pre.
Proof.
  induction pre as [|a pre IH]; [by destruct post|].
  rewrite append_cons. simpl. by rewrite IH.
Qed.

Lemma string_drop_length pre post :
  string_drop (String.length pre) (pre +:+ post) = post.
Proof.
  induction pre as [|a pre IH]; [by destruct post|].
  rewrite append_cons. simpl. exact IH.
Qed.







End Text.

(** ** The GLB container *)

Section Container.
Context `{Numerics}.

Lemma round_up4_bounds n : n <= round_up4 n < n + 4 ∧ round_up4 n mod 4 = 0.
Proof.
  unfold round_up4.
  pose proof (Z.div_mod (n + 3) 4 ltac:(lia)).
  pose proof (Z.mod_pos_bound (n + 3) 4 ltac:(lia)).
  split; [lia|]. rewrite Z.mul_comm. apply Z.mod_mul. lia.
Qed.

Lemma third_uint32_header a b c rest :
  third_uint32 ((le32 a ++ le32 b ++ le32 c) ++ rest) = u32 c.
Proof.
  unfold third_uint32. rewrite <- read_le32_le32. reflexivity.
Qed.

Lemma mjoin_length4 {A} (f : A -> list byte) l :
  (forall a, length (f a) = 4%nat) ->
  vsize (mjoin (f <$> l)) = 4 * vsize l.
Proof.
  intros Hf. unfold vsize.
  induction l as [|a l IH]; [done|].
  change (mjoin (f <$> a :: l)) with (f a ++ mjoin (f <$> l)).
  rewrite length_app, Hf. cbn [length]. lia.
Qed.

Lemma geometry_bytes_size g : vsize (geometry_bytes g) = geometry_size g.
Proof.
  unfold geometry_bytes, geometry_size. rewrite !vsize_app.
  rewrite !(mjoin_length4 float_bytes) by apply float_bytes_length.
  rewrite (mjoin_length4 le32) by apply le32_length. lia.
Qed.

Lemma CollectBinaryData_size root :
  vsize (CollectBinaryData root) = scene_size root.
Proof.
  unfold CollectBinaryData, scene_size.
  induction (scene_geometries root) as [|g l IH]; [done|].
  change (mjoin (geometry_bytes <$> g :: l))
    with (geometry_bytes g ++ mjoin (geometry_bytes <$> l)).
  rewrite vsize_app, geometry_bytes_size, IH. done.
Qed.

(** C1 — For every scene whose GLB file is shorter than 2^32 bytes, the
    file starts with the twelve-byte header whose third [uint32] is the
    length [12 + 8 + alignedJsonLength + (0 or 8 + alignedBinaryLength)],
    which is the length of the file; the aligned lengths are the chunk
    lengths rounded up to the next multiple of four; the JSON chunk is
    its text followed by spaces up to the aligned length, the binary
    chunk is the blob followed by zero bytes up to the aligned length,
    and no binary chunk is written when the blob is empty. *)
Theorem glb_layout root :
  glb_length root < 2 ^ 32 ->
  let jsonString := WriteGltfJsonForGlb root in
  let binaryData := CollectBinaryData root in
  let jsonSize := Z.of_nat (String.length jsonString) in
  let alignedJsonLength := round_up4 jsonSize in
  let alignedBinaryLength := round_up4 (vsize binaryData) in
  glb_bytes root =
    le32 Glb.magic ++ le32 Glb.version ++ le32 (glb_length root)
      ++ le32 alignedJsonLength ++ le32 Glb.jsonType
      ++ bytes_of_string jsonString
      ++ replicate (Z.to_nat (alignedJsonLength - jsonSize)) x20
      ++ (if empty binaryData then []
          else le32 alignedBinaryLength ++ le32 Glb.binaryType
                 ++ binaryData
                 ++ replicate
                      (Z.to_nat (alignedBinaryLength - vsize binaryData))
                      x00)
  ∧ third_uint32 (glb_bytes root) = glb_length root
  ∧ vsize (glb_bytes root) = glb_length root
  ∧ (jsonSize <= alignedJsonLength < jsonSize + 4
     ∧ alignedJsonLength mod 4 = 0)
  ∧ (vsize binaryData <= alignedBinaryLength < vsize binaryData + 4
     ∧ alignedBinaryLength mod 4 = 0)
  ∧ (forall fs args,
       can_open fs (outputFile args) = true ->
       WriteGlbFile fs args root = (true, [(outputFile args, glb_bytes root)])).
Proof.
  intros Hfit jsonString binaryData jsonSize alignedJsonLength
    alignedBinaryLength.
  unfold glb_length in Hfit.
  fold jsonString binaryData jsonSize alignedJsonLength
    alignedBinaryLength in Hfit.
  pose proof (round_up4_bounds jsonSize) as [HJ HJ4].
  pose proof (round_up4_bounds (vsize binaryData)) as [HB HB4].
  fold alignedJsonLength in HJ, HJ4. fold alignedBinaryLength in HB, HB4.
  assert (0 <= jsonSize) as HJ0 by (unfold jsonSize; lia).
  pose proof (vsize_nonneg binaryData) as HB0.
  assert (align4 jsonSize = alignedJsonLength) as EJ.
  { apply align4_spec; [done|]. destruct (empty binaryData); word_lia. }
  assert (empty binaryData = false ->
          align4 (vsize binaryData) = alignedBinaryLength) as EB.
  { intros E. apply align4_spec; [done|]. rewrite E in Hfit. word_lia. }
  assert (Glb.WriteGlbHeader jsonString binaryData =
          le32 Glb.magic ++ le32 Glb.version ++ le32 (glb_length root))
    as Eheader.
  { unfold Glb.WriteGlbHeader, glb_length.
    fold jsonString binaryData jsonSize alignedJsonLength
      alignedBinaryLength.
    rewrite EJ. do 3 f_equal.
    destruct (empty binaryData) eqn:E.
    - apply u32_small. word_lia.
    - rewrite EB by done. rewrite (u32_small (8 + _)) by word_lia.
      apply u32_small. word_lia. }
  assert (glb_bytes root =
    (le32 Glb.magic ++ le32 Glb.version ++ le32 (glb_length root))
      ++ le32 alignedJsonLength ++ le32 Glb.jsonType
      ++ bytes_of_string jsonString
      ++ replicate (Z.to_nat (alignedJsonLength - jsonSize)) x20
      ++ (if empty binaryData then []
          else le32 alignedBinaryLength ++ le32 Glb.binaryType
                 ++ binaryData
                 ++ replicate
                      (Z.to_nat (alignedBinaryLength - vsize binaryData))
                      x00)) as Ebytes.
  { unfold glb_bytes. fold jsonString binaryData. rewrite Eheader.
    unfold Glb.WriteGlbJsonChunk. fold jsonSize. rewrite EJ.
    rewrite <- !app_assoc. do 6 f_equal.
    destruct (empty binaryData) eqn:E; [done|].
    unfold Glb.WriteGlbBinaryChunk. by rewrite EB. }
  refine (conj _ (conj _ (conj _
            (conj (conj HJ HJ4) (conj (conj HB HB4) _))))).
  - rewrite Ebytes. by rewrite <- !app_assoc.
  - rewrite Ebytes, third_uint32_header. apply u32_small.
    unfold glb_length.
    fold jsonString binaryData jsonSize alignedJsonLength
      alignedBinaryLength.
    destruct (empty binaryData); word_lia.
  - rewrite Ebytes. unfold glb_length.
    fold jsonString binaryData jsonSize alignedJsonLength
      alignedBinaryLength.
    rewrite !vsize_app. unfold vsize at 1 2 3 4 5 6 7.
    rewrite !le32_length, bytes_of_string_length, length_replicate.
    fold jsonSize.
    destruct (empty binaryData).
    + change (vsize []) with 0. lia.
    + rewrite !vsize_app. unfold vsize at 1 2 4.
      rewrite !le32_length, length_replicate. lia.
  - intros fs args Hopen. unfold WriteGlbFile. by rewrite Hopen.
Qed.

(** *** Scenes that are too large for the length field *)

Lemma third_uint32_small root : third_uint32 (glb_bytes root) < 2 ^ 32.
Proof.
  unfold glb_bytes, Glb.WriteGlbHeader.
  rewrite third_uint32_header. apply u32_range.
Qed.

Lemma glb_length_large root :
  2 ^ 32 <= scene_size root -> 2 ^ 32 <= glb_length root.
Proof.
  intros Hlarge. unfold glb_length.
  rewrite <- CollectBinaryData_size in Hlarge.
  pose proof (round_up4_bounds (vsize (CollectBinaryData root))) as [? _].
  pose proof (round_up4_bounds
    (Z.of_nat (String.length (WriteGltfJsonForGlb root)))) as [? _].
  destruct (CollectBinaryData root) as [|b l] eqn:E.
  - unfold vsize in Hlarge. simpl in Hlarge. word_lia.
  - simpl empty. cbv iota. lia.
Qed.

Lemma ExtractFace_triangle_sizes localTransform f g :
  length (loop f) = 3%nat ->
  let r := ExtractFace localTransform (Some f) g in
  vsize (vertices r) = vsize (vertices g) + 9
  ∧ vsize (normals r) = vsize (normals g) + 9
  ∧ vsize (indices r) = vsize (indices g) + 3.
Proof.
  intros Hn r. subst r.
  rewrite ExtractFace_fan by (unfold vsize; rewrite Hn; word_lia || lia).
  rewrite vertices_push_triangles, normals_push_triangles,
    indices_push_triangles, !vsize_app.
  pose proof (fan_length (loop f)) as Hlen. rewrite Hn in Hlen.
  destruct (fan (loop f)) as [|t [|t' ts]]; try done.
Qed.

Lemma faces_replicate_sizes localTransform f k : forall g,
  length (loop f) = 3%nat ->
  let r := foldl (fun g face => ExtractFace localTransform face g) g
                 (replicate k (Some f)) in
  vsize (vertices r) = vsize (vertices g) + 9 * Z.of_nat k
  ∧ vsize (normals r) = vsize (normals g) + 9 * Z.of_nat k
  ∧ vsize (indices r) = vsize (indices g) + 3 * Z.of_nat k.
Proof.
  induction k as [|k IH]; intros g Hn; [simpl; lia|].
  cbn [replicate foldl].
  destruct (ExtractFace_triangle_sizes localTransform f g Hn)
    as (Ev & En & Ei).
  destruct (IH (ExtractFace localTransform (Some f) g) Hn)
    as (Ev' & En' & Ei').
  cbv zeta in *. rewrite Ev', En', Ei', Ev, En, Ei. lia.
Qed.

Lemma finish_sizes scale g :
  vsize (vertices (finish scale g)) = vsize (vertices g)
  ∧ vsize (normals (finish scale g)) = vsize (normals g)
  ∧ vsize (indices (finish scale g)) = vsize (indices g).
Proof.
  unfold finish.
  destruct (CalculateBounds_vectors (ApplyScale g scale))
    as (Ev & En & _ & Ei & _).
  rewrite Ev, En, Ei. unfold ApplyScale.
  destruct (negb _); [|done]. simpl. unfold vsize.
  by rewrite length_fmap.
Qed.

(** A shape whose only item has one closed mesh of [k] triangular faces
    takes [84] bytes per face. *)
Lemma scene_size_triangles scale key object localTransform f k :
  length (loop f) = 3%nat -> (0 < k)%nat ->
  scene_size
    (extracted_scene scale
       [(key,
         Some {| m_ifc_object_definition := Some object;
                 getTransform := localTransform;
                 getGeometricItems :=
                   [ {| m_meshsets :=
                          [Some {| meshes :=
                                     [Some {| faces :=
                                                replicate k (Some f) |}] |}];
                        m_meshsets_open := [];
                        m_vec_item_appearances := [];
                        m_child_items := [] |} ];
                 getChildElements := [] |})])
  = 84 * Z.of_nat k.
Proof.
  intros Hn Hk.
  unfold extracted_scene, ExtractGeometryData. cbn [foldl].
  unfold ExtractEntity. cbn [snd m_ifc_object_definition].
  rewrite ExtractShapeData_placed.
  set (item := Build_ItemShapeData _ _ _ _).
  change (placed_items _) with [(localTransform, item)].
  unfold extract_placed. cbn [foldl fst snd].
  unfold ExtractOwnGeometry.
  destruct (ExtractMaterialFromItem item _) as [id materials].
  set (raw := raw_geometry id localTransform item).
  pose proof (faces_replicate_sizes localTransform f k
    {| vertices := []; normals := []; texCoords := []; indices := [];
       materialId := id;
       minBounds := minBounds GeometryData_new;
       maxBounds := maxBounds GeometryData_new |} Hn) as Hsizes.
  cbv zeta in Hsizes. cbn [vertices normals indices] in Hsizes.
  change (foldl _ _ (replicate k (Some f))) with raw in Hsizes.
  change (vsize []) with 0 in Hsizes.
  destruct Hsizes as (Ev & En & Ei).
  assert (empty (vertices raw) = false) as ->.
  { destruct (vertices raw); [|done].
    unfold vsize in Ev. simpl in Ev. lia. }
  cbn [node geometries push_geometry GltfNode_new app empty m_rootNode
       Converter_new children].
  unfold scene_size, scene_geometries.
  cbn [children fmap list_fmap geometries mjoin list_join app foldr].
  unfold push_geometry, GltfNode_new. cbn [geometries app foldr].
  unfold geometry_size.
  change (CalculateBounds (ApplyScale raw scale)) with (finish scale raw).
  destruct (finish_sizes scale raw) as (Ev' & En' & Ei').
  rewrite Ev', En', Ei'. lia.
Qed.

End Container.

(** ** The material registry *)

Section Materials.
Context `{Numerics}.

Lemma first_appearance_spec appearances (m : gmap string MaterialData) :
  if existsb usable appearances then
    exists material,
      first_appearance appearances m
      = Some (material_key (stdpp.base.size m),
              <[material_key (stdpp.base.size m) := material]> m)
      ∧ material_name material = material_key (stdpp.base.size m)
  else first_appearance appearances m = None.
Proof.
  induction appearances as [|a rest IH]; [done|].
  cbn [existsb first_appearance].
  destruct a as [a|]; cbn [usable orb]; [|exact IH].
  destruct (m_color_rgba a) as [|c0 [|c1 [|c2 [|c3 more]]]] eqn:Hc;
    cbn [length]; try (rewrite bool_decide_false by lia; exact IH).
  rewrite bool_decide_true by lia. cbn [orb]. eexists. split; reflexivity.
Qed.

Lemma material_key_fresh (m : gmap string MaterialData) :
  numbered m -> m !! material_key (stdpp.base.size m) = None.
Proof.
  intros Hm. destruct (m !! material_key (stdpp.base.size m)) eqn:E; [|done].
  destruct (Hm _ (mk_is_Some _ _ E)) as [Hd | (n & Hn & Hk)].
  - discriminate Hd.
  - unfold material_key in Hk. apply (inj (String.app "Material_")) in Hk.
    apply (inj pretty) in Hk. lia.
Qed.

Lemma numbered_empty : numbered ∅.
Proof. intros key [d Hd]. discriminate Hd. Qed.

Lemma numbered_insert_fresh (m : gmap string MaterialData) material :
  numbered m ->
  numbered (<[material_key (stdpp.base.size m) := material]> m).
Proof.
  intros Hm key Hkey.
  pose proof (material_key_fresh m Hm) as Hfresh.
  rewrite map_size_insert_None by done.
  destruct (decide (key = material_key (stdpp.base.size m))) as [->|Hne].
  - right. exists (stdpp.base.size m). split; [lia|done].
  - rewrite lookup_insert_ne in Hkey by done.
    destruct (Hm key Hkey) as [->|(n & Hn & ->)]; [by left|].
    right. exists n. split; [lia|done].
Qed.

Lemma numbered_insert_default (m : gmap string MaterialData) material :
  numbered m -> m !! "default" = None ->
  numbered (<["default" := material]> m).
Proof.
  intros Hm Hnone key Hkey. rewrite map_size_insert_None by done.
  destruct (decide (key = "default")) as [->|Hne]; [by left|].
  rewrite lookup_insert_ne in Hkey by done.
  destruct (Hm key Hkey) as [->|(n & Hn & ->)]; [by left|].
  right. exists n. split; [lia|done].
Qed.

(** What one call of [ExtractMaterialFromItem] does to the registry. *)
Lemma ExtractMaterialFromItem_spec item (m : gmap string MaterialData) :
  numbered m ->
  let id := (ExtractMaterialFromItem item m).1 in
  let m' := (ExtractMaterialFromItem item m).2 in
  numbered m' ∧ m ⊆ m' ∧ is_Some (m' !! id)
  ∧ (if existsb usable (m_vec_item_appearances item) then
       id = material_key (stdpp.base.size m) ∧ m !! id = None
       ∧ stdpp.base.size m' = S (stdpp.base.size m)
     else
       id = "default"
       ∧ (is_Some (m !! "default") -> m' = m)
       ∧ (m !! "default" = None ->
          stdpp.base.size m' = S (stdpp.base.size m))).
Proof.
  intros Hm. cbv zeta. unfold ExtractMaterialFromItem.
  pose proof (first_appearance_spec (m_vec_item_appearances item) m) as Hfirst.
  destruct (existsb usable (m_vec_item_appearances item)).
  - destruct Hfirst as (material & -> & _). cbn [fst snd].
    pose proof (material_key_fresh m Hm) as Hfresh.
    split_and!.
    + by apply numbered_insert_fresh.
    + by apply insert_subseteq.
    + rewrite lookup_insert_eq. by eexists.
    + done.
    + done.
    + by rewrite map_size_insert_None.
  - rewrite Hfirst. cbn [fst snd].
    destruct (m !! "default") as [d|] eqn:Hd.
    + by split_and!.
    + unfold CreateDefaultMaterial. split_and!.
      * by apply numbered_insert_default.
      * by apply insert_subseteq.
      * rewrite lookup_insert_eq. by eexists.
      * done.
      * intros [? Hsome]. discriminate Hsome.
      * intros _. by rewrite map_size_insert_None.
Qed.

Lemma numbered_registry_of items : numbered (registry_of items).
Proof.
  unfold registry_of. apply foldl_preserves; [|apply numbered_empty].
  intros m item Hm.
  by destruct (ExtractMaterialFromItem_spec item m Hm) as (? & _).
Qed.

Lemma materialId_ExtractFace localTransform face g :
  materialId (ExtractFace localTransform face g) = materialId g.
Proof.
  destruct face as [f|]; [|done]. cbn [ExtractFace].
  destruct (bool_decide (n_edges f < 3)); [done|].
  unfold triangulate.
  apply (foldl_preserves (fun r => materialId r = materialId g)); [|done].
  intros r i Hr.
  by destruct (loop f !! 0%nat), (loop f !! i), (loop f !! S i).
Qed.

Lemma materialId_raw_geometry id localTransform item :
  materialId (raw_geometry id localTransform item) = id.
Proof.
  apply (preserved_raw_geometry (fun g => materialId g = id)); [|done].
  intros T face g Hg. by rewrite materialId_ExtractFace.
Qed.

Lemma materialId_finish scale g : materialId (finish scale g) = materialId g.
Proof.
  unfold finish.
  destruct (CalculateBounds_vectors (ApplyScale g scale))
    as (_ & _ & _ & _ & ->).
  unfold ApplyScale. by destruct (negb (float_eq scale lit_1_0f)).
Qed.

Lemma registered_weaken (m m' : gmap string MaterialData) g :
  m ⊆ m' -> registered m g -> registered m' g.
Proof. intros Hsub [d Hd]. exists d. by eapply lookup_weaken. Qed.

Lemma ExtractOwnGeometry_registry scale item localTransform st :
  numbered (m_materials st) ->
  Forall (registered (m_materials st)) (geometries (node st)) ->
  let st' := ExtractOwnGeometry scale item localTransform st in
  numbered (m_materials st') ∧ m_materials st ⊆ m_materials st'
  ∧ Forall (registered (m_materials st')) (geometries (node st')).
Proof.
  intros Hm Hreg. cbv zeta. unfold ExtractOwnGeometry.
  destruct (ExtractMaterialFromItem_spec item (m_materials st) Hm)
    as (Hm' & Hsub & Hid & _).
  destruct (ExtractMaterialFromItem item (m_materials st)) as [id m'].
  cbn [fst snd] in Hm', Hsub, Hid. cbn [m_materials node].
  split_and!; [done..|].
  assert (Forall (registered m') (geometries (node st))) as Hold.
  { eapply Forall_impl; [exact Hreg|]. intros g. by apply registered_weaken. }
  destruct (empty (vertices (raw_geometry id localTransform item))); [done|].
  cbn [push_geometry geometries]. apply Forall_app. split; [done|].
  apply Forall_singleton. unfold registered.
  change (CalculateBounds (ApplyScale ?g scale)) with (finish scale g).
  by rewrite materialId_finish, materialId_raw_geometry.
Qed.

Lemma extract_placed_registry scale items : forall st,
  numbered (m_materials st) ->
  Forall (registered (m_materials st)) (geometries (node st)) ->
  let st' := extract_placed scale st items in
  numbered (m_materials st') ∧ m_materials st ⊆ m_materials st'
  ∧ Forall (registered (m_materials st')) (geometries (node st')).
Proof.
  induction items as [|p items IH]; intros st Hm Hreg; [done|].
  destruct (ExtractOwnGeometry_registry scale p.2 p.1 st Hm Hreg)
    as (Hm1 & Hsub1 & Hreg1).
  destruct (IH _ Hm1 Hreg1) as (Hm2 & Hsub2 & Hreg2).
  cbv zeta. unfold extract_placed. cbn [foldl].
  split_and!; [done| |done]. by etrans.
Qed.

Lemma ExtractEntity_registry scale entry c :
  registry_covers c -> registry_covers (ExtractEntity scale entry c).
Proof.
  intros [Hm Hreg]. unfold ExtractEntity.
  destruct entry.2 as [shapeData|]; [|done].
  destruct (m_ifc_object_definition shapeData) as [ifcObject|]; [|done].
  rewrite ExtractShapeData_placed.
  set (st0 := {| node := _; m_materials := registry c |}).
  destruct (extract_placed_registry scale (placed_items shapeData) st0)
    as (Hm' & Hsub & Hreg'); [done|by apply Forall_nil|].
  split; cbn [registry m_rootNode]; [done|].
  assert (Forall (fun n => Forall
            (registered (m_materials
               (extract_placed scale st0 (placed_items shapeData))))
            (geometries n)) (children (m_rootNode c))) as Hold.
  { eapply Forall_impl; [exact Hreg|]. intros n Hn.
    eapply Forall_impl; [exact Hn|]. intros g. by apply registered_weaken. }
  destruct (empty _); [done|]. cbn [children].
  apply Forall_app. split; [done|]. by apply Forall_singleton.
Qed.

Lemma ExtractGeometryData_registry scale map_entities : forall c,
  registry_covers c ->
  registry_covers (ExtractGeometryData scale map_entities c).
Proof.
  induction map_entities as [|entry rest IH]; intros c Hc; [done|].
  apply IH. by apply ExtractEntity_registry.
Qed.

Lemma m_materials_extract_placed scale items : forall st,
  m_materials (extract_placed scale st items)
  = foldl (fun m item => (ExtractMaterialFromItem item m).2)
          (m_materials st) items.*2.
Proof.
  induction items as [|p items IH]; intros st; [done|].
  unfold extract_placed in *. cbn [foldl fmap list_fmap]. rewrite IH.
  f_equal. unfold ExtractOwnGeometry.
  by destruct (ExtractMaterialFromItem p.2 (m_materials st)).
Qed.

Lemma registry_ExtractGeometryData scale map_entities : forall c,
  registry (ExtractGeometryData scale map_entities c)
  = foldl (fun m item => (ExtractMaterialFromItem item m).2)
          (registry c) (converted_items map_entities).
Proof.
  induction map_entities as [|entry rest IH]; intros c; [done|].
  unfold ExtractGeometryData, converted_items in *.
  cbn [foldl]. rewrite IH, bind_cons, foldl_app. f_equal.
  unfold ExtractEntity.
  destruct entry.2 as [shapeData|]; [|done].
  destruct (m_ifc_object_definition shapeData) as [ifcObject|]; [|done].
  cbn [registry].
  by rewrite ExtractShapeData_placed, m_materials_extract_placed.
Qed.

(** X1 — After a conversion, the material registry is the one that the
    calls of [ExtractMaterialFromItem] on the visited items build from the
    empty registry, whatever the scale and the geometry; each of its keys
    is [default] or a [Material_<k>] with [k] at most its size; and the
    material id of every geometry record of the scene is one of its
    keys. *)
Theorem materials_registered scale map_entities :
  let c := ExtractGeometryData scale map_entities Converter_new in
  registry c = registry_of (converted_items map_entities)
  ∧ numbered (registry c)
  ∧ Forall (fun g => is_Some (registry c !! materialId g))
           (scene_geometries (m_rootNode c)).
Proof.
  cbv zeta.
  destruct (ExtractGeometryData_registry scale map_entities Converter_new)
    as [Hm Hreg].
  { split; [apply numbered_empty|by apply Forall_nil]. }
  split_and!; [apply registry_ExtractGeometryData|done|].
  unfold scene_geometries.
  induction Hreg as [|n l Hn Hl IH]; [by apply Forall_nil|].
  change (mjoin (geometries <$> n :: l))
    with (geometries n ++ mjoin (geometries <$> l)).
  apply Forall_app. by split.
Qed.

(** X2 — On a registry built by earlier calls, [ExtractMaterialFromItem]
    never changes or removes an entry, and the id it returns is a key of
    the registry afterwards.  For an item with a usable appearance (one
    that is present and has at least four colour components) the id is
    the new key [Material_<size + 1>], which was not in the registry, and
    the registry grows by one; otherwise the id is [default], which is
    added on first use and left alone afterwards. *)
Theorem material_registry_grows items item :
  let m := registry_of items in
  let id := (ExtractMaterialFromItem item m).1 in
  let m' := (ExtractMaterialFromItem item m).2 in
  (forall key material, m !! key = Some material ->
     m' !! key = Some material)
  ∧ is_Some (m' !! id)
  ∧ (if existsb usable (m_vec_item_appearances item) then
       id = "Material_" +:+ pretty (Z.of_nat (stdpp.base.size m) + 1)
       ∧ m !! id = None
       ∧ stdpp.base.size m' = S (stdpp.base.size m)
     else
       id = "default"
       ∧ (is_Some (m !! "default") -> m' = m)
       ∧ (m !! "default" = None ->
          stdpp.base.size m' = S (stdpp.base.size m))).
Proof.
  cbv zeta.
  destruct (ExtractMaterialFromItem_spec item (registry_of items)
              (numbered_registry_of items)) as (_ & Hsub & Hid & Hcases).
  split_and!; [|done|exact Hcases].
  intros key material Hkey. by eapply lookup_weaken.
Qed.

End Materials.

(** ** The contents of a geometry record *)

Section Contents.
Context `{Numerics}.

Lemma u32_succ n k : u32 (u32 n + k) = u32 (n + k).
Proof. unfold u32. by rewrite Zplus_mod_idemp_l. Qed.

Lemma sequential_push_triangle localTransform normal v0 v1 v2 g :
  sequential g -> sequential (push_triangle localTransform normal v0 v1 v2 g).
Proof.
  intros [Hv Hi]. unfold sequential, push_triangle.
  cbn [vertices indices]. rewrite !vsize_app.
  replace (vsize (vertices g) / 3) with (vsize (indices g))
    by (rewrite Hv, Z.mul_comm, Z.div_mul; lia).
  split; [unfold vsize in *; cbn [length]; lia|].
  change (vsize [_; _; _]) with 3.
  rewrite seqZ_app by (pose proof (vsize_nonneg (indices g)); lia).
  rewrite fmap_app, <- Hi. f_equal.
  rewrite !u32_succ.
  replace (seqZ (0 + vsize (indices g)) 3)
    with [vsize (indices g); vsize (indices g) + 1; vsize (indices g) + 2];
    [done|].
  unfold seqZ. change (Z.to_nat 3) with 3%nat. cbn [seq fmap list_fmap].
  f_equal. f_equal; [lia|]. f_equal; lia.
Qed.

Lemma sequential_ExtractFace localTransform face g :
  sequential g -> sequential (ExtractFace localTransform face g).
Proof.
  intros Hg. destruct face as [f|]; [|done]. cbn [ExtractFace].
  destruct (bool_decide (n_edges f < 3)); [done|].
  unfold triangulate. apply foldl_preserves; [|done].
  intros r i Hr.
  destruct (loop f !! 0%nat), (loop f !! i), (loop f !! S i); try done.
  by apply sequential_push_triangle.
Qed.

Lemma indices_finish scale g : indices (finish scale g) = indices g.
Proof.
  unfold finish.
  destruct (CalculateBounds_vectors (ApplyScale g scale))
    as (_ & _ & _ & -> & _).
  unfold ApplyScale. by destruct (negb (float_eq scale lit_1_0f)).
Qed.

Lemma sequential_finish scale g : sequential g -> sequential (finish scale g).
Proof.
  intros [Hv Hi]. unfold sequential.
  destruct (finish_sizes scale g) as (-> & _ & _).
  by rewrite indices_finish.
Qed.

Lemma seqZ_u32 n : n <= 2 ^ 32 -> u32 <$> seqZ 0 n = seqZ 0 n.
Proof.
  intros Hn. apply list_eq. intros i. rewrite list_lookup_fmap.
  destruct (seqZ 0 n !! i) as [k|] eqn:E; [|done]. cbn.
  apply lookup_seqZ in E as [-> Hi]. rewrite u32_small; [done|lia].
Qed.

(** X3 — Every geometry record of a converted scene holds at least one
    triangle and only whole triangles, with two texture coordinates per
    vertex, and no vertex is shared: there is one index per vertex, and
    the index array is [0, 1, 2, ...] in order (reduced modulo 2^32, which
    changes nothing up to 2^32 vertices). *)
Theorem vertices_are_not_shared scale map_entities :
  Forall (fun g =>
            0 < vsize (vertices g) ∧ vsize (vertices g) mod 9 = 0
            ∧ 2 * vsize (vertices g) = 3 * vsize (texCoords g)
            ∧ vsize (vertices g) = 3 * vsize (indices g)
            ∧ indices g = u32 <$> seqZ 0 (vsize (indices g))
            ∧ (vsize (indices g) <= 2 ^ 32 ->
               indices g = seqZ 0 (vsize (indices g))))
         (scene_geometries (extracted_scene scale map_entities)).
Proof.
  pose proof (extracted_scene_finished scale map_entities) as Hfinished.
  pose proof (extracted_scene_well_formed scale map_entities) as Hformed.
  induction Hfinished as [|g l (id & localTransform & item & _ & ->) _ IH];
    [by apply Forall_nil|].
  apply Forall_cons in Hformed as [[_ (Hpos & Hwhole & Htex)] Hformed].
  apply Forall_cons. split; [|by apply IH].
  assert (sequential (finish scale (raw_geometry id localTransform item)))
    as [Hv Hi].
  { apply sequential_finish.
    apply (preserved_raw_geometry sequential); [|done].
    intros T face r. apply sequential_ExtractFace. }
  split_and!; [done..|]. intros Hsmall. by rewrite Hi at 1; rewrite seqZ_u32.
Qed.

Lemma ExtractMeshSet_faces meshset localTransform g :
  ExtractMeshSet meshset localTransform g =
  foldl (fun g f => ExtractFace localTransform (Some f) g) g
        (faces_of_meshset meshset).
Proof.
  destruct meshset as [ms|]; [|done]. cbn [ExtractMeshSet faces_of_meshset].
  revert g. apply foldl_bind. apply Forall_forall. intros mesh _ g.
  destruct mesh as [m|]; [|done].
  revert g. apply foldl_bind. apply Forall_forall. intros face _ g.
  by destruct face.
Qed.

Lemma raw_geometry_faces id localTransform item :
  raw_geometry id localTransform item =
  foldl (fun g f => ExtractFace localTransform (Some f) g)
        {| vertices := []; normals := []; texCoords := []; indices := [];
           materialId := id;
           minBounds := minBounds GeometryData_new;
           maxBounds := maxBounds GeometryData_new |}
        (faces_of_item item).
Proof.
  unfold raw_geometry, faces_of_item. rewrite bind_app, foldl_app.
  rewrite <- !(foldl_bind
    (fun g meshset => ExtractMeshSet meshset localTransform g)); [done|..];
    apply Forall_forall; intros meshset _ g; apply ExtractMeshSet_faces.
Qed.

Lemma ExtractFace_any_fan localTransform f g :
  vsize (loop f) < 2 ^ 64 ->
  ExtractFace localTransform (Some f) g =
  push_triangles localTransform (plane_N f) (fan (loop f)) g.
Proof.
  intros Hsize. destruct (decide (3 <= length (loop f))%nat) as [Hn|Hn].
  - by apply ExtractFace_fan.
  - cbn [ExtractFace]. unfold n_edges, vsize.
    rewrite bool_decide_true by lia.
    destruct (loop f) as [|a [|b [|c l]]]; [done..|]. cbn [length] in Hn. lia.
Qed.

Lemma normals_push_triangles_bind localTransform normal ts : forall g,
  normals (push_triangles localTransform normal ts g) =
  normals g ++ (ts ≫= (fun _ => coordinates normal ++ coordinates normal
                                  ++ coordinates normal)).
Proof.
  induction ts as [|t ts IH]; intros g.
  - cbn. by rewrite app_nil_r.
  - unfold push_triangles in *. cbn [foldl]. rewrite IH.
    cbn [push_triangle normals]. rewrite bind_cons, <- app_assoc. done.
Qed.

Lemma fan_indices_size first n :
  vsize (fan_indices first n) = 3 * Z.of_nat n.
Proof.
  revert first. induction n as [|n IHn]; intros first; [done|].
  cbn [fan_indices]. rewrite vsize_app, IHn. unfold vsize. cbn. lia.
Qed.

Lemma faces_pushed localTransform fs : forall g,
  Forall (fun f => vsize (loop f) < 2 ^ 64) fs ->
  let r := foldl (fun g f => ExtractFace localTransform (Some f) g) g fs in
  vertices r = vertices g ++ (fs ≫= face_coordinates localTransform)
  ∧ normals r = normals g ++ (fs ≫= face_normals)
  ∧ vsize (indices r)
    = vsize (indices g) + 3 * vsize (fs ≫= fun f => fan (loop f)).
Proof.
  induction fs as [|f fs IH]; intros g Hfs; cbv zeta.
  - cbn. rewrite !app_nil_r. split_and!; [done..|]. unfold vsize. cbn. lia.
  - apply Forall_cons in Hfs as [Hf Hfs]. cbn [foldl].
    destruct (IH (ExtractFace localTransform (Some f) g) Hfs)
      as (-> & -> & ->).
    rewrite ExtractFace_any_fan by done.
    rewrite vertices_push_triangles, normals_push_triangles_bind,
      indices_push_triangles.
    rewrite !bind_cons, <- !app_assoc, !vsize_app.
    split_and!; [done..|].
    rewrite fan_indices_size. unfold vsize. lia.
Qed.

(** X4 — The record [ExtractGeometricItems] fills for an item is the
    concatenation, face by face, of the fans of the item's faces: the
    faces of the closed mesh sets first, then those of the open ones,
    null mesh sets, meshes and faces passed over, faces with fewer than
    three vertices contributing nothing.  Its normals repeat each face's
    plane normal once per corner, it has three indices per triangle, and
    it carries the material id it was created with. *)
Theorem record_is_the_fans_of_its_faces id localTransform item :
  Forall (fun f => vsize (loop f) < 2 ^ 64) (faces_of_item item) ->
  let raw := raw_geometry id localTransform item in
  vertices raw = faces_of_item item ≫= face_coordinates localTransform
  ∧ normals raw = faces_of_item item ≫= face_normals
  ∧ vsize (indices raw)
    = 3 * vsize (faces_of_item item ≫= fun f => fan (loop f))
  ∧ materialId raw = id.
Proof.
  intros Hfs. cbv zeta. split_and!; [..|apply materialId_raw_geometry];
    rewrite raw_geometry_faces;
    match goal with
    | |- context [foldl _ ?g0 _] =>
        destruct (faces_pushed localTransform (faces_of_item item) g0 Hfs)
          as (Hv & Hn & Hi)
    end.
  - by rewrite Hv.
  - by rewrite Hn.
  - rewrite Hi. cbn [indices]. unfold vsize at 1. cbn [length]. lia.
Qed.

End Contents.

(** ** The outline of the scene *)

Section Outline.
Context `{Numerics}.

Lemma foldl_related {A B} (R : A -> A -> Prop) (f : A -> B -> A) l :
  (forall a a' b, R a a' -> R (f a b) (f a' b)) ->
  forall a a', R a a' -> R (foldl f a l) (foldl f a' l).
Proof.
  intros Hf. induction l as [|b l IH]; intros a a' Ha; [done|].
  cbn [foldl]. by apply IH, Hf.
Qed.

Lemma vertices_ExtractFace localTransform face g g' :
  vertices g = vertices g' ->
  vertices (ExtractFace localTransform face g)
  = vertices (ExtractFace localTransform face g').
Proof.
  intros Hg. destruct face as [f|]; [|done]. cbn [ExtractFace].
  destruct (bool_decide (n_edges f < 3)); [done|].
  unfold triangulate.
  apply (foldl_related (fun r r' => vertices r = vertices r')); [|done].
  intros r r' i Hr.
  destruct (loop f !! 0%nat), (loop f !! i), (loop f !! S i); try done.
  unfold push_triangle. cbn [vertices]. by rewrite Hr.
Qed.

Lemma vertices_raw_geometry id id' localTransform item :
  vertices (raw_geometry id localTransform item)
  = vertices (raw_geometry id' localTransform item).
Proof.
  rewrite !raw_geometry_faces.
  apply (foldl_related (fun r r' => vertices r = vertices r')); [|done].
  intros r r' f. apply vertices_ExtractFace.
Qed.

Lemma ExtractOwnGeometry_outline scale item localTransform st :
  let st' := ExtractOwnGeometry scale item localTransform st in
  name (node st') = name (node st) ∧ type (node st') = type (node st)
  ∧ length (geometries (node st'))
    = (length (geometries (node st))
       + length (List.filter yields_record [(localTransform, item)]))%nat.
Proof.
  cbv zeta. unfold ExtractOwnGeometry.
  destruct (ExtractMaterialFromItem item (m_materials st)) as [id materials].
  cbn [node List.filter]. unfold yields_record. cbn [fst snd].
  rewrite (vertices_raw_geometry EmptyString id).
  destruct (empty (vertices (raw_geometry id localTransform item)));
    cbn [negb length push_geometry name type geometries].
  - split_and!; [done..|lia].
  - split_and!; [done..|]. rewrite length_app. done.
Qed.

Lemma extract_placed_outline scale items : forall st,
  let st' := extract_placed scale st items in
  name (node st') = name (node st) ∧ type (node st') = type (node st)
  ∧ length (geometries (node st'))
    = (length (geometries (node st))
       + length (List.filter yields_record items))%nat.
Proof.
  induction items as [|[localTransform item] items IH]; intros st; cbv zeta.
  - cbn. split_and!; [done..|lia].
  - unfold extract_placed in *. cbn [foldl fst snd].
    destruct (IH (ExtractOwnGeometry scale item localTransform st))
      as (-> & -> & ->).
    destruct (ExtractOwnGeometry_outline scale item localTransform st)
      as (-> & -> & ->).
    split_and!; [done..|].
    cbn [List.filter]. destruct (yields_record (localTransform, item));
      cbn [length]; lia.
Qed.

Lemma ExtractEntity_outline scale entry c :
  node_outline <$> children (m_rootNode (ExtractEntity scale entry c))
  = (node_outline <$> children (m_rootNode c))
      ++ option_list (entity_outline entry)
  ∧ name (m_rootNode (ExtractEntity scale entry c)) = name (m_rootNode c)
  ∧ geometries (m_rootNode (ExtractEntity scale entry c))
    = geometries (m_rootNode c).
Proof.
  unfold ExtractEntity, entity_outline.
  destruct entry.2 as [shapeData|]; [|by rewrite app_nil_r].
  destruct (m_ifc_object_definition shapeData) as [ifcObject|];
    [|by rewrite app_nil_r].
  rewrite ExtractShapeData_placed.
  set (st0 := {| node := _; m_materials := registry c |}).
  destruct (extract_placed_outline scale (placed_items shapeData) st0)
    as (Hname & Htype & Hcount).
  cbn [m_rootNode]. cbn [st0 node GltfNode_new name type geometries length]
    in Hname, Htype, Hcount.
  destruct (geometries
              (node (extract_placed scale st0 (placed_items shapeData))))
    as [|g gs] eqn:Hg; cbn [empty length] in *.
  - replace (length (List.filter yields_record (placed_items shapeData)))
      with 0%nat by lia.
    by rewrite app_nil_r.
  - replace (length (List.filter yields_record (placed_items shapeData)))
      with (S (length gs)) by lia.
    cbn [children name geometries option_list].
    split_and!; [|done..]. rewrite fmap_app. f_equal.
    cbn [fmap list_fmap]. unfold node_outline. by rewrite Hname, Htype, Hg.
Qed.

(** X5 — The scene of a conversion is the root node [Scene] without
    records of its own and, in the order of the shape-data map, one node
    for each entry that has shape data, a live object definition and at
    least one item with vertices among the items of the shape and of its
    descendants; the node has the entity's name and type and one record
    for each such item.  Entries without such an item give no node. *)
Theorem scene_outline scale map_entities :
  let root := extracted_scene scale map_entities in
  name root = "Scene" ∧ geometries root = []
  ∧ node_outline <$> children root = omap entity_outline map_entities.
Proof.
  cbv zeta. unfold extracted_scene, ExtractGeometryData.
  assert (forall c,
    let c' := foldl (fun c entry => ExtractEntity scale entry c) c
                    map_entities in
    name (m_rootNode c') = name (m_rootNode c)
    ∧ geometries (m_rootNode c') = geometries (m_rootNode c)
    ∧ node_outline <$> children (m_rootNode c')
      = (node_outline <$> children (m_rootNode c))
          ++ omap entity_outline map_entities) as Hfold.
  { induction map_entities as [|entry rest IH]; intros c; cbv zeta.
    - cbn. by rewrite app_nil_r.
    - cbn [foldl]. destruct (IH (ExtractEntity scale entry c))
        as (-> & -> & ->).
      destruct (ExtractEntity_outline scale entry c) as (-> & -> & ->).
      split_and!; [done..|]. rewrite <- app_assoc. f_equal.
      cbn [omap list_omap]. by destruct (entity_outline entry). }
  by destruct (Hfold Converter_new) as (-> & -> & ->).
Qed.

End Outline.

(** ** The bounding box encloses the vertices *)

Section Enclosure.
Context `{Numerics}.

Lemma strict_order_spec vs :
  strict_order vs = true ->
  (forall a, a ∈ vs -> float_lt a a = false)
  ∧ (forall a b c, a ∈ vs -> b ∈ vs -> c ∈ vs ->
       float_lt a b = true -> float_lt b c = true -> float_lt a c = true).
Proof.
  unfold strict_order. rewrite forallb_forall. intros Hall. split.
  - intros a Ha%list_elem_of_In. apply Hall in Ha.
    apply andb_prop in Ha as [Ha _]. by apply negb_true_iff.
  - intros a b c Ha%list_elem_of_In Hb%list_elem_of_In Hc%list_elem_of_In
      Hab Hbc.
    apply Hall in Ha. apply andb_prop in Ha as [_ Ha].
    rewrite forallb_forall in Ha. apply Ha in Hb.
    rewrite forallb_forall in Hb. apply Hb in Hc.
    by rewrite Hab, Hbc in Hc.
Qed.

Section Ordered.
Variable all : list float.
Hypothesis irreflexive : forall a, a ∈ all -> float_lt a a = false.
Hypothesis transitive : forall a b c, a ∈ all -> b ∈ all -> c ∈ all ->
  float_lt a b = true -> float_lt b c = true -> float_lt a c = true.

Lemma std_min_lower a b :
  a ∈ all -> b ∈ all ->
  float_lt b (std_min a b) = false
  ∧ forall x, x ∈ all -> float_lt x a = false ->
      float_lt x (std_min a b) = false.
Proof.
  intros Ha Hb. unfold std_min. destruct (float_lt b a) eqn:Hba.
  - split; [by apply irreflexive|]. intros x Hx Hxa.
    destruct (float_lt x b) eqn:Hxb; [|done].
    by rewrite (transitive x b a) in Hxa.
  - by split.
Qed.

Lemma std_max_upper a b :
  a ∈ all -> b ∈ all ->
  float_lt (std_max a b) b = false
  ∧ forall x, x ∈ all -> float_lt a x = false ->
      float_lt (std_max a b) x = false.
Proof.
  intros Ha Hb. unfold std_max. destruct (float_lt a b) eqn:Hab.
  - split; [by apply irreflexive|]. intros x Hx Hax.
    destruct (float_lt b x) eqn:Hbx; [|done].
    by rewrite (transitive a b x) in Hax.
  - by split.
Qed.

Lemma CalculateBounds_loop_encloses rest : forall mn mx,
  rest ⊆ all ->
  (mn.1.1 ∈ all ∧ mn.1.2 ∈ all ∧ mn.2 ∈ all) ->
  (mx.1.1 ∈ all ∧ mx.1.2 ∈ all ∧ mx.2 ∈ all) ->
  let r := CalculateBounds_loop rest mn mx in
  (forall p, (p.1.1 ∈ all ∧ p.1.2 ∈ all ∧ p.2 ∈ all) ->
     encloses mn mx p -> encloses r.1 r.2 p)
  ∧ Forall (encloses r.1 r.2) (points rest).
Proof.
  induction rest as [| | |a b c rest IH] using list_triples_ind;
    intros [[mn0 mn1] mn2] [[mx0 mx1] mx2] Hsub Hmn Hmx; cbv zeta;
    try (split; [done|by apply Forall_nil]).
  cbn [fst snd] in Hmn, Hmx.
  destruct Hmn as (Hmn0 & Hmn1 & Hmn2), Hmx as (Hmx0 & Hmx1 & Hmx2).
  assert (a ∈ all) as Ha by (apply Hsub, list_elem_of_here).
  assert (b ∈ all) as Hb
    by (apply Hsub, list_elem_of_further, list_elem_of_here).
  assert (c ∈ all) as Hc
    by (apply Hsub; do 2 apply list_elem_of_further; apply list_elem_of_here).
  cbn [CalculateBounds_loop points].
  destruct (IH (std_min mn0 a, std_min mn1 b, std_min mn2 c)
               (std_max mx0 a, std_max mx1 b, std_max mx2 c))
    as [Hmono Hrest].
  { intros v Hv. apply Hsub. by do 3 apply list_elem_of_further. }
  { cbn [fst snd]. split_and!; by apply std_min_elem. }
  { cbn [fst snd]. split_and!; by apply std_max_elem. }
  destruct (std_min_lower mn0 a Hmn0 Ha) as [Ha0 Hl0].
  destruct (std_min_lower mn1 b Hmn1 Hb) as [Hb0 Hl1].
  destruct (std_min_lower mn2 c Hmn2 Hc) as [Hc0 Hl2].
  destruct (std_max_upper mx0 a Hmx0 Ha) as [Ha1 Hu0].
  destruct (std_max_upper mx1 b Hmx1 Hb) as [Hb1 Hu1].
  destruct (std_max_upper mx2 c Hmx2 Hc) as [Hc1 Hu2].
  split.
  - intros [[p0 p1] p2] Hp Henc. apply Hmono; [done|].
    cbn [fst snd] in Hp. destruct Hp as (Hp0 & Hp1 & Hp2).
    destruct Henc as ((? & ?) & (? & ?) & (? & ?)). cbn [fst snd] in *.
    unfold encloses. cbn [fst snd].
    split_and!; first [by apply Hl0 | by apply Hl1 | by apply Hl2
                      | by apply Hu0 | by apply Hu1 | by apply Hu2].
  - apply Forall_cons. split; [|done].
    apply Hmono; [done|]. unfold encloses. by cbn [fst snd].
Qed.

End Ordered.

(** X6 — Where [<] is irreflexive and transitive on the coordinates of a
    record, the box [CalculateBounds] computes encloses every vertex of
    the record: no coordinate of a vertex is less than the minimum or
    greater than the maximum on its axis. *)
Theorem bounding_box_encloses_vertices g :
  strict_order (vertices g) = true ->
  Forall (encloses (minBounds (CalculateBounds g))
                   (maxBounds (CalculateBounds g)))
         (points (vertices g)).
Proof.
  intros [Hirr Htrans]%strict_order_spec. unfold CalculateBounds.
  destruct (vertices g) as [|v0 [|v1 [|v2 rest]]] eqn:Hv;
    try by apply Forall_nil.
  assert (v0 ∈ v0 :: v1 :: v2 :: rest) as H0 by apply list_elem_of_here.
  assert (v1 ∈ v0 :: v1 :: v2 :: rest) as H1
    by apply list_elem_of_further, list_elem_of_here.
  assert (v2 ∈ v0 :: v1 :: v2 :: rest) as H2
    by (do 2 apply list_elem_of_further; apply list_elem_of_here).
  destruct (CalculateBounds_loop_encloses (v0 :: v1 :: v2 :: rest)
              Hirr Htrans rest (v0, v1, v2) (v0, v1, v2))
    as [Hmono Hrest]; [|done..|].
  { intros v Hin. by do 3 apply list_elem_of_further. }
  destruct (CalculateBounds_loop rest (v0, v1, v2) (v0, v1, v2)) as [mn mx].
  cbn [minBounds maxBounds fst snd points] in *.
  apply Forall_cons. split; [|done].
  apply Hmono; [done|].
  unfold encloses. cbn [fst snd]. split_and!; by apply Hirr.
Qed.

End Enclosure.

(** ** The buffer views and the binary blob *)

Section Blob.
Context `{Numerics}.





End Blob.

(** ** Nodes, meshes and accessors refer to each other *)

Section References.
Context `{Numerics}.


Lemma imap_zip_with {A B C} (h : B -> C -> string) (p : A -> B) l :
  forall (f : nat -> A -> string) (g : nat -> A -> C),
    (forall i a, f i a = h (p a) (g i a)) ->
    imap f l = zip_with h (p <$> l) (imap g l).
Proof.
  induction l as [|a l IH]; intros f g Hfg; [done|].
  cbn [imap fmap list_fmap zip_with]. rewrite Hfg. f_equal.
  apply IH. intros i b. apply Hfg.
Qed.

(** [WriteNodes] writes the names of the nodes with the references of
    [node_meshes]. *)
Lemma WriteNodes_entries root :
  WriteNodes root =
  cat [
    "  "; key "nodes"; ": ["; nl;
    separated ("," +:+ nl)
      (zip_with stream_node (name <$> children root) (node_meshes root));
    nl; "  ],"; nl ].
Proof.
  unfold WriteNodes, node_meshes.
  rewrite <- (imap_zip_with stream_node name (children root)
                (fun i node =>
                   cat [
                     "    {"; nl;
                     "      "; key "name"; ": "; key (name node);
                     (if empty (geometries node) then EmptyString
                      else cat [","; nl; "      "; key "mesh"; ": ";
                                stream_size_t (Z.of_nat i)]);
                     nl; "    }" ])); [done|].
  intros i node. unfold stream_node. by destruct (empty (geometries node)).
Qed.

(** The text of a primitive names the accessors [primitive_accessors]
    lists. *)
Lemma stream_primitive_accessors accessorIndex :
  exists position normal index_accessor,
    primitive_accessors accessorIndex = [position; normal; index_accessor]
    ∧ stream_primitive accessorIndex =
      cat [
        "        {"; nl;
        "          "; key "attributes"; ": {"; nl;
        "            "; key "POSITION"; ": "; stream_size_t position; ",";
        nl;
        "            "; key "NORMAL"; ": "; stream_size_t normal; nl;
        "          },"; nl;
        "          "; key "indices"; ": "; stream_size_t index_accessor;
        ","; nl;
        "          "; key "material"; ": 0"; nl;
        "        }" ].
Proof. by eexists _, _, _. Qed.



Lemma lookup_layout geoms : forall k g (j : nat),
  geoms !! k = Some g -> (j < 3)%nat ->
  (geoms ≫= geometry_layout) !! (3 * k + j)%nat = geometry_layout g !! j.
Proof.
  induction geoms as [|g0 geoms IH]; intros k g j Hk Hj; [done|].
  rewrite bind_cons. destruct k as [|k].
  - injection Hk as ->. by rewrite lookup_app_l.
  - rewrite lookup_app_r by (cbn; lia).
    replace (3 * S k + j - length (geometry_layout g0))%nat
      with (3 * k + j)%nat by (cbn; lia).
    by apply IH.
Qed.


End References.

(** ** What the writers read of a scene *)

Section Written.
Context `{Numerics}.

Lemma fmap_cons_inv {A B} (f : A -> B) a l b k :
  f <$> a :: l = f <$> b :: k -> f a = f b ∧ f <$> l = f <$> k.
Proof. intros Heq. cbn [fmap list_fmap] in Heq. split; congruence. Qed.

Lemma written_part_inv g1 g2 :
  written_part g1 = written_part g2 ->
  vertices g1 = vertices g2 ∧ normals g1 = normals g2
  ∧ indices g1 = indices g2 ∧ minBounds g1 = minBounds g2
  ∧ maxBounds g1 = maxBounds g2.
Proof. unfold written_part. intros Heq. split_and!; congruence. Qed.

Lemma written_node_inv n1 n2 :
  written_node n1 = written_node n2 ->
  name n1 = name n2
  ∧ empty (geometries n1) = empty (geometries n2)
  ∧ vsize (geometries n1) = vsize (geometries n2).
Proof.
  unfold written_node. intros Heq.
  assert (written_part <$> geometries n1 = written_part <$> geometries n2)
    as Hg by congruence.
  split; [congruence|].
  apply (f_equal length) in Hg. rewrite !length_fmap in Hg.
  unfold vsize. rewrite Hg.
  split; [|done]. by destruct (geometries n1), (geometries n2).
Qed.

Lemma written_scene_geometries nodes1 : forall nodes2,
  written_node <$> nodes1 = written_node <$> nodes2 ->
  written_part <$> mjoin (geometries <$> nodes1)
  = written_part <$> mjoin (geometries <$> nodes2).
Proof.
  induction nodes1 as [|n1 nodes1 IH]; intros [|n2 nodes2] Heq;
    try done.
  apply fmap_cons_inv in Heq as [Hn Hrest].
  assert (written_part <$> geometries n1 = written_part <$> geometries n2)
    as Hg by (unfold written_node in Hn; congruence).
  change (mjoin (geometries <$> ?n :: ?l))
    with (geometries n ++ mjoin (geometries <$> l)).
  rewrite !fmap_app. by rewrite Hg, (IH nodes2).
Qed.

Lemma WriteNodes_written nodes1 : forall nodes2 (f : nat -> nat),
  written_node <$> nodes1 = written_node <$> nodes2 ->
  imap (fun i node =>
          cat [
            "    {"; nl;
            "      "; key "name"; ": "; key (name node);
            (if empty (geometries node) then EmptyString
             else cat [","; nl; "      "; key "mesh"; ": ";
                       stream_size_t (Z.of_nat (f i))]);
            nl; "    }" ]) nodes1
  = imap (fun i node =>
          cat [
            "    {"; nl;
            "      "; key "name"; ": "; key (name node);
            (if empty (geometries node) then EmptyString
             else cat [","; nl; "      "; key "mesh"; ": ";
                       stream_size_t (Z.of_nat (f i))]);
            nl; "    }" ]) nodes2.
Proof.
  induction nodes1 as [|n1 nodes1 IH]; intros [|n2 nodes2] f Heq;
    try done.
  apply fmap_cons_inv in Heq as [Hn Hrest].
  apply written_node_inv in Hn as (Hname & Hempty & _).
  cbn [imap]. rewrite Hname, Hempty. f_equal.
  apply (IH nodes2 (f ∘ S) Hrest).
Qed.

Lemma WriteMeshes_loop_written nodes1 : forall nodes2 accessorIndex,
  written_node <$> nodes1 = written_node <$> nodes2 ->
  WriteMeshes_loop accessorIndex nodes1
  = WriteMeshes_loop accessorIndex nodes2.
Proof.
  induction nodes1 as [|n1 nodes1 IH]; intros [|n2 nodes2] accessorIndex Heq;
    try done.
  apply fmap_cons_inv in Heq as [Hn Hrest].
  apply written_node_inv in Hn as (Hname & Hempty & Hsize).
  cbn [WriteMeshes_loop]. rewrite Hname, Hempty, Hsize.
  destruct (empty (geometries n2)); [by apply IH|].
  f_equal. by apply IH.
Qed.

Lemma accessors_loop_written geoms1 : forall geoms2 bufferViewIndex,
  written_part <$> geoms1 = written_part <$> geoms2 ->
  accessors_loop bufferViewIndex geoms1
  = accessors_loop bufferViewIndex geoms2.
Proof.
  induction geoms1 as [|g1 geoms1 IH]; intros [|g2 geoms2] bufferViewIndex Heq;
    try done.
  apply fmap_cons_inv in Heq as [Hg Hrest].
  apply written_part_inv in Hg as (Hv & Hn & Hi & Hmn & Hmx).
  cbn [accessors_loop]. unfold geometry_accessors.
  rewrite Hv, Hi, Hmn, Hmx. f_equal. by apply IH.
Qed.

Lemma bufferViews_loop_written geoms1 : forall geoms2 byteOffset0,
  written_part <$> geoms1 = written_part <$> geoms2 ->
  bufferViews_loop byteOffset0 geoms1 = bufferViews_loop byteOffset0 geoms2
  ∧ foldl (fun total geom => next_byteOffset total geom) byteOffset0 geoms1
    = foldl (fun total geom => next_byteOffset total geom) byteOffset0 geoms2
  ∧ mjoin (geometry_bytes <$> geoms1) = mjoin (geometry_bytes <$> geoms2).
Proof.
  induction geoms1 as [|g1 geoms1 IH]; intros [|g2 geoms2] byteOffset0 Heq;
    try done.
  apply fmap_cons_inv in Heq as [Hg Hrest].
  apply written_part_inv in Hg as (Hv & Hn & Hi & Hmn & Hmx).
  cbn [bufferViews_loop foldl].
  change (mjoin (geometry_bytes <$> ?g :: ?l))
    with (geometry_bytes g ++ mjoin (geometry_bytes <$> l)).
  assert (next_byteOffset byteOffset0 g1 = next_byteOffset byteOffset0 g2)
    as ->
    by (unfold next_byteOffset; by rewrite Hv, Hn, Hi).
  assert (geometry_bufferViews byteOffset0 g1
          = geometry_bufferViews byteOffset0 g2) as ->
    by (unfold geometry_bufferViews; by rewrite Hv, Hn, Hi).
  assert (geometry_bytes g1 = geometry_bytes g2) as ->
    by (unfold geometry_bytes; by rewrite Hv, Hn, Hi).
  by destruct (IH geoms2 (next_byteOffset byteOffset0 g2) Hrest)
    as (-> & -> & ->).
Qed.

(** X9 — The output depends on a scene only through the names of the root
    and of the nodes and through the positions, normals, indices and
    bounding box of each geometry record: two scenes that agree on these
    give the same glTF document, the same GLB document, the same binary
    blob and the same GLB file.  The material id and the texture
    coordinates of a record, and the type of a node, are never
    written. *)
Theorem output_is_positions_normals_indices args root1 root2 :
  written_scene root1 = written_scene root2 ->
  WriteGltfJson args root1 = WriteGltfJson args root2
  ∧ WriteGltfJsonForGlb root1 = WriteGltfJsonForGlb root2
  ∧ CollectBinaryData root1 = CollectBinaryData root2
  ∧ glb_bytes root1 = glb_bytes root2.
Proof.
  unfold written_scene. intros Heq.
  assert (name root1 = name root2) as Hname by congruence.
  assert (written_node <$> children root1 = written_node <$> children root2)
    as Hnodes by congruence.
  clear Heq.
  pose proof (written_scene_geometries _ _ Hnodes) as Hgeoms.
  fold (scene_geometries root1) (scene_geometries root2) in Hgeoms.
  assert (vsize (children root1) = vsize (children root2)) as Hcount.
  { apply (f_equal length) in Hnodes. rewrite !length_fmap in Hnodes.
    unfold vsize. by rewrite Hnodes. }
  assert (WriteNodes root1 = WriteNodes root2) as ENodes.
  { unfold WriteNodes.
    by rewrite (WriteNodes_written _ _ (fun i => i) Hnodes). }
  assert (WriteMeshes root1 = WriteMeshes root2) as EMeshes.
  { unfold WriteMeshes. by rewrite (WriteMeshes_loop_written _ _ 0 Hnodes). }
  assert (WriteAccessors root1 = WriteAccessors root2) as EAccessors.
  { unfold WriteAccessors, accessors.
    by rewrite (accessors_loop_written _ _ 0 Hgeoms). }
  destruct (bufferViews_loop_written _ _ 0 Hgeoms)
    as (EViews & ETotal & EBytes).
  assert (WriteBufferViews root1 = WriteBufferViews root2) as EBufferViews.
  { unfold WriteBufferViews, bufferViews. by rewrite EViews. }
  assert (forall generator,
            stream_preamble generator root1 = stream_preamble generator root2)
    as EPreamble.
  { intros generator. unfold stream_preamble. by rewrite Hname, Hcount. }
  assert (WriteGltfJsonForGlb root1 = WriteGltfJsonForGlb root2) as EGlb.
  { unfold WriteGltfJsonForGlb, WriteBuffersForGlb, totalBytes.
    by rewrite EPreamble, ENodes, EMeshes, EAccessors, EBufferViews, ETotal. }
  assert (CollectBinaryData root1 = CollectBinaryData root2) as EData
    by exact EBytes.
  split_and!; [|done|done|].
  - unfold WriteGltfJson, WriteBuffers, totalBytes.
    by rewrite EPreamble, ENodes, EMeshes, EAccessors, EBufferViews, ETotal.
  - unfold glb_bytes. by rewrite EGlb, EData.
Qed.

End Written.

(** ** The sidecar file and its uri *)

Section Extension.
Context `{Numerics}.


















End Extension.

(** ** Names and types of the nodes *)

Section Labels.
Context `{Numerics}.

Lemma substring_take_drop s : forall n m,
  String.substring n m s = string_take m (string_drop n s).
Proof.
  induction s as [|a s IH]; intros [|n] [|m]; cbn; try done;
    by rewrite IH.
Qed.

Lemma string_drop_all_length n s :
  String.length (string_drop n s) = (String.length s - n)%nat.
Proof.
  revert s. induction n as [|n IH]; intros [|a s]; cbn; try done; lia.
Qed.

Lemma string_take_le n s : (String.length (string_take n s) <= n)%nat.
Proof.
  revert s. induction n as [|n IH]; intros [|a s]; cbn; try lia.
  specialize (IH s). lia.
Qed.

(** X11 — [GetEntityName] never returns the empty string.  For a null
    entity both functions return [Unknown].  Otherwise [GetEntityType]
    returns [IfcProduct] when [Ifc] does not occur in the type name, and
    else the part of the type name from its first occurrence of [Ifc]
    on. *)
Theorem entity_labels (entity : option IfcObjectDefinition) :
  GetEntityName entity <> EmptyString
  ∧ (entity = None -> GetEntityName entity = "Unknown"
                      ∧ GetEntityType entity = "Unknown")
  ∧ (forall e, entity = Some e ->
       (GetEntityType entity = "IfcProduct"
        ∧ forall before rest, typeid_name e <> before +:+ "Ifc" +:+ rest)
       ∨ exists before rest,
           typeid_name e = before +:+ "Ifc" +:+ rest
           ∧ GetEntityType entity = "Ifc" +:+ rest
           ∧ forall b r, typeid_name e = b +:+ "Ifc" +:+ r ->
               (String.length before <= String.length b)%nat).
Proof.
  split_and!.
  - destruct entity as [e|]; [|done]. cbn [GetEntityName].
    destruct (as_IfcRoot e) as [root|]; [|done].
    by destruct (m_Name root) as [[|c s]|], (m_GlobalId root) as [[|c' s']|].
  - by intros ->.
  - intros e ->. cbn [GetEntityType].
    destruct (String.index 0 "Ifc" (typeid_name e)) as [pos|] eqn:Hindex.
    + right. pose proof (String.index_correct1 _ _ _ _ Hindex) as Hsub.
      rewrite substring_take_drop in *.
      exists (string_take pos (typeid_name e)),
             (string_drop 3 (string_drop pos (typeid_name e))).
      rewrite (string_take_all _ (string_drop pos (typeid_name e)))
        by (rewrite string_drop_all_length; lia).
      assert (string_drop pos (typeid_name e)
              = "Ifc" +:+ string_drop 3 (string_drop pos (typeid_name e)))
        as Hdrop.
      { rewrite <- Hsub at 1.
        change (String.length "Ifc") with 3%nat.
        by rewrite string_take_drop. }
      split_and!; [|exact Hdrop|].
      * rewrite <- Hdrop. by rewrite string_take_drop.
      * intros b r Hname.
        pose proof (string_take_le pos (typeid_name e)) as Hle.
        destruct (decide (String.length (string_take pos (typeid_name e))
                          <= String.length b)%nat) as [|Hlt]; [done|].
        exfalso.
        apply (String.index_correct2 _ _ _ _ Hindex (String.length b));
          [lia|lia|].
        rewrite Hname, substring_take_drop, string_drop_length.
        apply (string_take_length "Ifc").
    + left. split; [done|]. intros before rest Hname.
      apply (String.index_correct3 _ (String.length before) _ _ Hindex);
        [done|lia|].
      rewrite Hname, substring_take_drop, string_drop_length.
      apply (string_take_length "Ifc").
Qed.

End Labels.

(** ** The outcome of a run *)

Section Outcome.
Context `{Numerics}.

Lemma WriteOutputFile_outcome fs args root :
  (WriteOutputFile fs args root).1 = can_open fs (outputFile args)
  ∧ (can_open fs (outputFile args) = false ->
     (WriteOutputFile fs args root).2 = [])
  ∧ (can_open fs (outputFile args) = true ->
     exists content sidecar,
       (WriteOutputFile fs args root).2
         = (outputFile args, content) :: sidecar
       ∧ (outputGlb args = true -> sidecar = [])
       ∧ Forall (fun file => file.1 = sidecar_path (outputFile args)
                             ∧ outputGlb args = false) sidecar
       ∧ (length sidecar <= 1)%nat).
Proof.
  unfold WriteOutputFile, WriteGlbFile, WriteGltfFile, WriteBinaryData.
  fold (sidecar_path (outputFile args)).
  destruct (outputGlb args), (can_open fs (outputFile args)); cbn;
    (split_and!; [done|done|]); try done; intros _.
  - eexists _, []. split_and!; [done|done|by apply Forall_nil|cbn; lia].
  - destruct (can_open fs (sidecar_path (outputFile args))); cbn.
    + eexists _, [_]. split_and!; [done|done| |cbn; lia].
      by apply Forall_singleton.
    + eexists _, []. split_and!; [done|done|by apply Forall_nil|cbn; lia].
Qed.

(** X12 — [main] returns 0 exactly when the arguments it works with are
    valid, the file loads, the geometry converts and the output file can
    be opened; otherwise it returns 1 and writes no file.  A successful
    run writes the output file first and, in glTF mode only, at most one
    more file, the sidecar. *)
Theorem conversion_outcome fs ifc parsed :
  let args := effective_args parsed in
  let ok :=
    ValidateArgs args && LoadIFCFile ifc (inputFile args)
    && bool_decide (is_Some (ConvertGeometry ifc (inputFile args)))
    && can_open fs (outputFile args) in
  (main fs ifc parsed).1 = (if ok then 0 else 1)
  ∧ (ok = false -> (main fs ifc parsed).2 = [])
  ∧ (ok = true ->
     exists content sidecar,
       (main fs ifc parsed).2 = (outputFile args, content) :: sidecar
       ∧ (outputGlb args = true -> sidecar = [])
       ∧ Forall (fun file => file.1 = sidecar_path (outputFile args)
                             ∧ outputGlb args = false) sidecar
       ∧ (length sidecar <= 1)%nat).
Proof.
  cbv zeta. unfold main. fold (effective_args parsed).
  set (args := effective_args parsed).
  destruct (ValidateArgs args); cbn [negb andb]; [|done].
  unfold Convert.
  destruct (LoadIFCFile ifc (inputFile args)); cbn [negb andb]; [|done].
  destruct (ConvertGeometry ifc (inputFile args)) as [map_entities|];
    [|done].
  rewrite bool_decide_eq_true_2 by done. cbn [andb].
  set (root := m_rootNode _).
  destruct (WriteOutputFile_outcome fs args root) as (Hok & Hno & Hyes).
  destruct (WriteOutputFile fs args root) as [success files].
  cbn [fst snd] in *. subst success.
  by destruct (can_open fs (outputFile args)); split_and!.
Qed.

Lemma main_status fs ifc parsed :
  let r := main fs ifc parsed in
  (r.1 = 0
   ∧ exists content sidecar,
       r.2 = (outputFile (effective_args parsed), content) :: sidecar)
  ∨ (r.1 = 1 ∧ r.2 = []).
Proof.
  cbv zeta. unfold main. fold (effective_args parsed).
  set (args := effective_args parsed).
  destruct (ValidateArgs args); cbn [negb]; [|by right].
  unfold Convert.
  destruct (LoadIFCFile ifc (inputFile args)); cbn [negb]; [|by right].
  destruct (ConvertGeometry ifc (inputFile args)) as [map_entities|];
    [|by right].
  unfold WriteOutputFile, WriteGlbFile, WriteGltfFile.
  destruct (outputGlb args), (can_open fs (outputFile args)); cbn;
    first [by right | left; split; [done|]; by eexists _, _].
Qed.

Lemma ParseCommandLine_loop_explained lib all : forall n rest args,
  (length rest <= n)%nat -> rest ⊆ all -> from_arguments lib all args ->
  explained lib all (ParseCommandLine_loop lib rest args).
Proof.
  induction n as [|n IH]; intros rest args Hn Hsub Hargs.
  { destruct rest; [done|cbn in Hn; lia]. }
  destruct rest as [|arg rest]; [done|]. cbn [length] in Hn.
  assert (arg ∈ all) as Harg by (apply Hsub, list_elem_of_here).
  assert (rest ⊆ all) as Hrest
    by (intros v Hv; by apply Hsub, list_elem_of_further).
  destruct Hargs as (Hi & Ho & Hs & Hl & Hg).
  cbn [ParseCommandLine_loop].
  repeat match goal with
  | |- context [String.eqb arg ?s] =>
      destruct (String.eqb_spec arg s) as [->|?]; cbn [orb]
  end;
  lazymatch goal with
  | |- explained _ _ (match rest with [] => _ | _ :: _ => _ end) =>
      destruct rest as [|value rest]; [by split_and!|];
      cbn [length] in Hn;
      assert (value ∈ all) as Hvalue by (apply Hrest, list_elem_of_here);
      assert (rest ⊆ all)
        by (intros v Hv; by apply Hrest, list_elem_of_further);
      lazymatch goal with
      | |- context [stof lib value] =>
          destruct (stof lib value) eqn:?;
            [|exists value; split; [done|by left]]
      | |- context [stoi lib value] =>
          destruct (stoi lib value) eqn:?;
            [|exists value; split; [done|by right]]
      | |- _ => idtac
      end
  | |- explained _ _ Help => first [by left | by right]
  | |- _ => idtac
  end;
  (apply IH; [lia|done|]); unfold from_arguments;
  cbn [inputFile outputFile scale logLevel outputGlb]; split_and!; eauto.
Qed.

(** X13 — Whatever the command line, [ParseCommandLine] ends in one of
    three ways, each explained by an argument after [argv[0]]: it exits
    with the usage text only if [-h] or [--help] is among them; an
    exception leaves it only if [std::stof] or [std::stoi] rejects one of
    them; and in the arguments it returns, every field has its default
    value or was read from one of them, [outputGlb] being set only if
    [--glb] is among them. *)
Theorem ParseCommandLine_explained lib argv :
  explained lib (tail argv) (ParseCommandLine lib argv).
Proof.
  apply (ParseCommandLine_loop_explained lib (tail argv)
           (length (tail argv))); [done|done|].
  unfold from_arguments, CommandLineArgs_new. cbn. split_and!; auto.
  done.
Qed.

(** X14 — The exit status of the program is 0 or 1.  With status 1 no
    file has been written.  With status 0 either the usage text was asked
    for and no file has been written, or the output file named by the
    arguments has been written.  An exception in [ParseCommandLine] gives
    status 1. *)
Theorem exit_status lib fs ifc argv :
  let r := main_argv lib fs ifc argv in
  (r.1 = 0 ∨ r.1 = 1)
  ∧ (r.1 = 1 -> r.2 = [])
  ∧ (r.1 = 0 ->
     ParseCommandLine lib argv = Help ∧ r.2 = []
     ∨ exists parsed content sidecar,
         ParseCommandLine lib argv = Parsed parsed
         ∧ r.2 = (outputFile (effective_args parsed), content) :: sidecar)
  ∧ (ParseCommandLine lib argv = Throws -> r = (1, [])).
Proof.
  cbv zeta. unfold main_argv.
  destruct (ParseCommandLine lib argv) as [parsed| |].
  - destruct (main_status fs ifc parsed)
      as [(-> & content & sidecar & ->)|(-> & ->)].
    + split_and!; [by left|done| |done]. intros _. right.
      by exists parsed, content, sidecar.
    + by split_and!; [right|..].
  - cbn. split_and!; [by left|done| |done]. intros _. by left.
  - cbn. by split_and!; [right|..].
Qed.

End Outcome.

(** ** The index of a material *)

Section MaterialIndex.
Context `{Numerics}.

Lemma registry_keys_spec (m : gmap string MaterialData) key :
  key ∈ registry_keys m <-> is_Some (m !! key).
Proof.
  unfold registry_keys. rewrite merge_sort_Permutation.
  rewrite list_elem_of_fmap. split.
  - intros ([k d] & -> & Hin%elem_of_map_to_list). by exists d.
  - intros [d Hd]. exists (key, d). split; [done|].
    by apply elem_of_map_to_list.
Qed.

Lemma registry_keys_length (m : gmap string MaterialData) :
  length (registry_keys m) = stdpp.base.size m.
Proof.
  unfold registry_keys.
  by rewrite merge_sort_Permutation, length_fmap, length_map_to_list.
Qed.

Lemma GetMaterialIndex_loop_spec keys materialId : forall index,
  ((materialId ∉ keys) ∧ GetMaterialIndex_loop index keys materialId = 0)
  ∨ (exists i,
       keys !! i = Some materialId
       ∧ (forall j, (j < i)%nat -> keys !! j <> Some materialId)
       ∧ GetMaterialIndex_loop index keys materialId = index + Z.of_nat i).
Proof.
  induction keys as [|key rest IH]; intros index.
  - left. split; [apply not_elem_of_nil|done].
  - cbn [GetMaterialIndex_loop].
    destruct (String.eqb_spec key materialId) as [->|Hne].
    + right. exists 0%nat. split_and!; [done|lia|lia].
    + destruct (IH (index + 1)) as [[Hno ->]|(i & Hi & Hfirst & ->)].
      * left. split; [|done]. by apply not_elem_of_cons.
      * right. exists (S i). split_and!; [done| |lia].
        intros [|j] Hj; [cbn; congruence|]. apply Hfirst. lia.
Qed.

(** X15 — [GetMaterialIndex] returns, for an id in the registry, the
    position of that id among the keys in iteration order, a number below
    the size of the registry; for an id that is not in the registry it
    returns 0, which is also what it returns for the first key. *)
Theorem material_index (m : gmap string MaterialData) materialId :
  (m !! materialId = None -> GetMaterialIndex m materialId = 0)
  ∧ (is_Some (m !! materialId) ->
     0 <= GetMaterialIndex m materialId < Z.of_nat (stdpp.base.size m)
     ∧ registry_keys m !! Z.to_nat (GetMaterialIndex m materialId)
       = Some materialId)
  ∧ (forall first, registry_keys m !! 0%nat = Some first ->
       GetMaterialIndex m first = 0)
  ∧ (forall key, key ∈ registry_keys m <-> is_Some (m !! key))
  ∧ Sorted String.le (registry_keys m).
Proof.
  assert (forall first, registry_keys m !! 0%nat = Some first ->
            GetMaterialIndex m first = 0) as Hfirst.
  { intros first. unfold GetMaterialIndex.
    destruct (registry_keys m) as [|k rest]; [done|].
    intros [= ->]. cbn [GetMaterialIndex_loop]. by rewrite String.eqb_refl. }
  unfold GetMaterialIndex.
  destruct (GetMaterialIndex_loop_spec (registry_keys m) materialId 0)
    as [[Hno ->]|(i & Hi & _ & ->)].
  - split_and!;
      [done| |done|apply registry_keys_spec|apply Sorted_merge_sort, _].
    intros Hsome. by apply registry_keys_spec in Hsome.
  - split_and!;
      [|intros _|done|apply registry_keys_spec|apply Sorted_merge_sort, _].
    + intros Hnone. apply list_elem_of_lookup_2, registry_keys_spec in Hi.
      rewrite Hnone in Hi. by destruct Hi.
    + rewrite Z.add_0_l, Nat2Z.id. split; [|done].
      apply lookup_lt_Some in Hi. rewrite registry_keys_length in Hi. lia.
Qed.

End MaterialIndex.

(** ** The emitted arrays, the fans, the scale and the failures *)

Section Conversion.
Context `{Numerics}.

Lemma count_char_append c s t :
  count_char c (s +:+ t) = (count_char c s + count_char c t)%nat.
Proof.
  induction s as [|a s IH]; [done|]. rewrite append_cons.
  cbn [count_char]. rewrite IH. lia.
Qed.

Lemma count_char_separated c sep items :
  count_char c sep = 0%nat ->
  count_char c (separated sep items) = sum_list_with (count_char c) items.
Proof.
  intros Hsep. unfold separated.
  induction items as [|x [|y items] IH]; [done|cbn; lia|].
  change (String.concat sep (x :: y :: items))
    with (x +:+ sep +:+ String.concat sep (y :: items)).
  rewrite !count_char_append, Hsep, IH. cbn. lia.
Qed.

Lemma count_char_array c k entries :
  count_char c (array_text k entries)
  = (count_char c (cat ["  "; key k; ": ["; nl])
     + count_char c (separated ("," +:+ nl) entries)
     + count_char c (cat [nl; "  ],"; nl]))%nat.
Proof.
  unfold array_text. cbn [cat foldr]. rewrite !count_char_append.
  change (count_char c EmptyString) with 0%nat. lia.
Qed.

(** The digits of a number hold no brace. *)
Lemma pretty_N_go_no_brace x : forall s,
  count_char "{" (pretty_N_go x s) = count_char "{" s.
Proof.
  induction (N.lt_wf_0 x) as [x _ IH]; intros s.
  assert (x = 0 ∨ 0 < x)%N as [->|Hx] by lia; [done|].
  rewrite pretty_N_go_step by done.
  rewrite IH by (by apply N.div_lt).
  unfold pretty_N_char. by repeat case_match.
Qed.

Lemma stream_size_t_no_brace n : count_char "{" (stream_size_t n) = 0%nat.
Proof.
  unfold stream_size_t, pretty, pretty_Z.
  destruct n as [|p|p]; [done| |].
  - unfold pretty, pretty_positive, pretty, pretty_N.
    case_decide; [done|]. by rewrite pretty_N_go_no_brace.
  - rewrite count_char_append.
    unfold pretty, pretty_positive, pretty, pretty_N.
    case_decide; [done|]. by rewrite pretty_N_go_no_brace.
Qed.

(** A buffer view is written as one object. *)
Lemma stream_bufferView_braces v :
  count_char "{" (stream_bufferView v) = 1%nat.
Proof.
  unfold stream_bufferView. cbn [cat foldr key].
  rewrite !count_char_append, !stream_size_t_no_brace. reflexivity.
Qed.

Lemma bufferViews_loop_braces geoms : forall byteOffset0,
  sum_list_with (count_char "{")
                (stream_bufferView <$> bufferViews_loop byteOffset0 geoms)
  = (3 * length geoms)%nat.
Proof.
  induction geoms as [|g geoms IH]; intros b; [done|].
  cbn [bufferViews_loop]. rewrite fmap_app, sum_list_with_app, IH.
  unfold geometry_bufferViews. cbn [fmap list_fmap sum_list_with].
  rewrite !stream_bufferView_braces. cbn [length]. lia.
Qed.

(** The three accessors of a record are written as three objects; the
    text of its box is part of the first. *)
Lemma geometry_accessors_braces bufferViewIndex g :
  sum_list_with (count_char "{")
                (stream_accessor <$> geometry_accessors bufferViewIndex g)
  = (3 + box_braces g)%nat.
Proof.
  unfold geometry_accessors, box_braces.
  cbn [fmap list_fmap sum_list_with]. unfold stream_accessor.
  cbn [bufferView componentType count accessor_type min_max cat foldr key].
  rewrite !count_char_append, !stream_size_t_no_brace.
  change (count_char "{" nl) with 0%nat.
  change (count_char "{" dq) with 0%nat.
  cbn [count_char Ascii.eqb Bool.eqb]. lia.
Qed.

Lemma accessors_loop_braces geoms : forall bufferViewIndex,
  sum_list_with (count_char "{")
                (stream_accessor <$> accessors_loop bufferViewIndex geoms)
  = (3 * length geoms + sum_list_with box_braces geoms)%nat.
Proof.
  induction geoms as [|g geoms IH]; intros b; [done|].
  cbn [accessors_loop]. rewrite fmap_app, sum_list_with_app.
  rewrite geometry_accessors_braces, IH.
  cbn [length sum_list_with]. lia.
Qed.

(** The opening braces of the two arrays. *)
Lemma WriteBufferViews_braces root :
  count_char "{" (WriteBufferViews root)
  = (3 * length (scene_geometries root))%nat.
Proof.
  change (WriteBufferViews root)
    with (array_text "bufferViews" (stream_bufferView <$> bufferViews root)).
  rewrite count_char_array, count_char_separated by done.
  unfold bufferViews. rewrite bufferViews_loop_braces.
  change (count_char "{" (cat ["  "; key "bufferViews"; ": ["; nl]))
    with 0%nat.
  change (count_char "{" (cat [nl; "  ],"; nl])) with 0%nat. lia.
Qed.

Lemma WriteAccessors_braces root :
  count_char "{" (WriteAccessors root)
  = (3 * length (scene_geometries root)
     + sum_list_with box_braces (scene_geometries root))%nat.
Proof.
  change (WriteAccessors root)
    with (array_text "accessors" (stream_accessor <$> accessors root)).
  rewrite count_char_array, count_char_separated by done.
  unfold accessors. rewrite accessors_loop_braces.
  change (count_char "{" (cat ["  "; key "accessors"; ": ["; nl]))
    with 0%nat.
  change (count_char "{" (cat [nl; "  ],"; nl])) with 0%nat. lia.
Qed.

(** What an accessor and a buffer view declare is in their text. *)
Lemma accessor_fields a :
  occurs_in (number_entry "bufferView" (bufferView a)) (stream_accessor a)
  ∧ occurs_in (number_entry "componentType" (componentType a))
              (stream_accessor a)
  ∧ occurs_in (number_entry "count" (count a)) (stream_accessor a)
  ∧ occurs_in (cat [key "type"; ": "; key (accessor_type a)])
              (stream_accessor a).
Proof.
  unfold number_entry, stream_accessor. split_and!.
  - apply (occurs_in_cat_middle [_; _; _] [_; _; _] _).
  - apply (occurs_in_cat_middle [_; _; _; _; _; _; _; _; _] [_; _; _] _).
  - apply (occurs_in_cat_middle
             [_; _; _; _; _; _; _; _; _; _; _; _; _; _; _] [_; _; _] _).
  - apply (occurs_in_cat_middle
             [_; _; _; _; _; _; _; _; _; _; _; _; _; _; _; _; _; _; _; _; _]
             [_; _; _] _).
Qed.

Lemma bufferView_fields v :
  occurs_in (number_entry "byteOffset" (byteOffset v)) (stream_bufferView v)
  ∧ occurs_in (number_entry "byteLength" (byteLength v))
              (stream_bufferView v).
Proof.
  unfold number_entry, stream_bufferView. split.
  - apply (occurs_in_cat_middle [_; _; _; _; _; _; _; _; _] [_; _; _] _).
  - apply (occurs_in_cat_middle
             [_; _; _; _; _; _; _; _; _; _; _; _; _; _; _] [_; _; _] _).
Qed.

Lemma ExtractEntity_records scale entry c :
  length (scene_geometries (m_rootNode (ExtractEntity scale entry c)))
  = (length (scene_geometries (m_rootNode c))
     + length (List.filter yields_record (entity_placed entry)))%nat.
Proof.
  unfold ExtractEntity, entity_placed.
  destruct entry.2 as [shapeData|]; [|cbn; lia].
  destruct (m_ifc_object_definition shapeData) as [ifcObject|]; [|cbn; lia].
  rewrite ExtractShapeData_placed.
  set (st0 := {| node := _; m_materials := registry c |}).
  destruct (extract_placed_outline scale (placed_items shapeData) st0)
    as (_ & _ & Hcount).
  cbn [st0 node GltfNode_new geometries length] in Hcount.
  cbn [m_rootNode].
  destruct (geometries
              (node (extract_placed scale st0 (placed_items shapeData))))
    as [|g gs] eqn:Hg; cbn [empty length] in *; [lia|].
  unfold scene_geometries. cbn [children].
  rewrite fmap_app, join_app, length_app. cbn [fmap list_fmap mjoin].
  rewrite Hg. cbn [list_join]. rewrite app_nil_r. cbn [length]. lia.
Qed.

(** The scene holds one record for each visited item that has
    vertices. *)
Lemma extracted_scene_records scale map_entities :
  length (scene_geometries (extracted_scene scale map_entities))
  = length (List.filter yields_record (converted_placed map_entities)).
Proof.
  unfold extracted_scene, ExtractGeometryData, converted_placed.
  assert (forall c,
    length (scene_geometries
              (m_rootNode (foldl (fun c entry => ExtractEntity scale entry c)
                                 c map_entities)))
    = (length (scene_geometries (m_rootNode c))
       + length (List.filter yields_record
                   (map_entities ≫= entity_placed)))%nat) as Hfold.
  { induction map_entities as [|entry rest IH]; intros c.
    - cbn. lia.
    - cbn [foldl]. rewrite IH, ExtractEntity_records, bind_cons,
        List.filter_app, length_app. lia. }
  by rewrite Hfold.
Qed.

Lemma occurs_in_array k t entries :
  In t entries -> occurs_in t (array_text k entries).
Proof.
  intros Hin. eapply occurs_in_trans; [by apply occurs_in_separated|].
  apply occurs_in_cat. simpl. tauto.
Qed.

Lemma arrays_in_documents args root :
  (occurs_in (WriteAccessors root) (WriteGltfJson args root)
   ∧ occurs_in (WriteBufferViews root) (WriteGltfJson args root))
  ∧ occurs_in (WriteAccessors root) (WriteGltfJsonForGlb root)
  ∧ occurs_in (WriteBufferViews root) (WriteGltfJsonForGlb root).
Proof. split_and!; apply occurs_in_cat; simpl; tauto. Qed.

(** C2 — For every scene that extraction builds, the text that
    [WriteAccessors] emits is the [accessors] array of three entries per
    non-empty geometry record of the scene, in traversal order a position,
    a normal and an index accessor for each record; the text that
    [WriteBufferViews] emits is the [bufferViews] array of as many
    entries; both texts are part of the JSON document of either output
    mode.  Counted in the text itself, by the opening braces of the
    objects: [WriteBufferViews] emits three per record, and so does
    [WriteAccessors], apart from the braces that the text of the floats
    of a box may hold (none in IEEE-754 arithmetic).  The records are all
    the records of the scene, one for each visited item that has
    vertices. *)
Theorem accessor_and_bufferView_count scale map_entities :
  let root := extracted_scene scale map_entities in
  let records := non_empty_records root in
  (exists entries,
     WriteAccessors root = array_text "accessors" entries
     ∧ entries = stream_accessor <$> accessors root
     ∧ length entries = (3 * length records)%nat)
  ∧ (exists entries,
       WriteBufferViews root = array_text "bufferViews" entries
       ∧ entries = stream_bufferView <$> bufferViews root
       ∧ length entries = (3 * length records)%nat)
  ∧ accessor_layout <$> accessors root = records ≫= geometry_layout
  ∧ count_char "{" (WriteAccessors root)
    = (3 * length records + sum_list_with box_braces records)%nat
  ∧ count_char "{" (WriteBufferViews root) = (3 * length records)%nat
  ∧ records = scene_geometries root
  ∧ length records
    = length (List.filter yields_record (converted_placed map_entities))
  ∧ forall args,
      (occurs_in (WriteAccessors root) (WriteGltfJson args root)
       ∧ occurs_in (WriteBufferViews root) (WriteGltfJson args root))
      ∧ occurs_in (WriteAccessors root) (WriteGltfJsonForGlb root)
      ∧ occurs_in (WriteBufferViews root) (WriteGltfJsonForGlb root).
Proof.
  intros root records. subst records root.
  rewrite non_empty_records_extracted. split_and!.
  - eexists. split_and!; [reflexivity..|].
    rewrite length_fmap. unfold accessors. apply accessors_loop_length.
  - eexists. split_and!; [reflexivity..|].
    rewrite length_fmap. unfold bufferViews. apply bufferViews_loop_length.
  - unfold accessors. apply accessors_loop_layout.
  - apply WriteAccessors_braces.
  - apply WriteBufferViews_braces.
  - done.
  - apply extracted_scene_records.
  - intros args. apply arrays_in_documents.
Qed.

Lemma record_accessor geoms k g j l :
  Forall (fun g => vsize (vertices g) mod 3 = 0
                   ∧ vsize (normals g) = vsize (vertices g)) geoms ->
  3 * vsize geoms < 2 ^ 64 ->
  foldr (fun g total => geometry_size g + total) 0 geoms < 2 ^ 64 ->
  geoms !! k = Some g -> geometry_layout g !! j = Some l -> (j < 3)%nat ->
  exists a v,
    accessors_loop 0 geoms !! (3 * k + j)%nat = Some a
    ∧ bufferViews_loop 0 geoms !! (3 * k + j)%nat = Some v
    ∧ bufferView a = Z.of_nat (3 * k + j)
    ∧ accessor_layout a = l
    ∧ paired a v.
Proof.
  intros Hok Hcount Hbytes Hk Hl Hj.
  destruct (loops_paired geoms 0 0 Hok) as [Hpair _]; [lia..|].
  pose proof (lookup_layout geoms k g j Hk Hj) as Hlay.
  rewrite <- (accessors_loop_layout geoms 0), Hl, list_lookup_fmap in Hlay.
  destruct (accessors_loop 0 geoms !! (3 * k + j)%nat) as [a|] eqn:Ha;
    [|done].
  injection Hlay as Hlay.
  destruct (Hpair _ a Ha) as (Ebv & v & Hv & Hp).
  exists a, v. split_and!; [done|done|lia|done|done].
Qed.

(** C3 — In every extracted scene that fits the address space, each
    non-empty geometry record, number [k] in traversal order, has its
    three accessors at the positions [3k], [3k+1] and [3k+2] of the
    [accessors] array that [WriteAccessors] emits: the position and the
    normal accessor, of floats in threes, and the index accessor, of
    single unsigned integers.  Each names the buffer view at its own
    position in the [bufferViews] array that [WriteBufferViews] emits,
    and the byte length of that view is the accessor's count times the
    size of a component times the number of components of an element:
    count times four times three for positions and normals, count times
    four times one for indices.  The byte offsets of the views are the
    running sum of the byte lengths of all views before them.  What an
    accessor and a view declare stands in their text under its key. *)
Theorem bufferView_lengths_and_offsets scale map_entities :
  let root := extracted_scene scale map_entities in
  scene_size root < 2 ^ 64 ->
  (forall (k : nat) g,
     non_empty_records root !! k = Some g ->
     exists position normal index pv nv iv,
       (accessors root !! (3 * k)%nat = Some position
        ∧ accessors root !! (3 * k + 1)%nat = Some normal
        ∧ accessors root !! (3 * k + 2)%nat = Some index)
       ∧ (bufferViews root !! (3 * k)%nat = Some pv
          ∧ bufferViews root !! (3 * k + 1)%nat = Some nv
          ∧ bufferViews root !! (3 * k + 2)%nat = Some iv)
       ∧ (bufferView position = 3 * Z.of_nat k
          ∧ bufferView normal = 3 * Z.of_nat k + 1
          ∧ bufferView index = 3 * Z.of_nat k + 2)
       ∧ (accessor_layout position = (5126, vsize (vertices g) / 3, "VEC3")
          ∧ accessor_layout normal = (5126, vsize (vertices g) / 3, "VEC3")
          ∧ accessor_layout index = (5125, vsize (indices g), "SCALAR"))
       ∧ (byteLength pv = count position * 4 * 3
          ∧ byteLength nv = count normal * 4 * 3
          ∧ byteLength iv = count index * 4 * 1)
       ∧ (paired position pv ∧ paired normal nv ∧ paired index iv)
       ∧ (occurs_in (stream_accessor position) (WriteAccessors root)
          ∧ occurs_in (stream_accessor normal) (WriteAccessors root)
          ∧ occurs_in (stream_accessor index) (WriteAccessors root))
       ∧ (occurs_in (stream_bufferView pv) (WriteBufferViews root)
          ∧ occurs_in (stream_bufferView nv) (WriteBufferViews root)
          ∧ occurs_in (stream_bufferView iv) (WriteBufferViews root)))
  ∧ (forall k a,
       accessors root !! k = Some a ->
       bufferView a = Z.of_nat k
       ∧ exists v, bufferViews root !! k = Some v ∧ paired a v)
  ∧ byteOffset <$> bufferViews root =
      running_sum 0 (byteLength <$> bufferViews root)
  ∧ WriteAccessors root
    = array_text "accessors" (stream_accessor <$> accessors root)
  ∧ WriteBufferViews root
    = array_text "bufferViews" (stream_bufferView <$> bufferViews root)
  ∧ (forall a,
       occurs_in (number_entry "bufferView" (bufferView a))
                 (stream_accessor a)
       ∧ occurs_in (number_entry "componentType" (componentType a))
                   (stream_accessor a)
       ∧ occurs_in (number_entry "count" (count a)) (stream_accessor a)
       ∧ occurs_in (cat [key "type"; ": "; key (accessor_type a)])
                   (stream_accessor a))
  ∧ (forall v,
       occurs_in (number_entry "byteOffset" (byteOffset v))
                 (stream_bufferView v)
       ∧ occurs_in (number_entry "byteLength" (byteLength v))
                   (stream_bufferView v)).
Proof.
  intros root Hfit. subst root. unfold scene_size in Hfit.
  pose proof (extracted_scene_well_formed scale map_entities) as HF.
  set (root := extracted_scene scale map_entities) in *.
  assert (Forall (fun g => vsize (vertices g) mod 3 = 0
                           ∧ vsize (normals g) = vsize (vertices g))
                 (scene_geometries root)) as Hok.
  { eapply Forall_impl; [exact HF|].
    intros g ((_ & _ & Hlen) & (_ & Hmod & _)). split; [|done].
    pose proof (Z.div_mod (vsize (vertices g)) 9 ltac:(lia)) as E.
    rewrite Hmod in E. rewrite E.
    replace (9 * (vsize (vertices g) / 9) + 0)
      with (3 * (vsize (vertices g) / 9) * 3) by lia.
    apply Z.mod_mul. lia. }
  assert (3 * vsize (scene_geometries root) < 2 ^ 64) as Hcount.
  { assert (Forall triangles (scene_geometries root)) as Ht
      by (eapply Forall_impl; [exact HF|]; by intros g [_ ?]).
    pose proof (records_fit _ Ht). lia. }
  assert (forall (i : nat) a, accessors root !! i = Some a ->
            occurs_in (stream_accessor a) (WriteAccessors root)) as Hacc.
  { intros i a Hi. apply occurs_in_array, in_map.
    eapply list_elem_of_In, list_elem_of_lookup_2, Hi. }
  assert (forall (i : nat) v, bufferViews root !! i = Some v ->
            occurs_in (stream_bufferView v) (WriteBufferViews root))
    as Hview.
  { intros i v Hi. apply occurs_in_array, in_map.
    eapply list_elem_of_In, list_elem_of_lookup_2, Hi. }
  split_and!; [| | |reflexivity|reflexivity
               |apply accessor_fields|apply bufferView_fields].
  - intros k g Hk. unfold root in Hk.
    rewrite non_empty_records_extracted in Hk. fold root in Hk.
    destruct (record_accessor _ k g 0 _ Hok Hcount Hfit Hk eq_refl)
      as (position & pv & Hp & Hpv & Ep & Lp & Pp); [lia|].
    destruct (record_accessor _ k g 1 _ Hok Hcount Hfit Hk eq_refl)
      as (normal & nv & Hn & Hnv & En & Ln & Pn); [lia|].
    destruct (record_accessor _ k g 2 _ Hok Hcount Hfit Hk eq_refl)
      as (index & iv & Hi & Hiv & Ei & Li & Pi); [lia|].
    replace (3 * k + 0)%nat with (3 * k)%nat in * by lia.
    exists position, normal, index, pv, nv, iv.
    assert (byteLength pv = count position * 4 * 3
            ∧ byteLength nv = count normal * 4 * 3
            ∧ byteLength iv = count index * 4 * 1) as Hlen.
    { unfold paired in Pp, Pn, Pi. unfold accessor_layout in Lp, Ln, Li.
      injection Lp as Lp1 _ Lp3. injection Ln as Ln1 _ Ln3.
      injection Li as Li1 _ Li3.
      rewrite Lp1, Lp3 in Pp. rewrite Ln1, Ln3 in Pn.
      rewrite Li1, Li3 in Pi. done. }
    split_and!; try done; try lia.
    + apply (Hacc _ _ Hp).
    + apply (Hacc _ _ Hn).
    + apply (Hacc _ _ Hi).
    + apply (Hview _ _ Hpv).
    + apply (Hview _ _ Hnv).
    + apply (Hview _ _ Hiv).
  - apply (loops_paired _ 0 0 Hok); [lia..|]. lia.
  - apply (loops_paired _ 0 0 Hok); [lia..|]. lia.
Qed.

Lemma fan_indices_app first m n :
  fan_indices first (m + n) =
  fan_indices first m ++ fan_indices (first + 3 * Z.of_nat m) n.
Proof.
  revert first. induction m as [|m IH]; intros first.
  - cbn [Nat.add fan_indices app]. f_equal. lia.
  - cbn [Nat.add fan_indices]. rewrite IH, <- app_assoc. do 3 f_equal. lia.
Qed.

Lemma triangle_coordinates_length localTransform ts :
  vsize (mjoin (triangle_coordinates localTransform <$> ts))
  = 9 * Z.of_nat (length ts).
Proof.
  unfold vsize. induction ts as [|t ts IH]; [done|].
  change (mjoin (triangle_coordinates localTransform <$> t :: ts))
    with (triangle_coordinates localTransform t
            ++ mjoin (triangle_coordinates localTransform <$> ts)).
  rewrite length_app.
  change (length (triangle_coordinates localTransform t)) with 9%nat.
  cbn [length]. lia.
Qed.

(** The indices that the faces of a list append: three fresh consecutive
    ones per triangle, counted on from the vertices the record holds. *)
Lemma faces_indexed localTransform fs : forall g,
  Forall (fun f => vsize (loop f) < 2 ^ 64) fs ->
  indices (foldl (fun g f => ExtractFace localTransform (Some f) g) g fs)
  = indices g ++ fan_indices (vsize (vertices g) / 3)
                             (length (fs ≫= fun f => fan (loop f))).
Proof.
  induction fs as [|f fs IH]; intros g Hfs.
  - cbn. by rewrite app_nil_r.
  - apply Forall_cons in Hfs as [Hf Hfs]. cbn [foldl].
    rewrite ExtractFace_any_fan by done.
    rewrite IH by done.
    rewrite indices_push_triangles, vertices_push_triangles, vsize_app,
      triangle_coordinates_length, bind_cons, length_app,
      fan_indices_app, <- app_assoc.
    do 3 f_equal.
    replace (9 * Z.of_nat (length (fan (loop f))))
      with (3 * Z.of_nat (length (fan (loop f))) * 3) by lia.
    by rewrite Z.div_add by lia.
Qed.

(** C5 — [ExtractMeshSet] appends to the record, face after face in the
    order of the mesh set (null meshes and faces passed over), the fan of
    each face: a face whose loop has [n >= 3] vertices gives exactly
    [n - 2] triangles, [(v0, vi, vi+1)] for [i = 1 .. n-2] around the
    first vertex of the loop, and a face with fewer than three vertices
    gives none, so that nothing is appended for it.  The coordinates
    appended are those of the corners after the local transform, the
    normals the face's plane normal once per corner, the indices three
    fresh consecutive ones per triangle.  [ExtractMeshSet] is a total
    function: it has no outcome other than the record. *)
Theorem fan_triangulation meshset localTransform g :
  Forall (fun f => vsize (loop f) < 2 ^ 64) (faces_of_meshset meshset) ->
  let fs := faces_of_meshset meshset in
  let r := ExtractMeshSet meshset localTransform g in
  vertices r =
    vertices g
      ++ (fs ≫= fun f =>
            mjoin (triangle_coordinates localTransform <$> fan (loop f)))
  ∧ normals r =
      normals g
        ++ (fs ≫= fun f =>
              mjoin (replicate (3 * length (fan (loop f)))
                               (coordinates (plane_N f))))
  ∧ indices r =
      indices g
        ++ fan_indices (vsize (vertices g) / 3)
                       (length (fs ≫= fun f => fan (loop f)))
  ∧ Forall (fun f =>
      let n := length (loop f) in
      ((3 <= n)%nat ->
         length (fan (loop f)) = (n - 2)%nat
         ∧ forall i v0 vi vj,
             (1 <= i <= n - 2)%nat ->
             loop f !! 0%nat = Some v0 ->
             loop f !! i = Some vi ->
             loop f !! S i = Some vj ->
             fan (loop f) !! (i - 1)%nat = Some (v0, vi, vj))
      ∧ ((n < 3)%nat -> fan (loop f) = [])) fs
  ∧ (Forall (fun f => (length (loop f) < 3)%nat) fs -> r = g).
Proof.
  intros Hfs fs r. subst r. rewrite ExtractMeshSet_faces. fold fs.
  destruct (faces_pushed localTransform fs g Hfs) as (Ev & En & _).
  split_and!.
  - exact Ev.
  - rewrite En. f_equal. clear. induction fs as [|f fs IH]; [done|].
    rewrite !bind_cons, IH. f_equal. unfold face_normals.
    induction (fan (loop f)) as [|t ts IHt]; [done|].
    rewrite bind_cons, IHt.
    replace (3 * length (t :: ts))%nat with (S (S (S (3 * length ts))))
      by (cbn [length]; lia).
    cbn [replicate mjoin list_join]. by rewrite <- !app_assoc.
  - by apply faces_indexed.
  - apply Forall_forall. intros f _. cbv zeta. split.
    + intros Hn. split; [apply fan_length|].
      intros i v0 vi vj Hi H0 H1 H2.
      destruct i as [|i]; [lia|].
      replace (S i - 1)%nat with i by lia. by apply fan_lookup.
    + intros Hn. apply length_zero_iff_nil. rewrite fan_length. lia.
  - intros Hsmall. clear Ev En Hfs. revert g.
    subst fs. induction Hsmall as [|f fs Hf _ IH]; intros g; [done|].
    cbn [foldl].
    assert (ExtractFace localTransform (Some f) g = g) as ->; [|by apply IH].
    unfold ExtractFace, n_edges.
    by rewrite bool_decide_eq_true_2 by (unfold vsize; lia).
Qed.












End Conversion.

(** ** The text of a float in IEEE-754 arithmetic holds no brace *)

Section Plain.

Lemma count_char_of_list c l :
  count_char c (String.string_of_list_ascii l)
  = length (List.filter (fun a => Ascii.eqb a c) l).
Proof.
  induction l as [|a l IH]; [done|].
  cbn [String.string_of_list_ascii count_char List.filter]. rewrite IH.
  by destruct (Ascii.eqb a c).
Qed.

Lemma count_char_to_list c s :
  length (List.filter (fun a => Ascii.eqb a c)
            (String.list_ascii_of_string s))
  = count_char c s.
Proof.
  rewrite <- count_char_of_list.
  by rewrite String.string_of_list_ascii_of_string.
Qed.

Lemma strip_zeros_rev_filter (p : Ascii.ascii -> bool) l :
  (length (List.filter p (Binary32.strip_zeros_rev l))
   <= length (List.filter p l))%nat.
Proof.
  induction l as [|a l IH]; [done|]. cbn [Binary32.strip_zeros_rev].
  destruct (Ascii.eqb a "0"); [|done].
  cbn [List.filter]. destruct (p a); cbn [length]; lia.
Qed.

Lemma filter_reverse {A} (p : A -> bool) (l : list A) :
  length (List.filter p (reverse l)) = length (List.filter p l).
Proof.
  induction l as [|a l IH]; [done|].
  rewrite reverse_cons, List.filter_app, length_app, IH.
  cbn [List.filter]. destruct (p a); cbn [length]; lia.
Qed.

Lemma strip_zeros_no_brace s :
  count_char "{" s = 0%nat -> count_char "{" (Binary32.strip_zeros s) = 0%nat.
Proof.
  intros Hs. unfold Binary32.strip_zeros.
  rewrite count_char_of_list, filter_reverse.
  pose proof (strip_zeros_rev_filter (fun a => Ascii.eqb a "{")
                (reverse (String.list_ascii_of_string s))) as Hle.
  rewrite filter_reverse, count_char_to_list in Hle. lia.
Qed.

Lemma pretty_no_brace (n : Z) : count_char "{" (pretty n) = 0%nat.
Proof. apply stream_size_t_no_brace. Qed.

Lemma pad_no_brace w n : count_char "{" (Binary32.pad w n) = 0%nat.
Proof.
  unfold Binary32.pad.
  rewrite count_char_append, pretty_no_brace, count_char_of_list.
  induction (w - String.length (pretty n))%nat as [|k IH]; [done|].
  cbn [replicate List.filter]. exact IH.
Qed.

Lemma with_fraction_no_brace int frac :
  count_char "{" int = 0%nat -> count_char "{" frac = 0%nat ->
  count_char "{" (Binary32.with_fraction int frac) = 0%nat.
Proof.
  intros Hint Hfrac. unfold Binary32.with_fraction.
  pose proof (strip_zeros_no_brace frac Hfrac) as Hs.
  destruct (Binary32.strip_zeros frac) as [|a f]; [done|].
  rewrite !count_char_append, Hint, Hs. done.
Qed.

Lemma stream_positive_no_brace num den :
  count_char "{" (Binary32.stream_positive num den) = 0%nat.
Proof.
  unfold Binary32.stream_positive. cbv zeta.
  case_bool_decide.
  - rewrite !count_char_append, pad_no_brace.
    rewrite with_fraction_no_brace
      by (apply pretty_no_brace || apply pad_no_brace).
    by destruct (_ <? 0).
  - apply with_fraction_no_brace;
      [apply pretty_no_brace|apply pad_no_brace].
Qed.

(** The stream writes a [float] without a brace. *)
Lemma stream_float_no_brace (f : float) :
  count_char "{" (@stream_float binary32 f) = 0%nat.
Proof.
  change (@stream_float binary32 f) with (Binary32.stream f).
  destruct f as [[|]|[|]| |s m e]; try done.
  unfold Binary32.stream.
  rewrite count_char_append.
  destruct s, (0 <=? e); by rewrite stream_positive_no_brace.
Qed.

Lemma box_without_braces (g : @GeometryData binary32) : box_braces g = 0%nat.
Proof.
  unfold box_braces, stream_vec3. cbn [cat foldr].
  rewrite !count_char_append, !stream_float_no_brace. done.
Qed.

End Plain.

(** ** A scale that is not a number, in IEEE-754 arithmetic *)

Section NotANumber.

Lemma float_mul_nan (v : float) : @float_mul binary32 v S754_nan = S754_nan.
Proof. by destruct v. Qed.

Lemma CalculateBounds_loop_nan (rest : list float) :
  let nan3 : float * float * float := (S754_nan, S754_nan, S754_nan) in
  CalculateBounds_loop ((fun _ => S754_nan : float) <$> rest) nan3 nan3
  = (nan3, nan3).
Proof.
  induction rest as [| | |a b c rest IH] using list_triples_ind; try done.
Qed.

(** X16 — In IEEE-754 arithmetic [ValidateArgs] accepts a scale that is
    not a number, since [scale <= 0.0f] is false for it; [ApplyScale] then
    turns every position coordinate into a NaN, and the bounds that
    [CalculateBounds] computes for a record with vertices are NaN as
    well. *)
Theorem nan_scale_is_accepted (args : CommandLineArgs) (g : GeometryData) :
  inputFile args <> EmptyString -> outputFile args <> EmptyString ->
  0 <= logLevel args <= 2 -> scale args = S754_nan ->
  ValidateArgs args = true
  ∧ vertices (ApplyScale g (scale args))
    = (fun _ => S754_nan) <$> vertices g
  ∧ ((3 <= length (vertices g))%nat ->
     let nan3 : float * float * float := (S754_nan, S754_nan, S754_nan) in
     minBounds (finish (scale args) g) = nan3
     ∧ maxBounds (finish (scale args) g) = nan3).
Proof.
  intros Hin Hout Hlog Hscale.
  assert (vertices (ApplyScale g (scale args))
          = (fun _ => S754_nan) <$> vertices g) as Ev.
  { rewrite Hscale. unfold ApplyScale.
    change (@float_eq binary32 S754_nan lit_1_0f) with false.
    cbn [negb vertices].
    apply list_fmap_ext. intros i v _. apply float_mul_nan. }
  split_and!; [|done|].
  - unfold ValidateArgs. rewrite Hscale.
    destruct (String.eqb_spec (inputFile args) EmptyString); [done|].
    destruct (String.eqb_spec (outputFile args) EmptyString); [done|].
    change (@float_le binary32 S754_nan lit_0_0f) with false. cbn match.
    rewrite bool_decide_eq_false_2 by lia. done.
  - intros Hlen nan3. unfold finish, CalculateBounds. rewrite Ev.
    destruct (vertices g) as [|v0 [|v1 [|v2 rest]]];
      cbn [length] in Hlen; try lia.
    cbn [fmap list_fmap].
    set (r := CalculateBounds_loop _ _ _).
    by assert (r = (nan3, nan3)) as -> by apply CalculateBounds_loop_nan.
Qed.

End NotANumber.

(** ** The properties on the example scenes, in IEEE-754 arithmetic *)

Section Worked.
Import Examples MoreExamples.

Lemma head_elem {A} (d : A) (l : list A) :
  length l = 1%nat -> default d (head l) ∈ l.
Proof. destruct l as [|a l]; [done|]. intros _. apply list_elem_of_here. Qed.

(** The scenario of the specification: one triangle, scale [1.0]. *)
Example triangle_scenario :
  accessor_layout <$> accessors (triangle_scene lit_1_0f) =
    [(5126, 3, "VEC3"); (5126, 3, "VEC3"); (5125, 3, "SCALAR")]
  ∧ (fun g => (stream_vec3 (minBounds g), stream_vec3 (maxBounds g),
               indices g))
      <$> scene_geometries (triangle_scene lit_1_0f)
    = [("[0, 0, 0]", "[1, 1, 0]", [0; 1; 2])].
Proof. split; vm_compute; reflexivity. Qed.

(** The same scene with scale [0.001]. *)
Example millimetre_scenario :
  (fun g => stream_vec3 (maxBounds g))
    <$> scene_geometries (triangle_scene millimetre)
  = ["[0.001, 0.001, 0]"].
Proof. vm_compute. reflexivity. Qed.

(** A scene without geometry: the file is the header and the JSON
    chunk. *)
Example empty_scene_container :
  let root := extracted_scene lit_1_0f [] in
  CollectBinaryData root = []
  ∧ vsize (glb_bytes root)
    = 12 + 8 + round_up4 (Z.of_nat (String.length (WriteGltfJsonForGlb root))).
Proof. split; vm_compute; reflexivity. Qed.

(** An object without faces and without descendants gives no node. *)
Example empty_object_pruned :
  let shape :=
    {| m_ifc_object_definition := named "Space";
       getTransform := identity;
       getGeometricItems := [item_of_faces []];
       getChildElements := [] |} in
  length (children (extracted_scene lit_1_0f [("1", Some shape)])) = 0%nat.
Proof. vm_compute. reflexivity. Qed.

(** The length field of the one-triangle GLB file is the file's length. *)
Lemma glb_layout_triangle :
  third_uint32 (glb_bytes (triangle_scene lit_1_0f)) = 1588
  ∧ vsize (glb_bytes (triangle_scene lit_1_0f)) = 1588.
Proof.
  destruct (glb_layout (triangle_scene lit_1_0f)) as (_ & E3 & El & _).
  - vm_compute. reflexivity.
  - split; (etransitivity; [eassumption|vm_compute; reflexivity]).
Defined.

(** The GLB file of the large scene is longer than a [uint32] can say:
    its length field is not the length the format asks for. *)
Lemma large_scene_length_field :
  third_uint32 (glb_bytes large_scene) <> glb_length large_scene.
Proof.
  pose proof (third_uint32_small large_scene) as Hsmall.
  assert (2 ^ 32 <= scene_size large_scene) as Hlarge.
  { unfold large_scene, triangles_shape, triangles_item, named.
    rewrite scene_size_triangles; [|reflexivity|lia].
    rewrite Z2Nat.id by lia. word_lia. }
  apply glb_length_large in Hlarge. lia.
Qed.

(** The two arrays of the triangle hold three objects each. *)
Lemma arrays_of_the_triangle :
  count_char "{" (WriteAccessors (triangle_scene lit_1_0f)) = 3%nat
  ∧ count_char "{" (WriteBufferViews (triangle_scene lit_1_0f)) = 3%nat.
Proof.
  destruct (accessor_and_bufferView_count lit_1_0f
              [("1", Some triangle_shape)])
    as (_ & _ & _ & Ea & Ev & _).
  split; (etransitivity; [eassumption|vm_compute; reflexivity]).
Defined.

(** The three buffer views of the triangle start at 0, 36 and 72. *)
Lemma bufferView_offsets_triangle :
  byteOffset <$> bufferViews (triangle_scene lit_1_0f) = [0; 36; 72].
Proof.
  destruct (bufferView_lengths_and_offsets lit_1_0f
              [("1", Some triangle_shape)]) as (_ & _ & E & _).
  - vm_compute. reflexivity.
  - etransitivity; [exact E|]. vm_compute. reflexivity.
Defined.

(** The mesh set of the square gives the two triangles 0 1 2 and 3 4 5:
    its null mesh, its null face and its face of two vertices give
    nothing. *)
Lemma fan_triangulation_quad :
  indices (ExtractMeshSet quad_meshset identity GeometryData_new)
  = [0; 1; 2; 3; 4; 5].
Proof.
  destruct (fan_triangulation quad_meshset identity GeometryData_new)
    as (_ & _ & Ei & _).
  - repeat constructor; vm_compute; reflexivity.
  - etransitivity; [exact Ei|]. vm_compute. reflexivity.
Defined.


(** The item of a child element is moved by the child's transform, not by
    the transform of the node's own shape-data entry: the coordinates
    emitted for the triangle of [nested_shape] are those under the
    translation of the child element, and differ from those under the
    identity of the node's entry. *)
Lemma descendant_uses_its_own_transform :
  let corners := (point 0 0 0, point 1 0 0, point 0 1 0) in
  let emitted :=
    vertices <$> geometries
      (node (ExtractShapeData lit_1_0f nested_shape (start "Storey"))) in
  emitted = [triangle_coordinates (shift_x 5) corners]
  ∧ emitted <> [triangle_coordinates (getTransform nested_shape) corners]
  ∧ ExtractShapeData lit_1_0f nested_shape (start "Storey")
    <> extract_placed lit_1_0f (start "Storey")
         (items_under (getTransform nested_shape) nested_shape).
Proof.
  split_and!.
  - vm_compute. reflexivity.
  - vm_compute. discriminate.
  - intros E.
    apply (f_equal (fun st => vertices <$> geometries (node st))) in E.
    vm_compute in E. discriminate E.
Qed.

(** Multiplying by [0.001] keeps the order of the coordinates of the
    square. *)
Example order_kept : keeps_order millimetre (vertices quad_record).
Proof.
  unfold keeps_order.
  set (l := vertices quad_record). vm_compute in l. subst l.
  repeat first [apply Forall_nil_2 | apply Forall_cons_2];
    first [left; vm_compute; reflexivity | right; vm_compute; reflexivity].
Qed.

(** Multiplying by [0.25] does not keep the two tiny coordinates apart,
    nor does it make them the same [float]. *)
Example order_lost :
  ¬ keeps_order quarter
      (vertices (ExtractFace identity (Some tiny_face) GeometryData_new)).
Proof.
  unfold keeps_order.
  set (l := vertices _). vm_compute in l. subst l.
  intros Hall.
  apply Forall_cons in Hall as [_ Hall].
  apply Forall_cons in Hall as [_ Hall].
  apply Forall_cons in Hall as [_ Hall].
  apply Forall_cons in Hall as [Hall _].
  apply Forall_cons in Hall as [Hb _].
  destruct Hb as [E|E]; vm_compute in E; discriminate E.
Qed.






(** A quote and a backslash in a name go out as they are. *)
Lemma quote_written_verbatim :
  occurs_in (name_entry quoted_name) (WriteGltfJsonForGlb quoted_scene)
  ∧ occurs_in (name_entry (quoted_name +:+ "_Mesh"))
              (WriteGltfJsonForGlb quoted_scene).
Proof.
  assert (quoted_node ∈ children quoted_scene) as Hin.
  { apply head_elem. vm_compute. reflexivity. }
  destruct (names_written_verbatim (gltf_args "out.gltf" lit_1_0f)
              quoted_scene quoted_node Hin)
    as (_ & _ & _ & _ & Hnode & Hmesh & _).
  split; [exact Hnode|]. apply Hmesh. reflexivity.
Defined.

End Worked.


(** ** The further properties on the example scenes *)

Section WorkedFurther.
Import Examples MoreExamples.

(** The square and the triangle of the mixed item give three triangles:
    nine indices and twenty-seven coordinates. *)
Lemma fans_of_the_mixed_item :
  vsize (indices (raw_geometry "default" identity mixed_item)) = 9
  ∧ vsize (vertices (raw_geometry "default" identity mixed_item)) = 27.
Proof.
  destruct (record_is_the_fans_of_its_faces "default" identity mixed_item)
    as (Ev & _ & Ei & _).
  - change (faces_of_item mixed_item) with [quad_face; triangle_face].
    repeat constructor; vm_compute; reflexivity.
  - split.
    + etransitivity; [exact Ei|]. vm_compute. reflexivity.
    + rewrite Ev. vm_compute. reflexivity.
Defined.

(** The box of the square encloses its six vertices. *)
Lemma box_of_the_square :
  Forall (encloses (minBounds (CalculateBounds quad_record))
                   (maxBounds (CalculateBounds quad_record)))
         (points (vertices quad_record)).
Proof.
  apply bounding_box_encloses_vertices. vm_compute. reflexivity.
Defined.



(** The coloured triangle gets the material [Material_1], the plain one
    [default]; the GLB files are the same. *)
Lemma colour_is_not_written :
  materialId <$> scene_geometries coloured_scene = ["Material_1"]
  ∧ materialId <$> scene_geometries (triangle_scene lit_1_0f) = ["default"]
  ∧ glb_bytes coloured_scene = glb_bytes (triangle_scene lit_1_0f).
Proof.
  split_and!; [vm_compute; reflexivity..|].
  apply (output_is_positions_normals_indices
           (gltf_args "out.gltf" lit_1_0f)).
  vm_compute. reflexivity.
Defined.


(** The arguments [-i in.ifc -o out.gltf -s nan] pass the validation, and
    the box of the square is then not a number. *)
Lemma nan_scale_passes :
  ValidateArgs (gltf_args "out.gltf" S754_nan) = true
  ∧ minBounds (finish S754_nan quad_record)
    = (S754_nan, S754_nan, S754_nan).
Proof.
  destruct (nan_scale_is_accepted (gltf_args "out.gltf" S754_nan)
              quad_record) as (E & _ & Ebox).
  - discriminate.
  - discriminate.
  - simpl. lia.
  - reflexivity.
  - split; [exact E|]. apply Ebox. vm_compute. lia.
Defined.

End WorkedFurther.
